(** * fastime: a cached clock, its snapshot store and its refresh engine

    A shallow embedding of [fastime.go].  The file has five layers:

    - the parts of Go's [time] package the program calls ([Time], [Add],
      [Unix], [UnixNano], [AppendFormat]), with a renderer for the layouts
      made of the numeric date and clock elements;
    - the memory the formatter works in: backing arrays, slices that alias
      them, [bytes.Buffer] and [sync.Pool];
    - the [fastime] struct and its methods, state passing, one Rocq function
      per Go method, with the same names;
    - the daemon goroutine of [StartTimerD] as a labelled step function, one
      label per [select] case, and runs of the whole system in which a call
      and a [select] case are one transition each;
    - the same program statement by statement: threads, the runs in which
      their statements interleave, and what holds of a call that runs
      alone. *)

From Stdlib Require Import ZArith String.
From Stdlib.Strings Require Import Byte.
From stdpp Require Import base decidable option list.

Local Open Scope Z_scope.

(** ** Machine integers *)

(** The value an [int64] holds after an arithmetic result [z] wraps. *)
Definition wrap64 (z : Z) : Z := (z + 2 ^ 63) mod 2 ^ 64 - 2 ^ 63.

Definition MaxInt64 : Z := 2 ^ 63 - 1.
Definition MaxUint32 : Z := 2 ^ 32 - 1.

(** The eight bytes of an [int64] in memory, lowest address first, on a
    little-endian target (amd64, arm64, riscv64, ...): byte [i] holds bits
    [8i .. 8i+7] of the two's-complement representation. *)
Definition int64Bytes (z : Z) : list Z :=
  map (fun i => Z.land (Z.shiftr (z mod 2 ^ 64) (8 * Z.of_nat i)) 255) (seq 0 8).

(** The [uint32] that four little-endian bytes spell. *)
Definition uint32OfBytes (bs : list Z) : Z :=
  foldr (fun b acc => b + 256 * acc) 0 (take 4 bs).

(** The cast of [store], a [uint32] load through [unsafe.Pointer(&x)] for
    [x int64]: the pointer to the 64-bit word is reinterpreted as a pointer
    to a 32-bit one, so the load reads the four bytes at the lowest
    addresses of [x]. *)
Definition castUint32 (x : Z) : Z := uint32OfBytes (int64Bytes x).

(** ** The [time] package *)

(** A zone with a fixed offset east of UTC, as [time.FixedZone] makes. *)
Record Location := { zoneName : string; zoneOffset : Z }.

Definition UTC : Location := {| zoneName := "UTC"; zoneOffset := 0 |}.

(** A wall-clock [time.Time]: seconds since the Unix epoch, nanoseconds
    within the second ([0 <= nsec < 1e9]) and the zone it is shown in.  The
    seconds are unbounded here; Go keeps them in an [int64] counted from
    year 1 and saturates 292 billion years away. *)
Record Time := { sec : Z; nsec : Z; loc : Location }.

Definition validTime (t : Time) : Prop := 0 <= nsec t < 1000000000.

(** [time.Duration]: an [int64] count of nanoseconds. *)
Definition Duration := Z.

Definition Millisecond : Duration := 1000000.
Definition Second : Duration := 1000000000.

(** [t.Unix()] and [t.UnixNano()], both [int64]. *)
Definition Unix (t : Time) : Z := wrap64 (sec t).
Definition UnixNano (t : Time) : Z := wrap64 (sec t * 1000000000 + nsec t).

(** [t.Add(d)]: Go splits [d] with truncating division and carries the
    nanoseconds into the seconds. *)
Definition Add (t : Time) (d : Duration) : Time :=
  let dsec := Z.quot d 1000000000 in
  let ns := nsec t + Z.rem d 1000000000 in
  if 1000000000 <=? ns then
    {| sec := sec t + (dsec + 1); nsec := ns - 1000000000; loc := loc t |}
  else if ns <? 0 then
    {| sec := sec t + (dsec - 1); nsec := ns + 1000000000; loc := loc t |}
  else
    {| sec := sec t + dsec; nsec := ns; loc := loc t |}.

(** [!t.After(u)]: [t] is not later than [u]. *)
Definition Time_le (t u : Time) : Prop :=
  sec t < sec u \/ (sec t = sec u /\ nsec t <= nsec u).

(** The reading [c] of the wall clock, in nanoseconds since the Unix
    epoch, as a [Time] shown in [l]: [time.Unix(0, c).In(l)]. *)
Definition clockTime (c : Z) (l : Location) : Time :=
  {| sec := c / 1000000000; nsec := c mod 1000000000; loc := l |}.

(** *** Layouts *)

(** The layout elements of [time.Format] that this renderer knows. *)
Inductive stdChunk :=
  | stdLongYear        (* 2006 *)
  | stdZeroMonth       (* 01 *)
  | stdZeroDay         (* 02 *)
  | stdHour            (* 15 *)
  | stdZeroMinute      (* 04 *)
  | stdMinute          (* 4 *)
  | stdZeroSecond      (* 05 *)
  | stdSecond          (* 5 *)
  | stdISO8601ColonTZ. (* Z07:00 *)

Inductive piece := Std (c : stdChunk) | Lit (b : byte).

Global Instance byte_eq_dec : EqDecision byte := Byte.byte_eq_dec.

Definition bytesOf (s : string) : list byte := list_byte_of_string s.

Definition hasPrefix (p : string) (l : list byte) : bool :=
  bool_decide (take (length (bytesOf p)) l = bytesOf p).

(** Bytes at which [nextStdChunk] may find an element that is not among
    [stdChunk]: month and day names, [MST], [_2], [3], [PM], [pm] and
    fractional seconds. *)
Definition outsideFragment (c : byte) : bool :=
  bool_decide (c ∈ bytesOf "JM_3Pp.,").

(** [nextStdChunk], run to the end of the layout.  [None]: the layout has
    an element outside [stdChunk]. *)
Fixpoint layoutPieces (fuel : nat) (l : list byte) : option (list piece) :=
  match fuel, l with
  | _, [] => Some []
  | O, _ :: _ => None
  | S k, c :: r =>
    if hasPrefix "2006" l then cons (Std stdLongYear) <$> layoutPieces k (drop 4 l)
    else if hasPrefix "2" l then None
    else if hasPrefix "01" l then cons (Std stdZeroMonth) <$> layoutPieces k (drop 2 l)
    else if hasPrefix "02" l then cons (Std stdZeroDay) <$> layoutPieces k (drop 2 l)
    else if hasPrefix "04" l then cons (Std stdZeroMinute) <$> layoutPieces k (drop 2 l)
    else if hasPrefix "05" l then cons (Std stdZeroSecond) <$> layoutPieces k (drop 2 l)
    else if hasPrefix "03" l || hasPrefix "06" l || hasPrefix "002" l then None
    else if hasPrefix "15" l then cons (Std stdHour) <$> layoutPieces k (drop 2 l)
    else if hasPrefix "1" l then None
    else if hasPrefix "4" l then cons (Std stdMinute) <$> layoutPieces k r
    else if hasPrefix "5" l then cons (Std stdSecond) <$> layoutPieces k r
    else if hasPrefix "-07" l then None
    else if hasPrefix "Z07:00:00" l then None
    else if hasPrefix "Z07:00" l then cons (Std stdISO8601ColonTZ) <$> layoutPieces k (drop 6 l)
    else if hasPrefix "Z07" l then None
    else if outsideFragment c then None
    else cons (Lit c) <$> layoutPieces k r
  end.

(** *** Calendar *)

Definition digit (n : Z) : byte :=
  default "0"%byte (Byte.of_N (Z.to_N (48 + n mod 10))).

Fixpoint digitsOf (fuel : nat) (u : Z) : list byte :=
  match fuel with
  | O => []
  | S k => if u <? 10 then [digit u] else digitsOf k (u / 10) ++ [digit u]
  end.

(** [appendInt(b, x, width)]: decimal, zero-padded to [width]. *)
Definition appendInt (x : Z) (width : nat) : list byte :=
  let ds := digitsOf 20 (Z.abs x) in
  (if x <? 0 then ["-"%byte] else []) ++
  replicate (width - length ds) "0"%byte ++ ds.

(** Year, month and day of the day [days] after 1970-01-01 in the
    proleptic Gregorian calendar. *)
Definition civil (days : Z) : Z * Z * Z :=
  let z := days + 719468 in
  let era := z / 146097 in
  let doe := z mod 146097 in
  let yoe := (doe - doe / 1460 + doe / 36524 - doe / 146096) / 365 in
  let doy := doe - (365 * yoe + yoe / 4 - yoe / 100) in
  let mp := (5 * doy + 2) / 153 in
  let d := doy - (153 * mp + 2) / 5 + 1 in
  let m := if mp <? 10 then mp + 3 else mp - 9 in
  (yoe + era * 400 + (if m <=? 2 then 1 else 0), m, d).

Definition renderStd (t : Time) (c : stdChunk) : list byte :=
  let abs := sec t + zoneOffset (loc t) in
  let '(y, m, d) := civil (abs / 86400) in
  let clock := abs mod 86400 in
  match c with
  | stdLongYear => appendInt y 4
  | stdZeroMonth => appendInt m 2
  | stdZeroDay => appendInt d 2
  | stdHour => appendInt (clock / 3600) 2
  | stdZeroMinute => appendInt (clock mod 3600 / 60) 2
  | stdMinute => appendInt (clock mod 3600 / 60) 0
  | stdZeroSecond => appendInt (clock mod 60) 2
  | stdSecond => appendInt (clock mod 60) 0
  | stdISO8601ColonTZ =>
    let offset := zoneOffset (loc t) in
    if offset =? 0 then ["Z"%byte]
    else
      let zone := Z.quot offset 60 in
      (if zone <? 0 then ["-"%byte] else ["+"%byte]) ++
      appendInt (Z.abs zone / 60) 2 ++ [":"%byte] ++ appendInt (Z.abs zone mod 60) 2
  end.

Definition renderPiece (t : Time) (p : piece) : list byte :=
  match p with
  | Std c => renderStd t c
  | Lit b => [b]
  end.

(** The byte runs [t.AppendFormat] appends for [layout], one per layout
    element, when every element is in [stdChunk]. *)
Definition clockChunks (t : Time) (layout : string) : option (list (list byte)) :=
  map (renderPiece t) <$> layoutPieces (String.length layout) (bytesOf layout).

Definition RFC3339 : string := "2006-01-02T15:04:05Z07:00".

(** The renderer handed to the model when a run is evaluated: the byte runs
    of [clockChunks]; a layout outside its elements renders as nothing (no
    evaluated run below uses one). *)
Definition goChunks (t : Time) (layout : string) : list (list byte) :=
  default [] (clockChunks t layout).

(** ** Memory: backing arrays, slices, [bytes.Buffer], [sync.Pool] *)

(** The heap of byte arrays: an array's address is its index, and an
    allocation extends the list. *)
Abbreviation Heap := (list (list byte)).

(** A [[]byte]: the array it points into, where it starts there, its
    length and its capacity. *)
Record Slice := { arr : nat; off : nat; len : nat; cap : nat }.

(** The bytes a holder of [s] reads now. *)
Definition readSlice (h : Heap) (s : Slice) : list byte :=
  take (len s) (drop (off s) (default [] (h !! arr s))).

(** [make([]byte, 0, n)]. *)
Definition make (n : nat) (h : Heap) : Heap * Slice :=
  (h ++ [replicate n x00], {| arr := length h; off := 0%nat; len := 0%nat; cap := n |}).

(** [s[k:]] and [s[:k]]. *)
Definition sliceFrom (s : Slice) (k : nat) : Slice :=
  {| arr := arr s; off := (off s + k)%nat; len := (len s - k)%nat; cap := (cap s - k)%nat |}.
Definition sliceTo (s : Slice) (k : nat) : Slice :=
  {| arr := arr s; off := off s; len := k; cap := cap s |}.

Definition writeAt (a : list byte) (i : nat) (x : list byte) : list byte :=
  take i a ++ x ++ drop (i + length x)%nat a.

(** [append(s, x...)]: in place while the capacity lasts, else into a new
    array that takes the old bytes and the new ones.  The new capacity is
    taken as the larger of the length needed and twice the old capacity;
    the runtime may give more, which changes nothing below. *)
Definition appendBytes (hs : Heap * Slice) (x : list byte) : Heap * Slice :=
  let (h, s) := hs in
  let n := (len s + length x)%nat in
  if decide (n <= cap s)%nat then
    (alter (fun a => writeAt a (off s + len s)%nat x) (arr s) h,
     {| arr := arr s; off := off s; len := n; cap := cap s |})
  else
    let c := Nat.max n (2 * cap s) in
    (h ++ [readSlice h s ++ x ++ replicate (c - n) x00],
     {| arr := length h; off := 0%nat; len := n; cap := c |}).

(** A [bytes.Buffer]: its [buf] and its read offset [off]. *)
Record Buffer := { buf : Slice; boff : nat }.

Definition NewBuffer (s : Slice) : Buffer := {| buf := s; boff := 0%nat |}.
Definition Bytes (b : Buffer) : Slice := sliceFrom (buf b) (boff b).
Definition Cap (b : Buffer) : nat := cap (buf b).
Definition Len (b : Buffer) : nat := (len (buf b) - boff b)%nat.
Definition Reset (b : Buffer) : Buffer := {| buf := sliceTo (buf b) 0; boff := 0%nat |}.

(** [b.Grow(n)] for a buffer made by [bytes.NewBuffer]: reslice when
    [n] more bytes fit, slide the unread bytes down when half the array
    would do, else move them to a new array ([growSlice]). *)
Definition Grow (n : nat) (hb : Heap * Buffer) : Heap * Buffer :=
  let (h, b0) := hb in
  let m := Len b0 in
  let b := if decide (m = 0%nat /\ boff b0 <> 0%nat) then Reset b0 else b0 in
  let s := buf b in
  if decide (n <= cap s - len s)%nat then (h, b)
  else if decide (n <= cap s / 2 - m)%nat then
    (alter (fun a => writeAt a (off s) (readSlice h (Bytes b))) (arr s) h,
     {| buf := sliceTo s m; boff := 0%nat |})
  else
    let c := Nat.max (m + (boff b + n)) (2 * (cap s - boff b)) in
    (h ++ [readSlice h (Bytes b) ++ replicate (c - m) x00],
     {| buf := {| arr := length h; off := 0%nat; len := m; cap := c |}; boff := 0%nat |}).

(** ** The [fastime] struct *)

(** The struct of [fastime.go].  An [atomic.Value] that may still be empty
    is an [option]; [cancel] is [None] while the field is [nil], else the
    context its [CancelFunc] cancels; [pool] lists the buffers that
    [sync.Pool] holds, latest [Put] first. *)
Record fastime := {
  uut : Z;
  uunt : Z;
  dur : Z;
  ut : Z;
  unt : Z;
  correctionDur : Duration;
  running : bool;
  t : option Time;
  ft : option Slice;
  format : string;
  location : Location;
  cancel : option nat;
  pool : list Buffer
}.

(** A goroutine started by [StartTimerD], by the statement it is at. *)
Inductive Pc :=
  | pcStart     (* f.running.Store(true) *)
  | pcSetMax    (* f.dur = math.MaxInt64 *)
  | pcSetDur    (* atomic.StoreInt64(&f.dur, dur.Nanoseconds()) *)
  | pcTickers   (* time.NewTicker(...), twice *)
  | pcSelect    (* the outer select *)
  | pcNested    (* the select inside case <-ctick.C *)
  | pcExit.     (* returned *)

(** Its statement, its context [ct] and the [dur] it was started with. *)
Record Proc := { pc : Pc; ct : nat; arg : Duration }.

(** The program's state: the struct, the heap, the contexts made by
    [context.WithCancel] (is [Done()] closed?) and the goroutines. *)
Record System := {
  obj : fastime;
  heap : Heap;
  ctxs : list bool;
  procs : list Proc
}.

Definition withObj (s : System) (f : fastime) (h : Heap) : System :=
  {| obj := f; heap := h; ctxs := ctxs s; procs := procs s |}.

Section Model.

(** The byte runs that [t.AppendFormat(b, layout)] appends to [b], in
    order: Go's formatter, whatever the layout. *)
Variable layoutChunks : Time -> string -> list (list byte).

Definition rendered (tm : Time) (layout : string) : list byte :=
  concat (layoutChunks tm layout).

(** [t.AppendFormat(b, layout)]. *)
Definition AppendFormat (tm : Time) (b : Slice) (layout : string) (h : Heap) : Heap * Slice :=
  foldl appendBytes (h, b) (layoutChunks tm layout).

(** *** Accessors *)

Definition IsDaemonRunning (s : System) : bool := running (obj s).
Definition GetLocation (s : System) : Location := location (obj s).
Definition GetFormat (s : System) : string := format (obj s).
Definition Now (s : System) : option Time := t (obj s).
Definition UnixNow (s : System) : Z := ut (obj s).
Definition UnixUNow (s : System) : Z := uut (obj s).
Definition UnixNanoNow (s : System) : Z := unt (obj s).
Definition UnixUNanoNow (s : System) : Z := uunt (obj s).
Definition FormattedNow (s : System) : option Slice := ft (obj s).

(** What a caller of [FormattedNow] reads in the slice it got. *)
Definition FormattedBytes (s : System) : option (list byte) :=
  readSlice (heap s) <$> FormattedNow s.

(** *** The pool *)

(** What [sync.Pool] does at a [Get]: it hands out the buffer it holds at
    some place, or it has none to give ([None], or a place past the end)
    and calls [New].  It may drop what it holds at any time, so [New] can
    be called whatever was put. *)
Definition lastPut : option nat := Some 0%nat.
Definition fromNew : option nat := None.

(** [f.pool.Get()], asserted to be a buffer pointer.  A buffer from [New]
    has the length of the format at that moment as its capacity. *)
Definition poolGet (pick : option nat) (s : System) : Buffer * list Buffer * Heap :=
  match i ← pick; b ← pool (obj s) !! i; Some (b, delete i (pool (obj s))) with
  | Some (b, rest) => (b, rest, heap s)
  | None =>
    let (h, sl) := make (String.length (GetFormat s)) (heap s) in
    (NewBuffer sl, pool (obj s), h)
  end.

(** *** [store], [refresh], [update] *)

(** The buffer [store] formats into: taken from the pool and grown when
    the format is longer than its capacity.  ([buf == nil] never holds:
    [New] is set and only [*bytes.Buffer] values are put.) *)
Definition storeBuffer (pick : option nat) (s : System) : Heap * Buffer * list Buffer :=
  let '(b, rest, h) := poolGet pick s in
  let form := GetFormat s in
  if decide (Cap b < String.length form)%nat
  then (Grow (String.length form) (h, b), rest)
  else (h, b, rest).

Definition store (tm : Time) (pick : option nat) (s : System) : System :=
  let f := obj s in
  let ut' := Unix tm in
  let unt' := UnixNano tm in
  let '(h, b, rest) := storeBuffer pick s in
  let (h', out) := AppendFormat tm (sliceTo (Bytes b) 0) (GetFormat s) h in
  withObj s
    {| uut := castUint32 ut'; uunt := castUint32 unt'; dur := dur f;
       ut := ut'; unt := unt'; correctionDur := correctionDur f;
       running := running f; t := Some tm; ft := Some out;
       format := format f; location := location f; cancel := cancel f;
       pool := b :: rest |}
    h'.

(** Modelled from the spec: the helper [now()] that [refresh] calls is not
    in [fastime.go].  The spec calls a refresh "a real clock read" and the
    published instant a "timestamp with a location/timezone binding" that
    follows [SetLocation]: the clock's reading [c] (nanoseconds since the
    epoch), shown in the current location. *)
Definition now (c : Z) (s : System) : Time := clockTime c (GetLocation s).

Definition refresh (c : Z) (pick : option nat) (s : System) : System :=
  store (now c s) pick s.

(** [Now()] panics on an [atomic.Value] nothing was stored in: [None]. *)
Definition update (pick : option nat) (s : System) : option System :=
  tm ← Now s; Some (store (Add tm (dur (obj s))) pick s).

(** *** Field stores *)

Definition setRunning (r : bool) (f : fastime) : fastime :=
  {| uut := uut f; uunt := uunt f; dur := dur f; ut := ut f; unt := unt f;
     correctionDur := correctionDur f; running := r; t := t f; ft := ft f;
     format := format f; location := location f; cancel := cancel f;
     pool := pool f |}.

Definition setDur (d : Z) (f : fastime) : fastime :=
  {| uut := uut f; uunt := uunt f; dur := d; ut := ut f; unt := unt f;
     correctionDur := correctionDur f; running := running f; t := t f;
     ft := ft f; format := format f; location := location f;
     cancel := cancel f; pool := pool f |}.

Definition setFormat (form : string) (f : fastime) : fastime :=
  {| uut := uut f; uunt := uunt f; dur := dur f; ut := ut f; unt := unt f;
     correctionDur := correctionDur f; running := running f; t := t f;
     ft := ft f; format := form; location := location f;
     cancel := cancel f; pool := pool f |}.

Definition setLocation (l : Location) (f : fastime) : fastime :=
  {| uut := uut f; uunt := uunt f; dur := dur f; ut := ut f; unt := unt f;
     correctionDur := correctionDur f; running := running f; t := t f;
     ft := ft f; format := format f; location := l;
     cancel := cancel f; pool := pool f |}.

Definition setCancel (c : option nat) (f : fastime) : fastime :=
  {| uut := uut f; uunt := uunt f; dur := dur f; ut := ut f; unt := unt f;
     correctionDur := correctionDur f; running := running f; t := t f;
     ft := ft f; format := format f; location := location f;
     cancel := c; pool := pool f |}.

(** *** The constructor and the public methods *)

(** [newFastime()]: the struct literal, the pool, the first (empty)
    formatted slice, then a refresh.  [local] is [time.Local]. *)
Definition newFastime (local : Location) (c : Z) (pick : option nat) : System :=
  let f0 :=
    {| uut := MaxUint32; uunt := MaxUint32; dur := 0; ut := MaxInt64;
       unt := MaxInt64; correctionDur := 100 * Millisecond; running := false;
       t := None; ft := None; format := RFC3339; location := local;
       cancel := None; pool := [] |} in
  let s0 := {| obj := f0; heap := []; ctxs := []; procs := [] |} in
  let '(b, rest, h) := poolGet fromNew s0 in
  let b' := Reset b in
  let s1 :=
    withObj s0
      {| uut := uut f0; uunt := uunt f0; dur := dur f0; ut := ut f0;
         unt := unt f0; correctionDur := correctionDur f0;
         running := running f0; t := t f0; ft := Some (Bytes b');
         format := format f0; location := location f0; cancel := cancel f0;
         pool := b' :: rest |}
      h in
  refresh c pick s1.

Definition SetLocation (l : Location) (c : Z) (pick : option nat) (s : System) : System :=
  refresh c pick (withObj s (setLocation l (obj s)) (heap s)).

Definition SetFormat (form : string) (c : Z) (pick : option nat) (s : System) : System :=
  refresh c pick (withObj s (setFormat form (obj s)) (heap s)).

(** [Stop()].  [None]: the call of a [nil] [f.cancel] panics. *)
Definition Stop (s : System) : option System :=
  if IsDaemonRunning s then
    match cancel (obj s) with
    | None => None
    | Some c =>
      Some {| obj := setDur 0 (obj s); heap := heap s;
              ctxs := <[c := true]> (ctxs s); procs := procs s |}
    end
  else Some s.

(** [StartTimerD(ctx, dur)] up to its [return]: the goroutine is created
    at its first statement.  [parentDone]: [ctx] is already cancelled. *)
Definition StartTimerD (parentDone : bool) (d : Duration) (c : Z) (pick : option nat)
    (s : System) : option System :=
  s1 ← (if IsDaemonRunning s then Stop s else Some s);
  let s2 := refresh c pick s1 in
  let id := length (ctxs s2) in
  Some {| obj := setCancel (Some id) (obj s2); heap := heap s2;
          ctxs := ctxs s2 ++ [parentDone];
          procs := procs s2 ++ [{| pc := pcStart; ct := id; arg := d |}] |}.

(** *** The goroutine of [StartTimerD] *)

(** What a goroutine does next: its next statement before the loop, or
    the [select] case that fires. *)
Inductive Event :=
  | evNext                                       (* the next startup statement *)
  | evDone                                       (* case <-ct.Done() *)
  | evTick (pick : option nat)                   (* outer case <-ticker.C *)
  | evCtick                                      (* case <-ctick.C *)
  | evTickRefresh (c : Z) (pick : option nat).   (* inner case <-ticker.C *)

Definition onObj (g : fastime -> fastime) (s : System) : System :=
  withObj s (g (obj s)) (heap s).

Definition isDone (i : nat) (s : System) : bool := default false (ctxs s !! i).

(** One step of the goroutine [p].  [None]: the event cannot fire at this
    statement, or the statement panics ([time.NewTicker] on an interval
    that is not positive). *)
Definition procStep (e : Event) (p : Proc) (s : System) : option (Pc * System) :=
  match pc p, e with
  | pcStart, evNext => Some (pcSetMax, onObj (setRunning true) s)
  | pcSetMax, evNext => Some (pcSetDur, onObj (setDur MaxInt64) s)
  | pcSetDur, evNext => Some (pcTickers, onObj (setDur (arg p)) s)
  | pcTickers, evNext =>
    if decide (0 < dur (obj s) /\ 0 < correctionDur (obj s))
    then Some (pcSelect, s) else None
  | pcSelect, evDone | pcNested, evDone =>
    if isDone (ct p) s then Some (pcExit, onObj (setRunning false) s) else None
  | pcSelect, evTick pick => s' ← update pick s; Some (pcSelect, s')
  | pcSelect, evCtick => Some (pcNested, s)
  | pcNested, evTickRefresh c pick => Some (pcSelect, refresh c pick s)
  | _, _ => None
  end.

Definition setPc (g : nat) (p : Proc) (q : Pc) (s : System) : System :=
  {| obj := obj s; heap := heap s; ctxs := ctxs s;
     procs := <[g := {| pc := q; ct := ct p; arg := arg p |}]> (procs s) |}.

Definition goStep (g : nat) (e : Event) (s : System) : option System :=
  p ← procs s !! g;
  r ← procStep e p s;
  Some (setPc g p r.1 r.2).

(** *** Runs *)

(** What can happen next: a call of a public method by some caller, the
    cancellation of a context from outside (through the parent handed to
    [StartTimerD]), or a step of a goroutine.  A call and a [select] case
    are one transition each here: these runs are the executions in which
    calls and goroutine steps do not overlap.  The statements inside them,
    and the runs in which statements of different threads interleave, are
    in the part on statements and threads below. *)
Inductive Label :=
  | CallSetFormat (form : string) (c : Z) (pick : option nat)
  | CallSetLocation (l : Location) (c : Z) (pick : option nat)
  | CallStop
  | CallStartTimerD (parentDone : bool) (d : Duration) (c : Z) (pick : option nat)
  | CancelCtx (i : nat)
  | Go (g : nat) (e : Event).

Definition step (l : Label) (s : System) : option System :=
  match l with
  | CallSetFormat form c pick => Some (SetFormat form c pick s)
  | CallSetLocation l c pick => Some (SetLocation l c pick s)
  | CallStop => Stop s
  | CallStartTimerD pd d c pick => StartTimerD pd d c pick s
  | CancelCtx i =>
    Some {| obj := obj s; heap := heap s; ctxs := <[i := true]> (ctxs s);
            procs := procs s |}
  | Go g e => goStep g e s
  end.

Fixpoint run (ls : list Label) (s : System) : option System :=
  match ls with
  | [] => Some s
  | l :: r => s' ← step l s; run r s'
  end.

(** ** Well-formed memory *)

(** A slice that points into an allocated array and stays inside it. *)
Definition wfSlice (h : Heap) (s : Slice) : Prop :=
  exists a, h !! arr s = Some a /\ (off s + cap s <= length a)%nat /\ (len s <= cap s)%nat.

(** A pooled buffer as this program leaves it: nothing written through the
    buffer's own methods, the whole array as capacity. *)
Definition wfBuffer (h : Heap) (b : Buffer) : Prop :=
  boff b = 0%nat /\ off (buf b) = 0%nat /\ len (buf b) = 0%nat /\
  exists a, h !! arr (buf b) = Some a /\ length a = cap (buf b).

(** [h'] has every array of [h], with the same length. *)
Definition heapExt (h h' : Heap) : Prop :=
  forall i a, h !! i = Some a -> exists a', h' !! i = Some a' /\ length a' = length a.

(** ** Invariants of the reachable states *)

(** The snapshot fields all come from one instant, and the published slice
    reads as that instant in the current format. *)
Definition consistent (s : System) : Prop :=
  exists tm, Now s = Some tm /\ validTime tm /\
    UnixNow s = Unix tm /\ UnixNanoNow s = UnixNano tm /\
    UnixUNow s = castUint32 (Unix tm) /\
    UnixUNanoNow s = castUint32 (UnixNano tm) /\
    FormattedBytes s = Some (rendered tm (GetFormat s)).

(** Goroutine [g] waits on context [g]; a running daemon has a goroutine,
    and once there is one, [f.cancel] is set to a context that exists. *)
Definition engineOk (s : System) : Prop :=
  length (ctxs s) = length (procs s) /\
  (forall g p, procs s !! g = Some p -> ct p = g) /\
  (IsDaemonRunning s = true -> procs s <> []) /\
  (procs s <> [] ->
   exists c, cancel (obj s) = Some c /\ (c < length (procs s))%nat).

Definition inv (s : System) : Prop :=
  consistent s /\ Forall (wfBuffer (heap s)) (pool (obj s)) /\ engineOk s.

(** What [store] leaves alone. *)
Definition sameEngine (s s' : System) : Prop :=
  running (obj s') = running (obj s) /\ dur (obj s') = dur (obj s) /\
  correctionDur (obj s') = correctionDur (obj s) /\
  format (obj s') = format (obj s) /\ location (obj s') = location (obj s) /\
  cancel (obj s') = cancel (obj s) /\ ctxs s' = ctxs s /\ procs s' = procs s.

(** The instant and its integer forms, as the accessors return them. *)
Definition timeValues (s : System) : option Time * Z * Z * Z * Z :=
  (Now s, UnixNow s, UnixNanoNow s, UnixUNow s, UnixUNanoNow s).

(** A step that touches neither the snapshot, the format, the pool nor
    the heap. *)
Definition sameSnapshot (s s' : System) : Prop :=
  t (obj s') = t (obj s) /\ ut (obj s') = ut (obj s) /\
  unt (obj s') = unt (obj s) /\ uut (obj s') = uut (obj s) /\
  uunt (obj s') = uunt (obj s) /\ ft (obj s') = ft (obj s) /\
  format (obj s') = format (obj s) /\ pool (obj s') = pool (obj s) /\
  heap s' = heap s.

(** All six published fields. *)
Definition snapshot (s : System) : option Time * Z * Z * Z * Z * option Slice :=
  (timeValues s, FormattedNow s).

(** ** Scenarios *)

(** 2023-11-14T22:13:20Z, in nanoseconds since the epoch. *)
Definition T0 : Z := 1700000000 * Second.

(** A caller sets a format and starts the daemon with a 500ms tick; the
    goroutine starts up, takes a tick, then a correction tick with a
    refresh. *)
Definition timerTrace : list Label :=
  [CallSetFormat "2006-01-02 15:04:05" (T0 + Second) lastPut;
   CallStartTimerD false (500 * Millisecond) (T0 + 2 * Second) lastPut;
   Go 0 evNext; Go 0 evNext; Go 0 evNext; Go 0 evNext;
   Go 0 (evTick lastPut); Go 0 evCtick;
   Go 0 (evTickRefresh (T0 + 3 * Second + 17) lastPut)].

(** The daemon is started and has reached its loop. *)
Definition startedTrace : list Label :=
  [CallStartTimerD false (500 * Millisecond) (T0 + Second) lastPut;
   Go 0 evNext; Go 0 evNext; Go 0 evNext; Go 0 evNext].


(** The format is the seconds without padding; the clock reads
    22:13:40. *)
Definition secondsTrace : list Label :=
  [CallSetFormat "5" (T0 + 20 * Second) lastPut].

(** A 40ms tick.  The refresh of the tick due at 120ms reads the clock
    late, at 165ms, while the tick due at 160ms is already waiting in the
    ticker's channel; that tick then extrapolates to 205ms, and the next
    correction is about to read the clock at 200.1ms. *)
Definition driftTrace : list Label :=
  [CallStartTimerD false (40 * Millisecond) T0 lastPut;
   Go 0 evNext; Go 0 evNext; Go 0 evNext; Go 0 evNext;
   Go 0 (evTick lastPut); Go 0 (evTick lastPut); Go 0 evCtick;
   Go 0 (evTickRefresh (T0 + 165 * Millisecond) lastPut);
   Go 0 (evTick lastPut); Go 0 evCtick].

(** The clock readings a run takes, in order. *)
Definition clockReadings (ls : list Label) : list Z :=
  omap (fun l =>
    match l with
    | CallSetFormat _ c _ | CallSetLocation _ c _ | CallStartTimerD _ _ c _
    | Go _ (evTickRefresh c _) => Some c
    | _ => None
    end) ls.

Fixpoint nondecreasing (cs : list Z) : bool :=
  match cs with
  | c1 :: ((c2 :: _) as r) => (c1 <=? c2) && nondecreasing r
  | _ => true
  end.

(** The format is a clock, the daemon ticks every second and the
    published instant is 22:59:59. *)
Definition clockTrace : list Label :=
  [CallSetFormat "15:04:05" (T0 + 2799 * Second) lastPut;
   CallStartTimerD false Second (T0 + 2799 * Second + 5 * Millisecond) lastPut;
   Go 0 evNext; Go 0 evNext; Go 0 evNext; Go 0 evNext].

(** ** Further scenarios *)

(** [StartTimerD] has returned and its goroutine has not run yet. *)
Definition launchTrace : list Label :=
  [CallStartTimerD false (500 * Millisecond) (T0 + Second) lastPut].

(** The goroutine has stored its interval and is about to make its
    tickers. *)
Definition intervalTrace : list Label :=
  launchTrace ++ [Go 0 evNext; Go 0 evNext; Go 0 evNext].

(** The daemon is started a second time: [StartTimerD] has stopped the
    first daemon, whose goroutine has not yet looked at its context, and
    the new goroutine has set the flag and is between its two writes of the
    interval. *)
Definition restartingTrace : list Label :=
  startedTrace ++
  [CallStartTimerD false (200 * Millisecond) (T0 + 2 * Second) lastPut;
   Go 1 evNext].

(** The same, with the second goroutine in its loop. *)
Definition restartTrace : list Label :=
  restartingTrace ++ [Go 1 evNext; Go 1 evNext; Go 1 evNext].

(** The pool had dropped its buffer when [SetFormat] ran: there are two
    arrays, the constructor's and the one [New] made. *)
Definition twoBuffersTrace : list Label :=
  [CallSetFormat "15:04:05" (T0 + Second) fromNew].


(** A goroutine that has set the flag and has not returned. *)
Definition started (p : Proc) : bool :=
  match pc p with
  | pcStart | pcExit => false
  | _ => true
  end.

(** ** Statements and threads *)

(** Nothing in [fastime.go] takes a lock: a call of a public method and a
    step of a goroutine are sequences of statements, and the statements of
    different threads interleave.  This part models the program at that
    grain.  A thread is the list of the statements it still has to run; a
    statement carries the locals it uses.  Line numbers are those of
    [fastime.go]. *)
Inductive Instr :=
  | iStoreT (tm : Time)                        (* 101: f.t.Store(t) *)
  | iStoreUt (x : Z)                           (* 104: StoreInt64(&f.ut, ut) *)
  | iStoreUnt (x : Z)                          (* 105: StoreInt64(&f.unt, unt) *)
  | iStoreUut (x : Z)                          (* 106: StoreUint32(&f.uut, cast of ut) *)
  | iStoreUunt (x : Z)                         (* 107: StoreUint32(&f.uunt, cast of unt) *)
  | iGetFormat (tm : Time)                     (* 108: form := f.GetFormat() *)
  | iPoolGet (tm : Time) (form : string)       (* 109: buf := f.pool.Get() *)
  | iGrow (tm : Time) (form : string) (b : Buffer)   (* 110-112: if ... buf.Grow(len(form)) *)
  | iAppend (b : Buffer) (out : Slice) (chunks : list (list byte))
                                               (* 113: the appends of t.AppendFormat *)
  | iStoreFt (b : Buffer) (out : Slice)        (* 113: f.ft.Store(...) *)
  | iPoolPut (b : Buffer)                      (* 114: f.pool.Put(buf) *)
  | iNow                                       (* 97: f.now() *)
  | iLoadNow                                   (* 93: f.Now() *)
  | iLoadDur (tm : Time)                       (* 93: atomic.LoadInt64(&f.dur) *)
  | iSetFormat (form : string)                 (* 139: f.format.Store(format) *)
  | iSetLocation (l : Location)                (* 132: f.location.Store(location) *)
  | iStopCheck                                 (* 151: if f.IsDaemonRunning() *)
  | iCancel                                    (* 152: f.cancel() *)
  | iStoreDur (d : Z)                          (* 153, 194, 195: the writes of f.dur *)
  | iStartCheck                                (* 185: if f.IsDaemonRunning() *)
  | iWithCancel (ctx : option bool) (d : Duration)
                                               (* 192: ct, f.cancel = context.WithCancel(ctx) *)
  | iGo (ct : nat) (d : Duration)              (* 193: go func() *)
  | iSetRunning (r : bool)                     (* 193, 201, 210: f.running.Store(r) *)
  | iNewTicker                                 (* 196: time.NewTicker(LoadInt64(&f.dur)) *)
  | iNewCtick                                  (* 197: time.NewTicker(f.correctionDur) *)
  | iLoop (ct : nat)                           (* 198-218: for, select *)
  | iNested (ct : nat).                        (* 208-216: the inner select *)

(** What a statement takes from outside: the buffer [sync.Pool] hands out,
    the reading of the clock, the case a [select] takes. *)
Inductive Choice :=
  | chNone
  | chPick (pick : option nat)
  | chClock (c : Z)
  | chDone
  | chTick
  | chCtick.

Definition setT (x : option Time) (f : fastime) : fastime :=
  {| uut := uut f; uunt := uunt f; dur := dur f; ut := ut f; unt := unt f;
     correctionDur := correctionDur f; running := running f; t := x; ft := ft f;
     format := format f; location := location f; cancel := cancel f;
     pool := pool f |}.

Definition setUt (x : Z) (f : fastime) : fastime :=
  {| uut := uut f; uunt := uunt f; dur := dur f; ut := x; unt := unt f;
     correctionDur := correctionDur f; running := running f; t := t f; ft := ft f;
     format := format f; location := location f; cancel := cancel f;
     pool := pool f |}.

Definition setUnt (x : Z) (f : fastime) : fastime :=
  {| uut := uut f; uunt := uunt f; dur := dur f; ut := ut f; unt := x;
     correctionDur := correctionDur f; running := running f; t := t f; ft := ft f;
     format := format f; location := location f; cancel := cancel f;
     pool := pool f |}.

Definition setUut (x : Z) (f : fastime) : fastime :=
  {| uut := x; uunt := uunt f; dur := dur f; ut := ut f; unt := unt f;
     correctionDur := correctionDur f; running := running f; t := t f; ft := ft f;
     format := format f; location := location f; cancel := cancel f;
     pool := pool f |}.

Definition setUunt (x : Z) (f : fastime) : fastime :=
  {| uut := uut f; uunt := x; dur := dur f; ut := ut f; unt := unt f;
     correctionDur := correctionDur f; running := running f; t := t f; ft := ft f;
     format := format f; location := location f; cancel := cancel f;
     pool := pool f |}.

Definition setFt (x : option Slice) (f : fastime) : fastime :=
  {| uut := uut f; uunt := uunt f; dur := dur f; ut := ut f; unt := unt f;
     correctionDur := correctionDur f; running := running f; t := t f; ft := x;
     format := format f; location := location f; cancel := cancel f;
     pool := pool f |}.

Definition setPool (p : list Buffer) (f : fastime) : fastime :=
  {| uut := uut f; uunt := uunt f; dur := dur f; ut := ut f; unt := unt f;
     correctionDur := correctionDur f; running := running f; t := t f; ft := ft f;
     format := format f; location := location f; cancel := cancel f;
     pool := p |}.

(** [store(t)], lines 101 to 108; lines 102 and 103 compute the locals
    [ut] and [unt] that the next four statements use. *)
Definition storeCode (tm : Time) : list Instr :=
  [iStoreT tm; iStoreUt (Unix tm); iStoreUnt (UnixNano tm);
   iStoreUut (Unix tm); iStoreUunt (UnixNano tm); iGetFormat tm].

(** The goroutine of [StartTimerD], lines 193 to 218. *)
Definition goroutine (ct : nat) (d : Duration) : list Instr :=
  [iSetRunning true; iStoreDur MaxInt64; iStoreDur d; iNewTicker; iNewCtick; iLoop ct].

Definition cancelCtx (c : nat) (s : System) : System :=
  {| obj := obj s; heap := heap s; ctxs := <[c := true]> (ctxs s); procs := procs s |}.

(** One statement: the new shared state, the statements that take its
    place in the thread, and the goroutines it starts.  [None]: the
    statement panics ([Now()] on an empty value, a [nil] [f.cancel], a
    [nil] context, [time.NewTicker] on an interval that is not positive),
    or the choice is not one the statement takes, or the [select] case is
    not ready.  [Unix], [UnixNano], [Add] and the cast are computed by the
    thread; only the loads and stores touch the shared state. *)
Definition exec (ins : Instr) (ch : Choice) (s : System)
    : option (System * list Instr * list (list Instr)) :=
  match ins, ch with
  | iStoreT tm, chNone => Some (onObj (setT (Some tm)) s, [], [])
  | iStoreUt x, chNone => Some (onObj (setUt x) s, [], [])
  | iStoreUnt x, chNone => Some (onObj (setUnt x) s, [], [])
  | iStoreUut x, chNone => Some (onObj (setUut (castUint32 x)) s, [], [])
  | iStoreUunt x, chNone => Some (onObj (setUunt (castUint32 x)) s, [], [])
  | iGetFormat tm, chNone => Some (s, [iPoolGet tm (GetFormat s)], [])
  | iPoolGet tm form, chPick pick =>
    let '(b, rest, h) := poolGet pick s in
    Some (withObj s (setPool rest (obj s)) h, [iGrow tm form b], [])
  | iGrow tm form b, chNone =>
    let (h, b') :=
      if decide (Cap b < String.length form)%nat
      then Grow (String.length form) (heap s, b) else (heap s, b) in
    Some (withObj s (obj s) h,
          [iAppend b' (sliceTo (Bytes b') 0) (layoutChunks tm form)], [])
  | iAppend b out (x :: xs), chNone =>
    let (h, out') := appendBytes (heap s, out) x in
    Some (withObj s (obj s) h, [iAppend b out' xs], [])
  | iAppend b out [], chNone => Some (withObj s (obj s) (heap s), [iStoreFt b out], [])
  | iStoreFt b out, chNone => Some (onObj (setFt (Some out)) s, [iPoolPut b], [])
  | iPoolPut b, chNone => Some (onObj (setPool (b :: pool (obj s))) s, [], [])
  | iNow, chClock c => Some (s, storeCode (now c s), [])
  | iLoadNow, chNone => tm ← Now s; Some (s, [iLoadDur tm], [])
  | iLoadDur tm, chNone => Some (s, storeCode (Add tm (dur (obj s))), [])
  | iSetFormat form, chNone => Some (onObj (setFormat form) s, [], [])
  | iSetLocation l, chNone => Some (onObj (setLocation l) s, [], [])
  | iStopCheck, chNone =>
    Some (s, if IsDaemonRunning s then [iCancel; iStoreDur 0] else [], [])
  | iCancel, chNone => c ← cancel (obj s); Some (cancelCtx c s, [], [])
  | iStoreDur d, chNone => Some (onObj (setDur d) s, [], [])
  | iStartCheck, chNone => Some (s, if IsDaemonRunning s then [iStopCheck] else [], [])
  | iWithCancel (Some parentDone) d, chNone =>
    let id := length (ctxs s) in
    Some ({| obj := setCancel (Some id) (obj s); heap := heap s;
             ctxs := ctxs s ++ [parentDone]; procs := procs s |},
          [iGo id d], [])
  | iGo ct d, chNone => Some (s, [], [goroutine ct d])
  | iSetRunning r, chNone => Some (onObj (setRunning r) s, [], [])
  | iNewTicker, chNone => if decide (0 < dur (obj s)) then Some (s, [], []) else None
  | iNewCtick, chNone =>
    if decide (0 < correctionDur (obj s)) then Some (s, [], []) else None
  | iLoop ct, chDone | iNested ct, chDone =>
    if isDone ct s then Some (s, [iSetRunning false], []) else None
  | iLoop ct, chTick => Some (s, [iLoadNow; iLoop ct], [])
  | iLoop ct, chCtick => Some (s, [iNested ct], [])
  | iNested ct, chTick => Some (s, [iNow; iLoop ct], [])
  | _, _ => None
  end.

(** The public methods that write. *)
Inductive Op :=
  | opSetFormat (form : string)
  | opSetLocation (l : Location)
  | opStop
  | opStartTimerD (ctx : option bool) (d : Duration).

(** Their bodies.  The context handed to [StartTimerD] is [nil] ([None]),
    or a context whose [Done()] is closed already or not. *)
Definition opCode (op : Op) : list Instr :=
  match op with
  | opSetFormat form => [iSetFormat form; iNow]
  | opSetLocation l => [iSetLocation l; iNow]
  | opStop => [iStopCheck]
  | opStartTimerD ctx d => [iStartCheck; iNow; iWithCancel ctx d]
  end.

(** The shared state ([procs] is not used here: the goroutines are among
    the threads) and every thread, callers and goroutines alike, in the
    order they started.  A thread with nothing left has returned. *)
Record MState := { shared : System; threads : list (list Instr) }.

(** A caller enters a method, a thread runs its next statement, or a
    context is cancelled from outside. *)
Inductive MLabel :=
  | MCall (op : Op)
  | MStep (i : nat) (ch : Choice)
  | MCancel (c : nat).

Definition mstep (l : MLabel) (m : MState) : option MState :=
  match l with
  | MCall op => Some {| shared := shared m; threads := threads m ++ [opCode op] |}
  | MStep i ch =>
    code ← threads m !! i;
    match code with
    | [] => None
    | ins :: rest =>
      r ← exec ins ch (shared m);
      Some {| shared := r.1.1; threads := <[i := r.1.2 ++ rest]> (threads m) ++ r.2 |}
    end
  | MCancel c => Some {| shared := cancelCtx c (shared m); threads := threads m |}
  end.

Fixpoint mrun (ls : list MLabel) (m : MState) : option MState :=
  match ls with
  | [] => Some m
  | l :: r => m' ← mstep l m; mrun r m'
  end.

(** The constructor has returned and nothing else has happened yet. *)
Definition minit (local : Location) (c : Z) (pick : option nat) : MState :=
  {| shared := newFastime local c pick; threads := [] |}.

(** A thread that runs alone: the statements of [code] with the choices
    [chs], one after the other. *)
Fixpoint texec (chs : list Choice) (code : list Instr) (s : System)
    : option (System * list Instr * list (list Instr)) :=
  match chs, code with
  | [], _ => Some (s, code, [])
  | _ :: _, [] => None
  | ch :: chs', ins :: rest =>
    r ← exec ins ch s;
    r' ← texec chs' (r.1.2 ++ rest) r.1.1;
    Some (r'.1.1, r'.1.2, r.2 ++ r'.2)
  end.

(** The steps of thread [i] alone. *)
Definition alone (i : nat) (chs : list Choice) : list MLabel := map (MStep i) chs.

(** The choices of a whole [store] whose [AppendFormat] appends [k] times:
    six loads and stores, the [Get], the [Grow], the appends and the
    return of [AppendFormat], the store of the slice and the [Put]. *)
Definition storeChoices (pick : option nat) (k : nat) : list Choice :=
  replicate 6 chNone ++ [chPick pick; chNone] ++ replicate (S k) chNone ++ [chNone; chNone].

(** [refresh()], [update()], a setter, and the tick cases of the two
    selects. *)
Definition refreshChoices (c : Z) (pick : option nat) (k : nat) : list Choice :=
  chClock c :: storeChoices pick k.
Definition updateChoices (pick : option nat) (k : nat) : list Choice :=
  chNone :: chNone :: storeChoices pick k.
Definition setterChoices (c : Z) (pick : option nat) (k : nat) : list Choice :=
  chNone :: refreshChoices c pick k.
Definition tickChoices (pick : option nat) (k : nat) : list Choice :=
  chTick :: updateChoices pick k.
Definition correctionChoices (c : Z) (pick : option nat) (k : nat) : list Choice :=
  chTick :: refreshChoices c pick k.

(** [StartTimerD]: the check (with the statements of [Stop()] when the
    flag is set), the refresh, [WithCancel] and [go]. *)
Definition startChoices (isRunning : bool) (c : Z) (pick : option nat) (k : nat)
    : list Choice :=
  (if isRunning then [chNone; chNone; chNone; chNone] else [chNone]) ++
  refreshChoices c pick k ++ [chNone; chNone].

(** The five statements of a goroutine before its loop. *)
Definition startupChoices : list Choice := replicate 5 chNone.

(** The statements of [store], lines 101 to 114, and the store of the
    format, line 139. *)
Definition storeStatement (ins : Instr) : bool :=
  match ins with
  | iStoreT _ | iStoreUt _ | iStoreUnt _ | iStoreUut _ | iStoreUunt _
  | iGetFormat _ | iPoolGet _ _ | iGrow _ _ _ | iAppend _ _ _
  | iStoreFt _ _ | iPoolPut _ => true
  | _ => false
  end.

Definition formatStore (ins : Instr) : bool :=
  match ins with
  | iSetFormat _ => true
  | _ => false
  end.

(** The step [l] runs no statement of a [store] and does not store the
    format. *)
Definition outsideStore (l : MLabel) (m : MState) : Prop :=
  forall i ch ins rest,
    l = MStep i ch -> threads m !! i = Some (ins :: rest) ->
    storeStatement ins = false /\ formatStore ins = false.

(** The step [l] runs no statement of a [store]. *)
Definition noStoreStep (l : MLabel) (m : MState) : Prop :=
  forall i ch ins rest,
    l = MStep i ch -> threads m !! i = Some (ins :: rest) -> storeStatement ins = false.

(** *** What every interleaving keeps *)

(** The locals of a statement that is still to run: a buffer taken from
    the pool is a whole array, the slice being appended to lies in one, an
    instant is well formed, and [f.cancel] is set where the statement is
    reached only after [WithCancel]. *)
Definition instrOk (s : System) (ins : Instr) : Prop :=
  match ins with
  | iStoreT tm | iLoadDur tm => validTime tm
  | iGrow _ _ b | iStoreFt b _ | iPoolPut b => wfBuffer (heap s) b
  | iAppend b out _ => wfBuffer (heap s) b /\ wfSlice (heap s) out
  | iCancel | iGo _ _ | iSetRunning true => is_Some (cancel (obj s))
  | _ => True
  end.

Definition sharedOk (s : System) : Prop :=
  Forall (wfBuffer (heap s)) (pool (obj s)) /\
  (exists tm, Now s = Some tm /\ validTime tm) /\
  (IsDaemonRunning s = true -> is_Some (cancel (obj s))) /\
  (forall c, cancel (obj s) = Some c -> (c < length (ctxs s))%nat).

Definition minv (m : MState) : Prop :=
  sharedOk (shared m) /\ Forall (Forall (instrOk (shared m))) (threads m).

(** Arrays are never freed or resized and [f.cancel] is never reset. *)
Definition grows (s s' : System) : Prop :=
  heapExt (heap s) (heap s') /\
  (is_Some (cancel (obj s)) -> is_Some (cancel (obj s'))).

(** *** Schedules *)

(** The appends [AppendFormat] makes in the evaluated runs. *)
Definition appends (tm : Time) (layout : string) : nat := length (goChunks tm layout).

(** A caller (thread 0) starts the daemon with a 500ms tick and runs
    alone, reading the clock at [T0 + 1s]; then the goroutine (thread 1)
    runs alone up to its loop. *)
Definition mStarted : list MLabel :=
  MCall (opStartTimerD (Some false) (500 * Millisecond)) ::
  alone 0 (startChoices false (T0 + Second) lastPut
             (appends (clockTime (T0 + Second) UTC) RFC3339)) ++
  alone 1 startupChoices.

(** The instant of the first tick after [mStarted], and the clock reading
    of the caller that comes next (thread 2). *)
Definition tTick : Time := Add (clockTime (T0 + Second) UTC) (500 * Millisecond).
Definition cCall : Z := T0 + 2 * Second.
Definition tCall : Time := clockTime cCall UTC.

(** The statements of the first tick when its [store] loads the format
    [form], and those of a [SetFormat("15:04:05")]. *)
Definition tickOf (form : string) : list Choice := tickChoices lastPut (appends tTick form).
Definition setterOf : list Choice := setterChoices cCall lastPut (appends tCall "15:04:05").

(** The goroutine takes the tick case and runs the first [n] statements of
    its [update]; a caller runs a whole [SetFormat("15:04:05")]; the
    goroutine runs the rest. *)
Definition overlapSchedule (n : nat) : list MLabel :=
  mStarted ++ alone 1 (take n (tickOf "15:04:05")) ++
  MCall (opSetFormat "15:04:05") :: alone 2 setterOf ++
  alone 1 (drop n (tickOf "15:04:05")).

(** The tick's [store] has stored the instant when the caller comes: the
    loads of [update] and line 101 come first. *)
Definition tornSchedule : list MLabel := overlapSchedule 4.

(** The same, with line 104 as well. *)
Definition compactSchedule : list MLabel := overlapSchedule 5.

(** The goroutine is inside its [store], line 101 done, and a caller has
    entered [SetFormat("15:04:05")], stored the format and read the
    clock: its [store] is what it runs next. *)
Definition midStoreSchedule : list MLabel :=
  mStarted ++ alone 1 (take 4 (tickOf "15:04:05")) ++
  MCall (opSetFormat "15:04:05") :: alone 2 [chNone; chClock cCall].

(** The goroutine is inside its [store], line 101 done. *)
Definition midTickSchedule : list MLabel :=
  mStarted ++ alone 1 (take 4 (tickOf "15:04:05")).

(** The tick's [store] loads the format and renders; the caller runs
    [SetFormat("15:04:05")] up to its [f.ft.Store]; the goroutine stores
    its slice; the caller puts its buffer back and returns. *)
Definition staleSchedule : list MLabel :=
  mStarted ++
  alone 1 (take (length (tickOf RFC3339) - 2) (tickOf RFC3339)) ++
  MCall (opSetFormat "15:04:05") ::
  alone 2 (take (length setterOf - 1) setterOf) ++
  alone 1 [chNone] ++ alone 2 [chNone].

(** [Stop()] (thread 2) checks the flag and cancels; the goroutine takes
    [Done()] and stores [false]; [Stop()] stores the interval and
    returns. *)
Definition stopRaceSchedule : list MLabel :=
  mStarted ++ MCall opStop :: alone 2 [chNone; chNone] ++
  alone 1 [chDone; chNone] ++ alone 2 [chNone].

(** ** Memory lemmas *)

Local Arguments appendBytes : simpl never.
Local Arguments Grow : simpl never.
Local Arguments make : simpl never.

Section Memory.

Local Open Scope nat_scope.

Lemma heapExt_refl h : heapExt h h.
Proof. intros i a Hi. eauto. Qed.

Lemma heapExt_trans h1 h2 h3 : heapExt h1 h2 -> heapExt h2 h3 -> heapExt h1 h3.
Proof.
  intros H12 H23 i a Hi.
  destruct (H12 i a Hi) as (a2 & Ha2 & Hl2).
  destruct (H23 i a2 Ha2) as (a3 & Ha3 & Hl3).
  exists a3. split; [done | congruence].
Qed.

Lemma heapExt_app h k : heapExt h (h ++ k).
Proof.
  intros i a Hi. exists a. split; [|done].
  rewrite lookup_app_l; [done | by eapply lookup_lt_Some].
Qed.

Lemma heapExt_alter (g : list byte -> list byte) i h :
  (forall a, length (g a) = length a) -> heapExt h (alter g i h).
Proof.
  intros Hg j a Hj. destruct (decide (i = j)) as [->|Hne].
  - exists (g a). rewrite list_lookup_alter, Hj. case_decide; [|done]. eauto.
  - exists a. by rewrite list_lookup_alter_ne.
Qed.

Lemma wfBuffer_ext h h' b : heapExt h h' -> wfBuffer h b -> wfBuffer h' b.
Proof.
  intros Hext (H1 & H2 & H3 & a & Ha & Hl).
  destruct (Hext _ _ Ha) as (a' & Ha' & Hl').
  repeat split; try done. exists a'. split; [done | congruence].
Qed.

Lemma length_writeAt a i x :
  i + length x <= length a -> length (writeAt a i x) = length a.
Proof.
  intros H. unfold writeAt.
  rewrite !length_app, length_take, length_drop. lia.
Qed.

Lemma read_writeAt a o n x :
  o + n + length x <= length a ->
  take (n + length x) (drop o (writeAt a (o + n) x)) = take n (drop o a) ++ x.
Proof.
  intros H. unfold writeAt.
  rewrite drop_app_le by (rewrite length_take; lia).
  rewrite <- take_drop_commute.
  rewrite take_app_add' by (rewrite length_take, length_drop; lia).
  by rewrite take_app_length.
Qed.

(** [append] returns the old bytes followed by the new ones, in a slice
    that is well formed again, and frees or shrinks no array. *)
Lemma appendBytes_spec h s x :
  wfSlice h s ->
  readSlice (appendBytes (h, s) x).1 (appendBytes (h, s) x).2 = readSlice h s ++ x /\
  wfSlice (appendBytes (h, s) x).1 (appendBytes (h, s) x).2 /\
  heapExt h (appendBytes (h, s) x).1.
Proof.
  intros (a & Ha & Hcap & Hlen). unfold appendBytes.
  destruct (decide (len s + length x <= cap s)) as [Hfit|Hover]; simpl.
  - assert (Hw : length (writeAt a (off s + len s) x) = length a)
      by (apply length_writeAt; lia).
    split; [|split].
    + unfold readSlice; simpl. rewrite list_lookup_alter, Ha; simpl.
      case_decide; [|done]. simpl. apply read_writeAt. lia.
    + exists (writeAt a (off s + len s) x). simpl.
      rewrite list_lookup_alter, Ha. case_decide; [|done]. simpl.
      split; [done|]. split; lia.
    + intros j b Hj. destruct (decide (arr s = j)) as [<-|Hne].
      * exists (writeAt a (off s + len s) x).
        rewrite list_lookup_alter, Ha. case_decide; [|done]. simpl.
        split; [done | congruence].
      * exists b. by rewrite list_lookup_alter_ne.
  - assert (Hr : length (readSlice h s) = len s).
    { unfold readSlice. rewrite Ha; simpl. rewrite length_take, length_drop. lia. }
    split; [|split].
    + unfold readSlice at 1; simpl.
      rewrite list_lookup_middle by done. simpl.
      rewrite app_assoc. apply take_app_length'.
      rewrite length_app. lia.
    + eexists. simpl. split; [by apply list_lookup_middle|].
      rewrite !length_app, length_replicate. lia.
    + apply heapExt_app.
Qed.

Lemma foldl_appendBytes_spec (xs : list (list byte)) h s :
  wfSlice h s ->
  readSlice (foldl appendBytes (h, s) xs).1 (foldl appendBytes (h, s) xs).2
    = readSlice h s ++ concat xs /\
  wfSlice (foldl appendBytes (h, s) xs).1 (foldl appendBytes (h, s) xs).2 /\
  heapExt h (foldl appendBytes (h, s) xs).1.
Proof.
  revert h s. induction xs as [|x xs IH]; intros h s Hwf; simpl.
  - rewrite app_nil_r. auto using heapExt_refl.
  - destruct (appendBytes_spec h s x Hwf) as (Hr & Hw & He).
    destruct (appendBytes (h, s) x) as [h1 s1]; simpl in *.
    destruct (IH h1 s1 Hw) as (Hr' & Hw' & He').
    split; [|split]; [|done|by eapply heapExt_trans].
    by rewrite Hr', Hr, <- app_assoc.
Qed.

(** While the output fits, [append] stays in the array it was given. *)
Lemma foldl_appendBytes_in_place (xs : list (list byte)) h s :
  len s + length (concat xs) <= cap s ->
  (foldl appendBytes (h, s) xs).2 =
  {| arr := arr s; off := off s; len := len s + length (concat xs); cap := cap s |}.
Proof.
  revert h s. induction xs as [|x xs IH]; intros h s Hfit; simpl in *.
  - rewrite Nat.add_0_r. by destruct s.
  - rewrite length_app in Hfit. unfold appendBytes at 2.
    destruct (decide (len s + length x <= cap s)); [|lia].
    rewrite IH; simpl; [|lia]. f_equal. rewrite length_app. lia.
Qed.

(** Once the output is longer than the capacity, the result is in an array
    allocated after the call began. *)
Lemma foldl_appendBytes_moved (xs : list (list byte)) h s :
  arr s < length h -> len s <= cap s ->
  cap s < len s + length (concat xs) ->
  length h <= arr (foldl appendBytes (h, s) xs).2.
Proof.
  revert h s. induction xs as [|x xs IH]; intros h s Harr Hlen Hover; simpl in *.
  - lia.
  - rewrite length_app in Hover. unfold appendBytes at 2.
    destruct (decide (len s + length x <= cap s)) as [Hfit|Hnofit].
    + etransitivity; [|apply IH]; simpl; rewrite ?length_alter; lia.
    + destruct (decide (Nat.max (len s + length x) (2 * cap s)
                         < len s + length x + length (concat xs))) as [Hagain|Hdone].
      * etransitivity; [|apply IH]; simpl; rewrite ?length_app; simpl; lia.
      * rewrite foldl_appendBytes_in_place; simpl; lia.
Qed.

Lemma make_spec n h :
  wfBuffer (make n h).1 (NewBuffer (make n h).2) /\ heapExt h (make n h).1 /\
  Cap (NewBuffer (make n h).2) = n.
Proof.
  unfold make, wfBuffer; simpl. repeat split; [|apply heapExt_app].
  eexists. split; [by apply list_lookup_middle|]. by rewrite length_replicate.
Qed.

(** [Grow(n)] on a pooled buffer too small for [n]: a new array of at
    least [n] bytes. *)
Lemma Grow_spec n h b :
  wfBuffer h b -> Cap b < n ->
  wfBuffer (Grow n (h, b)).1 (Grow n (h, b)).2 /\
  heapExt h (Grow n (h, b)).1 /\ n <= Cap (Grow n (h, b)).2.
Proof.
  intros (Hb & Ho & Hl & a & Ha & Hla) Hn. unfold Cap in *. unfold Grow, Len.
  rewrite Hb, Hl.
  destruct (decide (0 - 0 = 0 /\ 0 <> 0)) as [[_ []]|_]; [done|].
  rewrite Hl, Hb.
  destruct (decide (n <= cap (buf b) - 0)); [lia|].
  destruct (decide (n <= cap (buf b) / 2 - (0 - 0))) as [Hhalf|_].
  { pose proof (Nat.Div0.div_le_upper_bound (cap (buf b)) 2 (cap (buf b))). lia. }
  unfold wfBuffer; cbn [fst snd buf boff arr off len cap].
  repeat split; [|apply heapExt_app|lia].
  eexists. split; [by apply list_lookup_middle|].
  rewrite length_app, length_replicate.
  unfold readSlice, Bytes, sliceFrom; cbn [arr off len cap]. rewrite Hl. simpl. lia.
Qed.

End Memory.

(** ** The store operation *)

Lemma poolGet_spec pick s :
  Forall (wfBuffer (heap s)) (pool (obj s)) ->
  wfBuffer (poolGet pick s).2 (poolGet pick s).1.1 /\
  Forall (wfBuffer (poolGet pick s).2) (poolGet pick s).1.2 /\
  heapExt (heap s) (poolGet pick s).2.
Proof.
  intros Hpool. unfold poolGet.
  destruct (pick ≫= _) as [[b rest]|] eqn:Hpick.
  - simpl. destruct pick as [i|]; [|done]. simpl in Hpick.
    destruct (pool (obj s) !! i) as [b'|] eqn:Hi; [|done].
    injection Hpick as <- <-.
    split; [by eapply Forall_lookup_1|].
    split; [by apply Forall_delete | apply heapExt_refl].
  - destruct (make_spec (String.length (GetFormat s)) (heap s)) as (Hb & He & _).
    destruct (make _ _) as [h sl]. simpl in *.
    split; [done|]. split; [|done].
    eapply Forall_impl; [done|]. intros b. by apply wfBuffer_ext.
Qed.

Lemma storeBuffer_spec pick s :
  Forall (wfBuffer (heap s)) (pool (obj s)) ->
  wfBuffer (storeBuffer pick s).1.1 (storeBuffer pick s).1.2 /\
  Forall (wfBuffer (storeBuffer pick s).1.1) (storeBuffer pick s).2 /\
  heapExt (heap s) (storeBuffer pick s).1.1 /\
  (String.length (GetFormat s) <= Cap (storeBuffer pick s).1.2)%nat.
Proof.
  intros Hpool. destruct (poolGet_spec pick s Hpool) as (Hb & Hrest & Hext).
  unfold storeBuffer. destruct (poolGet pick s) as [[b rest] h]; simpl in *.
  destruct (decide (Cap b < String.length (GetFormat s))%nat) as [Hsmall|Hbig].
  - destruct (Grow_spec _ _ _ Hb Hsmall) as (Hb' & Hext' & Hcap).
    destruct (Grow (String.length (GetFormat s)) (h, b)) as [h' b']; simpl in *.
    repeat split; try done; try apply Hb'.
    + eapply Forall_impl; [done|]. intros b0. by apply wfBuffer_ext.
    + by eapply heapExt_trans.
  - simpl. repeat split; try done; try apply Hb. lia.
Qed.

(** [store], with the results of its two calls named by projections. *)
Lemma store_unfold tm pick s :
  store tm pick s =
  let sb := storeBuffer pick s in
  let r := AppendFormat tm (sliceTo (Bytes sb.1.2) 0) (GetFormat s) sb.1.1 in
  withObj s
    {| uut := castUint32 (Unix tm); uunt := castUint32 (UnixNano tm);
       dur := dur (obj s); ut := Unix tm; unt := UnixNano tm;
       correctionDur := correctionDur (obj s); running := running (obj s);
       t := Some tm; ft := Some r.2; format := format (obj s);
       location := location (obj s); cancel := cancel (obj s);
       pool := sb.1.2 :: sb.2 |}
    r.1.
Proof.
  unfold store. destruct (storeBuffer pick s) as [[h b] rest]. simpl.
  by destruct (AppendFormat _ _ _ _).
Qed.

Lemma store_sameEngine tm pick s : sameEngine s (store tm pick s).
Proof. rewrite store_unfold. by repeat split. Qed.

Lemma store_timeValues tm pick s :
  timeValues (store tm pick s) =
  (Some tm, Unix tm, UnixNano tm, castUint32 (Unix tm), castUint32 (UnixNano tm)).
Proof. by rewrite store_unfold. Qed.

Lemma wfBuffer_Bytes h b : wfBuffer h b -> wfSlice h (sliceTo (Bytes b) 0).
Proof.
  intros (Hb & Ho & Hl & a & Ha & Hla). exists a. unfold Bytes; simpl.
  rewrite Hb, Ho. split; [done|]. split; lia.
Qed.

Lemma readSlice_empty h b : readSlice h (sliceTo (Bytes b) 0) = [].
Proof. done. Qed.

(** After [store], the published slice reads as [tm] in the current
    format, and the pool is well formed again. *)
Lemma store_spec tm pick s :
  Forall (wfBuffer (heap s)) (pool (obj s)) ->
  FormattedBytes (store tm pick s) = Some (rendered tm (GetFormat s)) /\
  Forall (wfBuffer (heap (store tm pick s))) (pool (obj (store tm pick s))) /\
  heapExt (heap s) (heap (store tm pick s)).
Proof.
  intros Hpool. destruct (storeBuffer_spec pick s Hpool) as (Hb & Hrest & Hext & _).
  rewrite store_unfold. unfold FormattedBytes, FormattedNow, AppendFormat. simpl.
  destruct (foldl_appendBytes_spec (layoutChunks tm (GetFormat s)) _ _
              (wfBuffer_Bytes _ _ Hb)) as (Hread & _ & Hext').
  rewrite Hread, readSlice_empty. split; [done|]. split.
  - constructor; [by eapply wfBuffer_ext|].
    eapply Forall_impl; [done|]. intros b0. by apply wfBuffer_ext.
  - by eapply heapExt_trans.
Qed.

Lemma store_consistent tm pick s :
  validTime tm -> Forall (wfBuffer (heap s)) (pool (obj s)) ->
  consistent (store tm pick s).
Proof.
  intros Hv Hpool. destruct (store_spec tm pick s Hpool) as (Hf & _ & _).
  exists tm. pose proof (store_timeValues tm pick s) as Htv.
  destruct (store_sameEngine tm pick s) as (_ & _ & _ & Hfmt & _).
  unfold timeValues in Htv. injection Htv as -> -> -> -> ->.
  unfold GetFormat. rewrite Hfmt. repeat split; try done; apply Hv.
Qed.

(** ** Instants *)

Lemma clockTime_valid c l : validTime (clockTime c l).
Proof. unfold validTime, clockTime; simpl. apply Z.mod_pos_bound. lia. Qed.

(** [Add] keeps the nanoseconds in range and moves the instant by exactly
    [d] nanoseconds. *)
Lemma Add_spec tm d :
  validTime tm ->
  validTime (Add tm d) /\
  sec (Add tm d) * 1000000000 + nsec (Add tm d) = sec tm * 1000000000 + nsec tm + d /\
  loc (Add tm d) = loc tm.
Proof.
  unfold validTime, Add. intros Hv.
  pose proof (Z.quot_rem' d 1000000000) as Hqr.
  pose proof (Z.rem_bound_abs d 1000000000 ltac:(lia)) as Hr.
  repeat case_match; simpl; rewrite ?Z.leb_le, ?Z.leb_gt, ?Z.ltb_lt, ?Z.ltb_ge in *;
    repeat split; try done; lia.
Qed.


Lemma Add_le tm d : validTime tm -> 0 <= d -> Time_le tm (Add tm d).
Proof.
  intros Hv Hd. destruct (Add_spec tm d Hv) as (Hv' & Hn & _).
  unfold Time_le, validTime in *. lia.
Qed.

(** ** Every step keeps the invariants *)

Lemma sameSnapshot_consistent s s' :
  sameSnapshot s s' -> consistent s -> consistent s'.
Proof.
  intros (Ht & Hut & Hunt & Huut & Huunt & Hft & Hfmt & _ & Hh) (tm & H).
  exists tm. unfold Now, UnixNow, UnixNanoNow, UnixUNow, UnixUNanoNow,
    FormattedBytes, FormattedNow, GetFormat in *.
  by rewrite Ht, Hut, Hunt, Huut, Huunt, Hft, Hfmt, Hh.
Qed.

Lemma sameSnapshot_pool s s' :
  sameSnapshot s s' ->
  Forall (wfBuffer (heap s)) (pool (obj s)) ->
  Forall (wfBuffer (heap s')) (pool (obj s')).
Proof. intros (_ & _ & _ & _ & _ & _ & _ & Hp & Hh). by rewrite Hp, Hh. Qed.

Lemma sameEngine_engineOk s s' : sameEngine s s' -> engineOk s -> engineOk s'.
Proof.
  intros (Hr & _ & _ & _ & _ & Hc & Hx & Hp). unfold engineOk, IsDaemonRunning.
  by rewrite Hr, Hc, Hx, Hp.
Qed.

Lemma store_inv tm pick s :
  validTime tm -> Forall (wfBuffer (heap s)) (pool (obj s)) -> engineOk s ->
  inv (store tm pick s).
Proof.
  intros Hv Hpool Heng. split; [by apply store_consistent|]. split.
  - by apply store_spec.
  - eapply sameEngine_engineOk; [apply store_sameEngine | done].
Qed.

Lemma refresh_inv c pick s :
  Forall (wfBuffer (heap s)) (pool (obj s)) -> engineOk s -> inv (refresh c pick s).
Proof. intros. apply store_inv; [apply clockTime_valid | done | done]. Qed.

Lemma update_inv pick s s' : inv s -> update pick s = Some s' -> inv s'.
Proof.
  intros ((tm & Hnow & Hv & _) & Hpool & Heng). unfold update. rewrite Hnow. simpl.
  intros [= <-]. apply store_inv; [by apply Add_spec | done | done].
Qed.

Lemma newFastime_inv local c pick : inv (newFastime local c pick).
Proof.
  unfold newFastime, poolGet, make. cbn -[refresh].
  apply refresh_inv.
  - constructor; [|constructor]. repeat split. by eexists.
  - unfold engineOk, IsDaemonRunning. simpl. repeat split; done.
Qed.

Lemma SetFormat_inv form c pick s : inv s -> inv (SetFormat form c pick s).
Proof.
  intros (_ & Hpool & Heng). apply refresh_inv; [done | exact Heng].
Qed.

Lemma SetLocation_inv l c pick s : inv s -> inv (SetLocation l c pick s).
Proof.
  intros (_ & Hpool & Heng). apply refresh_inv; [done | exact Heng].
Qed.

Lemma Stop_inv s s' : inv s -> Stop s = Some s' -> inv s'.
Proof.
  intros (Hc & Hpool & Heng). unfold Stop.
  destruct (IsDaemonRunning s) eqn:Hrun; [|by intros [= <-]].
  destruct (cancel (obj s)) as [c|] eqn:Hcancel; [|done]. intros [= <-].
  split; [|split].
  - by eapply sameSnapshot_consistent; [|exact Hc].
  - by eapply sameSnapshot_pool; [|exact Hpool].
  - destruct Heng as (Hlen & Hct & Hr & Hp).
    unfold engineOk, IsDaemonRunning. simpl. rewrite length_insert.
    by repeat split.
Qed.

Lemma StartTimerD_inv pd d c pick s s' :
  inv s -> StartTimerD pd d c pick s = Some s' -> inv s'.
Proof.
  intros Hinv. unfold StartTimerD.
  destruct (if IsDaemonRunning s then Stop s else Some s) as [s1|] eqn:Hs1; [|done].
  assert (Hinv1 : inv s1).
  { destruct (IsDaemonRunning s); [by eapply Stop_inv | by injection Hs1 as <-]. }
  simpl. intros [= <-].
  destruct Hinv1 as (_ & Hpool1 & Heng1).
  destruct (refresh_inv c pick s1 Hpool1 Heng1) as (Hc & Hpool & Hlen & Hct & Hr & Hp).
  split; [|split].
  - by eapply sameSnapshot_consistent; [|exact Hc].
  - by eapply sameSnapshot_pool; [|exact Hpool].
  - unfold engineOk, IsDaemonRunning. simpl. rewrite !length_app. simpl.
    split; [lia|]. split; [|split].
    + intros g p Hg. apply lookup_app_Some in Hg as [Hg|[Hge Hg]]; [by apply Hct|].
      apply list_lookup_singleton_Some in Hg as [Hg <-]. simpl. lia.
    + intros _. by destruct (procs (refresh c pick s1)).
    + intros _. eexists. split; [done|]. lia.
Qed.

Lemma setPc_engineOk g p q s :
  procs s !! g = Some p ->
  engineOk s -> engineOk (setPc g p q s).
Proof.
  intros Hg (Hlen & Hct & Hr & Hp). unfold engineOk, IsDaemonRunning. simpl.
  rewrite length_insert. split; [done|]. split; [|split].
  - intros g' p' Hg'. apply list_lookup_insert_Some in Hg' as [(<- & <- & _)|[_ Hg']].
    + simpl. by apply Hct.
    + by apply Hct.
  - intros Hrun Hnil. apply (f_equal length) in Hnil. rewrite length_insert in Hnil.
    apply Hr; [done|]. by destruct (procs s).
  - intros Hnil. apply Hp. intros Heq. by rewrite Heq in Hg.
Qed.

(** A goroutine only runs while there is one: its stores to [running] and
    [dur] keep [engineOk]. *)
Lemma onObj_engineOk g p (k : fastime -> fastime) s :
  procs s !! g = Some p ->
  (forall f, cancel (k f) = cancel f) ->
  engineOk s -> engineOk (onObj k s).
Proof.
  intros Hg Hk (Hlen & Hct & Hr & Hp). unfold engineOk, IsDaemonRunning. simpl.
  rewrite Hk. repeat split; try done.
  intros _ Heq. by rewrite Heq in Hg.
Qed.

Lemma procStep_inv e g p s q s' :
  procs s !! g = Some p ->
  inv s -> procStep e p s = Some (q, s') ->
  inv s' /\ procs s' = procs s.
Proof.
  intros Hg Hinv. pose proof Hinv as (Hc & Hpool & Heng). unfold procStep.
  destruct (pc p), e; try done.
  - intros [= <- <-]. split; [|done]. split; [|split].
    + by eapply sameSnapshot_consistent; [|exact Hc].
    + by eapply sameSnapshot_pool; [|exact Hpool].
    + by eapply onObj_engineOk.
  - intros [= <- <-]. split; [|done]. split; [|split].
    + by eapply sameSnapshot_consistent; [|exact Hc].
    + by eapply sameSnapshot_pool; [|exact Hpool].
    + by eapply onObj_engineOk.
  - intros [= <- <-]. split; [|done]. split; [|split].
    + by eapply sameSnapshot_consistent; [|exact Hc].
    + by eapply sameSnapshot_pool; [|exact Hpool].
    + by eapply onObj_engineOk.
  - case_decide; [|done]. by intros [= <- <-].
  - destruct (isDone (ct p) s); [|done]. intros [= <- <-]. split; [|done].
    split; [|split].
    + by eapply sameSnapshot_consistent; [|exact Hc].
    + by eapply sameSnapshot_pool; [|exact Hpool].
    + by eapply onObj_engineOk.
  - destruct (update pick s) as [s1|] eqn:Hu; [|done]. simpl. intros [= <- <-].
    split; [by eapply update_inv|].
    unfold update in Hu. destruct (Now s); [|done]. injection Hu as <-.
    apply store_sameEngine.
  - by intros [= <- <-].
  - destruct (isDone (ct p) s); [|done]. intros [= <- <-]. split; [|done].
    split; [|split].
    + by eapply sameSnapshot_consistent; [|exact Hc].
    + by eapply sameSnapshot_pool; [|exact Hpool].
    + by eapply onObj_engineOk.
  - intros [= <- <-]. split; [by apply refresh_inv|]. apply store_sameEngine.
Qed.

Lemma goStep_inv g e s s' : inv s -> goStep g e s = Some s' -> inv s'.
Proof.
  intros Hinv. unfold goStep.
  destruct (procs s !! g) as [p|] eqn:Hg; [|done]. simpl.
  destruct (procStep e p s) as [[q s1]|] eqn:Hstep; [|done]. simpl.
  intros [= <-].
  destruct (procStep_inv _ _ _ _ _ _ Hg Hinv Hstep) as ((Hc & Hpool & Heng) & Hprocs).
  split; [|split].
  - by eapply sameSnapshot_consistent; [|exact Hc].
  - by eapply sameSnapshot_pool; [|exact Hpool].
  - apply setPc_engineOk; [by rewrite Hprocs | done].
Qed.

Lemma step_inv l s s' : inv s -> step l s = Some s' -> inv s'.
Proof.
  intros Hinv. destruct l; simpl.
  - intros [= <-]. by apply SetFormat_inv.
  - intros [= <-]. by apply SetLocation_inv.
  - by apply Stop_inv.
  - by apply StartTimerD_inv.
  - intros [= <-]. destruct Hinv as (Hc & Hpool & Hlen & Hct & Hr & Hp).
    split; [|split].
    + by eapply sameSnapshot_consistent; [|exact Hc].
    + by eapply sameSnapshot_pool; [|exact Hpool].
    + unfold engineOk, IsDaemonRunning. simpl. by rewrite length_insert.
  - by apply goStep_inv.
Qed.

Lemma run_inv ls s s' : inv s -> run ls s = Some s' -> inv s'.
Proof.
  revert s. induction ls as [|l ls IH]; intros s Hinv; simpl.
  - by intros [= <-].
  - destruct (step l s) as [s1|] eqn:Hstep; [|done]. simpl.
    apply IH. by eapply step_inv.
Qed.

(** ** The 32-bit cast *)

Lemma land_255 a : Z.land a 255 = a mod 256.
Proof. change 255 with (Z.ones 8). rewrite Z.land_ones by lia. done. Qed.

(** On the little-endian layout the cast keeps the low 32 bits. *)
Lemma castUint32_mod x : castUint32 x = x mod 2 ^ 32.
Proof.
  unfold castUint32, int64Bytes, uint32OfBytes. cbn [seq map take foldr].
  rewrite !land_255, !Z.shiftr_div_pow2 by lia.
  change (8 * Z.of_nat 0) with 0. change (8 * Z.of_nat 1) with 8.
  change (8 * Z.of_nat 2) with 16. change (8 * Z.of_nat 3) with 24.
  change (2 ^ 0) with 1. change (2 ^ 8) with 256. change (2 ^ 16) with 65536.
  change (2 ^ 24) with 16777216. change (2 ^ 32) with 4294967296.
  change (2 ^ 64) with 18446744073709551616.
  Z.to_euclidean_division_equations. lia.
Qed.

(** ** The snapshot *)

Lemma store_snapshot tm pick s :
  exists out, snapshot (store tm pick s) =
    (Some tm, Unix tm, UnixNano tm, castUint32 (Unix tm), castUint32 (UnixNano tm),
     Some out).
Proof. rewrite store_unfold. by eexists. Qed.

(** A step of a goroutine changes no snapshot field, or is a [store]. *)
Lemma procStep_snapshot e p s q s1 :
  procStep e p s = Some (q, s1) ->
  snapshot s1 = snapshot s \/ exists tm pick, s1 = store tm pick s.
Proof.
  unfold procStep.
  destruct (pc p), e; try done; try (intros [= <- <-]; by left).
  - case_decide; [|done]. intros [= <- <-]. by left.
  - destruct (isDone (ct p) s); [|done]. intros [= <- <-]. by left.
  - unfold update. destruct (Now s) as [tm|]; [|done]. simpl.
    intros [= <- <-]. right. eauto.
  - destruct (isDone (ct p) s); [|done]. intros [= <- <-]. by left.
  - intros [= <- <-]. right. unfold refresh. eauto.
Qed.

Lemma step_snapshot l s s' :
  step l s = Some s' ->
  snapshot s' = snapshot s \/
  exists tm out, snapshot s' =
    (Some tm, Unix tm, UnixNano tm, castUint32 (Unix tm), castUint32 (UnixNano tm),
     Some out).
Proof.
  destruct l; simpl.
  - intros [= <-]. right. unfold SetFormat, refresh. eexists. apply store_snapshot.
  - intros [= <-]. right. unfold SetLocation, refresh. eexists. apply store_snapshot.
  - unfold Stop. destruct (IsDaemonRunning s); [|intros [= <-]; by left].
    destruct (cancel (obj s)); [|done]. intros [= <-]. by left.
  - unfold StartTimerD.
    destruct (if IsDaemonRunning s then Stop s else Some s) as [s1|]; [|done].
    simpl. intros [= <-]. right.
    destruct (store_snapshot (now c s1) pick s1) as [out Hout].
    exists (now c s1), out. rewrite <- Hout. done.
  - intros [= <-]. by left.
  - unfold goStep. destruct (procs s !! g) as [p|]; [|done]. simpl.
    destruct (procStep e p s) as [[q s1]|] eqn:Hstep; [|done]. simpl.
    intros [= <-].
    destruct (procStep_snapshot _ _ _ _ _ Hstep) as [Hsame|(tm & pick & ->)].
    + left. rewrite <- Hsame. done.
    + right. destruct (store_snapshot tm pick s) as [out Hout].
      exists tm, out. rewrite <- Hout. done.
Qed.

(** C4. The cheap update of a tick stores the published instant advanced
    by the stored tick interval: [update] is [store] of [Now().Add(dur)],
    an instant exactly [dur] nanoseconds after the published one in the
    same location.  Neither [update] nor the tick case that calls it takes
    a clock reading. *)
Theorem update_adds_tick_interval pick s tm :
  Now s = Some tm -> validTime tm ->
  exists tm',
    update pick s = Some (store tm' pick s) /\
    Now (store tm' pick s) = Some tm' /\
    tm' = Add tm (dur (obj s)) /\
    sec tm' * 1000000000 + nsec tm' = sec tm * 1000000000 + nsec tm + dur (obj s) /\
    loc tm' = loc tm /\
    UnixNanoNow (store tm' pick s) = wrap64 (sec tm * 1000000000 + nsec tm + dur (obj s)) /\
    (forall g p, procs s !! g = Some p -> pc p = pcSelect ->
       goStep g (evTick pick) s = Some (setPc g p pcSelect (store tm' pick s))).
Proof.
  intros Hnow Hv. exists (Add tm (dur (obj s))).
  destruct (Add_spec tm (dur (obj s)) Hv) as (_ & Hn & Hl).
  assert (Hu : update pick s = Some (store (Add tm (dur (obj s))) pick s))
    by (unfold update; by rewrite Hnow).
  split; [done|]. split; [by rewrite store_unfold|]. split; [done|].
  split; [done|]. split; [done|]. split.
  - rewrite store_unfold. unfold UnixNanoNow, UnixNano. simpl. by rewrite Hn.
  - intros g p Hg Hpc. unfold goStep, procStep. rewrite Hg. simpl.
    by rewrite Hpc, Hu.
Qed.

(** A new instance: no daemon, no cancel function, no goroutine. *)
Lemma newFastime_stopped local c pick :
  IsDaemonRunning (newFastime local c pick) = false /\
  cancel (obj (newFastime local c pick)) = None /\
  procs (newFastime local c pick) = [] /\ dur (obj (newFastime local c pick)) = 0.
Proof.
  unfold newFastime, poolGet, make, IsDaemonRunning. cbn -[refresh]. unfold refresh.
  match goal with |- context [store ?tm ?h ?s] =>
    destruct (store_sameEngine tm h s) as (-> & -> & _ & _ & _ & -> & _ & ->) end.
  done.
Qed.

(** C5. [Stop()] on an instance whose daemon is not running returns
    without a panic and changes nothing, also when [f.cancel] is still
    [nil] as on a new instance.  On a running daemon it cancels the
    context of [f.cancel], stores 0 in [dur] and changes nothing else.
    A second [Stop()] after the first changes nothing. *)
Theorem Stop_noop_cancels_idempotent local c0 pick0 ls s :
  run ls (newFastime local c0 pick0) = Some s ->
  (forall s0, IsDaemonRunning s0 = false -> Stop s0 = Some s0) /\
  (cancel (obj (newFastime local c0 pick0)) = None /\
   Stop (newFastime local c0 pick0) = Some (newFastime local c0 pick0)) /\
  (IsDaemonRunning s = true ->
   exists c s', cancel (obj s) = Some c /\ Stop s = Some s' /\
     isDone c s' = true /\ dur (obj s') = 0 /\
     obj s' = setDur 0 (obj s) /\ heap s' = heap s /\ procs s' = procs s /\
     ctxs s' = <[c := true]> (ctxs s)) /\
  (forall s', Stop s = Some s' -> Stop s' = Some s').
Proof.
  intros Hrun.
  assert (Hno : forall s0, IsDaemonRunning s0 = false -> Stop s0 = Some s0).
  { intros s0 H0. unfold Stop. by rewrite H0. }
  destruct (run_inv _ _ _ (newFastime_inv local c0 pick0) Hrun)
    as (_ & _ & Hlen & _ & Hr & Hp).
  split; [exact Hno|]. split; [|split].
  - split; [|apply Hno]; apply newFastime_stopped.
  - intros Hrunning. destruct (Hp (Hr Hrunning)) as (c & Hc & Hlt).
    exists c. eexists. split; [done|]. unfold Stop. rewrite Hrunning, Hc.
    split; [done|]. repeat split.
    unfold isDone. simpl. rewrite list_lookup_insert_eq; [done | lia].
  - intros s'. unfold Stop at 1.
    destruct (IsDaemonRunning s) eqn:Hrunning; [|intros [= <-]; by apply Hno].
    destruct (cancel (obj s)) as [c|] eqn:Hc; [|done]. intros [= <-].
    unfold Stop, IsDaemonRunning in *. simpl. rewrite Hrunning, Hc.
    by rewrite list_insert_insert_eq.
Qed.

(** ** Cancellation *)

Lemma procStep_engine e p s q s1 :
  procStep e p s = Some (q, s1) -> procs s1 = procs s /\ ctxs s1 = ctxs s.
Proof.
  unfold procStep.
  destruct (pc p), e; try done; try (by intros [= <- <-]).
  - case_decide; [|done]. by intros [= <- <-].
  - destruct (isDone (ct p) s); [|done]. by intros [= <- <-].
  - unfold update. destruct (Now s) as [tm|]; [|done]. simpl.
    intros [= <- <-]. split; apply store_sameEngine.
  - destruct (isDone (ct p) s); [|done]. by intros [= <- <-].
  - intros [= <- <-]. split; apply store_sameEngine.
Qed.

Lemma Stop_engine s s1 :
  Stop s = Some s1 ->
  procs s1 = procs s /\
  forall c, ctxs s !! c = Some true -> ctxs s1 !! c = Some true.
Proof.
  unfold Stop. destruct (IsDaemonRunning s); [|by intros [= <-]].
  destruct (cancel (obj s)) as [i|]; [|done]. intros [= <-]. simpl.
  split; [done|]. intros c Hc. destruct (decide (i = c)) as [->|Hne].
  - rewrite list_lookup_insert_eq; [done | by eapply lookup_lt_Some].
  - by rewrite list_lookup_insert_ne.
Qed.

(** A closed [Done()] channel stays closed, and a goroutine that returned
    stays so. *)
Lemma step_stable l s s' c :
  step l s = Some s' ->
  (ctxs s !! c = Some true -> ctxs s' !! c = Some true) /\
  (forall p, procs s !! c = Some p -> pc p = pcExit ->
     exists p', procs s' !! c = Some p' /\ pc p' = pcExit).
Proof.
  destruct l; simpl.
  - intros [= <-]. unfold SetFormat, refresh.
    destruct (store_sameEngine (now c0 (withObj s (setFormat form (obj s)) (heap s))) pick
                (withObj s (setFormat form (obj s)) (heap s)))
      as (_ & _ & _ & _ & _ & _ & -> & ->). simpl. eauto.
  - intros [= <-]. unfold SetLocation, refresh.
    destruct (store_sameEngine (now c0 (withObj s (setLocation l (obj s)) (heap s))) pick
                (withObj s (setLocation l (obj s)) (heap s)))
      as (_ & _ & _ & _ & _ & _ & -> & ->). simpl. eauto.
  - intros Hstop. destruct (Stop_engine _ _ Hstop) as (-> & Hd). eauto.
  - unfold StartTimerD.
    destruct (if IsDaemonRunning s then Stop s else Some s) as [s1|] eqn:Hs1; [|done].
    simpl. intros [= <-]. simpl. unfold refresh.
    destruct (store_sameEngine (now c0 s1) pick s1) as (_ & _ & _ & _ & _ & _ & -> & ->).
    assert (Hs : procs s1 = procs s /\
                 (ctxs s !! c = Some true -> ctxs s1 !! c = Some true)).
    { destruct (IsDaemonRunning s).
      - destruct (Stop_engine _ _ Hs1) as (-> & Hd). eauto.
      - by injection Hs1 as <-. }
    destruct Hs as (-> & Hd). split.
    + intros Hc. by apply lookup_app_l_Some, Hd.
    + intros p Hp Hpc. exists p. split; [by apply lookup_app_l_Some | done].
  - intros [= <-]. simpl. split; [|eauto]. intros Hc.
    destruct (decide (i = c)) as [->|Hne].
    + rewrite list_lookup_insert_eq; [done | by eapply lookup_lt_Some].
    + by rewrite list_lookup_insert_ne.
  - unfold goStep. destruct (procs s !! g) as [p0|] eqn:Hg; [|done]. simpl.
    destruct (procStep e p0 s) as [[q s1]|] eqn:Hstep; [|done]. simpl.
    intros [= <-]. simpl.
    destruct (procStep_engine _ _ _ _ _ Hstep) as (-> & ->). split; [done|].
    intros p Hp Hpc. destruct (decide (g = c)) as [->|Hne].
    + rewrite Hg in Hp. injection Hp as ->. unfold procStep in Hstep.
      rewrite Hpc in Hstep. by destruct e.
    + exists p. by rewrite list_lookup_insert_ne.
Qed.

Lemma run_stable ls s s' c :
  run ls s = Some s' ->
  (ctxs s !! c = Some true -> ctxs s' !! c = Some true) /\
  (forall p, procs s !! c = Some p -> pc p = pcExit ->
     exists p', procs s' !! c = Some p' /\ pc p' = pcExit).
Proof.
  revert s. induction ls as [|l ls IH]; intros s; simpl.
  - intros [= <-]. eauto.
  - destruct (step l s) as [s1|] eqn:Hstep; [|done]. simpl. intros Hrun.
    destruct (step_stable _ _ _ c Hstep) as (Hd1 & Hp1).
    destruct (IH _ Hrun) as (Hd2 & Hp2). split; [auto|].
    intros p Hp Hpc. destruct (Hp1 p Hp Hpc) as (p1 & Hp1' & Hpc1). eauto.
Qed.

(** A goroutine that returned takes no step. *)
Lemma exited_no_step g p e s :
  procs s !! g = Some p -> pc p = pcExit -> goStep g e s = None.
Proof.
  intros Hg Hpc. unfold goStep, procStep. rewrite Hg. simpl. rewrite Hpc.
  by destruct e.
Qed.

(** At either [select], a closed [Done()] can be taken: the goroutine
    stores [false] in [running], touches nothing else and returns. *)
Lemma done_step g p s :
  procs s !! g = Some p -> pc p = pcSelect \/ pc p = pcNested ->
  isDone (ct p) s = true ->
  goStep g evDone s =
    Some (setPc g p pcExit (onObj (setRunning false) s)).
Proof.
  intros Hg Hpc Hd. unfold goStep, procStep. rewrite Hg. simpl.
  destruct Hpc as [-> | ->]; by rewrite Hd.
Qed.

(** ** The formatting buffer *)

Lemma storeBuffer_rest pick s : (storeBuffer pick s).2 = (poolGet pick s).1.2.
Proof.
  unfold storeBuffer. destruct (poolGet pick s) as [[b rest] h]. simpl.
  case_decide; [|done]. by destruct (Grow _ _).
Qed.

Lemma storeBuffer_kept pick s :
  (String.length (GetFormat s) <= Cap (poolGet pick s).1.1)%nat ->
  (storeBuffer pick s).1.2 = (poolGet pick s).1.1.
Proof.
  unfold storeBuffer. destruct (poolGet pick s) as [[b rest] h]. simpl.
  intros Hcap. case_decide; [lia | done].
Qed.

(** C7, as amended.  [store] takes a buffer from the pool (a pooled one or
    one made by [New]), keeps it when its capacity is at least the length
    of the format string and grows it to at least that length otherwise,
    and puts it back in the pool.  The published slice reads as the
    instant in the format; it lies in the buffer's array when the rendered
    output fits the buffer's capacity, and in an array of its own when the
    output is longer. *)
Theorem store_buffer_discipline local c0 pick0 ls s tm pick :
  run ls (newFastime local c0 pick0) = Some s ->
  let got := (poolGet pick s).1.1 in
  let b := (storeBuffer pick s).1.2 in
  let out := rendered tm (GetFormat s) in
  ((String.length (GetFormat s) <= Cap got)%nat -> b = got) /\
  (String.length (GetFormat s) <= Cap b)%nat /\
  pool (obj (store tm pick s)) = b :: (poolGet pick s).1.2 /\
  FormattedBytes (store tm pick s) = Some out /\
  exists sl, FormattedNow (store tm pick s) = Some sl /\
    ((length out <= Cap b)%nat -> arr sl = arr (buf b)) /\
    ((Cap b < length out)%nat -> arr sl <> arr (buf b)).
Proof.
  intros Hrun got b out.
  destruct (run_inv _ _ _ (newFastime_inv local c0 pick0) Hrun) as (_ & Hpool & _).
  destruct (storeBuffer_spec pick s Hpool) as (Hb & _ & _ & Hcap).
  destruct (store_spec tm pick s Hpool) as (Hf & _ & _).
  split; [apply storeBuffer_kept|]. split; [exact Hcap|].
  split; [by rewrite store_unfold, <- storeBuffer_rest|]. split; [exact Hf|].
  rewrite store_unfold. unfold FormattedNow, AppendFormat. simpl.
  eexists. split; [done|]. fold b.
  destruct Hb as (Hboff & Hoff & Hlen & a & Ha & Hla). fold b in Hboff, Hoff, Hlen, Ha, Hla.
  split.
  - intros Hfit. rewrite foldl_appendBytes_in_place; [done|].
    unfold Bytes. simpl. rewrite Hboff. unfold Cap in Hfit.
    fold (rendered tm (GetFormat s)). fold out. lia.
  - intros Hover.
    assert (Hlt : (arr (buf b) < length (storeBuffer pick s).1.1)%nat)
      by (by eapply lookup_lt_Some).
    pose proof (foldl_appendBytes_moved (layoutChunks tm (GetFormat s))
                  (storeBuffer pick s).1.1 (sliceTo (Bytes b) 0)) as Hmoved.
    unfold Bytes in Hmoved. simpl in Hmoved. rewrite Hboff in Hmoved.
    unfold Cap in Hover. fold (rendered tm (GetFormat s)) in Hmoved. fold out in Hmoved.
    unfold Bytes. simpl. rewrite Hboff. lia.
Qed.

(** ** Monotonicity *)

Lemma Time_le_refl tm : Time_le tm tm.
Proof. unfold Time_le. lia. Qed.

(** ** A tick interval of zero *)



(** ** The constructor *)

(** X1. [New()] returns an instance whose daemon is not running, with the
    format [time.RFC3339], the location [time.Local], a correction
    interval of 100ms, no tick interval, no cancel function and no
    goroutine.  The [math.MaxInt64] and [math.MaxUint32] of the struct
    literal and the empty first slice are gone before it returns: every
    accessor answers for the instant that [now()] returned. *)
Theorem newFastime_defaults local c pick :
  let s := newFastime local c pick in
  IsDaemonRunning s = false /\ GetFormat s = RFC3339 /\ GetLocation s = local /\
  dur (obj s) = 0 /\ correctionDur (obj s) = 100 * Millisecond /\
  cancel (obj s) = None /\ procs s = [] /\ ctxs s = [] /\
  Now s = Some (now c s) /\
  UnixNow s = Unix (now c s) /\ UnixNanoNow s = UnixNano (now c s) /\
  UnixUNow s = Unix (now c s) mod 2 ^ 32 /\
  UnixUNanoNow s = UnixNano (now c s) mod 2 ^ 32 /\
  FormattedBytes s = Some (rendered (now c s) RFC3339).
Proof.
  unfold newFastime, poolGet, make, IsDaemonRunning, GetFormat, GetLocation.
  cbn -[refresh]. unfold refresh.
  match goal with |- context [store ?tm0 pick ?s1] =>
    set (tm := tm0); set (s0 := s1) end.
  assert (Hpool : Forall (wfBuffer (heap s0)) (pool (obj s0))).
  { constructor; [|constructor]. repeat split. by eexists. }
  destruct (store_spec tm pick s0 Hpool) as (Hf & _).
  destruct (store_sameEngine tm pick s0) as (Hr & Hd & Hc & Hfmt & Hloc & Hcan & Hx & Hp).
  pose proof (store_timeValues tm pick s0) as Htv.
  unfold timeValues in Htv. injection Htv as Hnow Hut Hunt Huut Huunt.
  unfold now, GetLocation, Now, UnixNow, UnixNanoNow, UnixUNow, UnixUNanoNow in *.
  rewrite Hr, Hd, Hc, Hfmt, Hloc, Hcan, Hx, Hp.
  rewrite Hut, Hunt, Huut, Huunt, !castUint32_mod.
  repeat split; try done.
Qed.

(** ** What writes the configuration and the flag *)

Lemma withObj_store_fields tm pick s :
  correctionDur (obj (store tm pick s)) = correctionDur (obj s) /\
  format (obj (store tm pick s)) = format (obj s) /\
  location (obj (store tm pick s)) = location (obj s) /\
  running (obj (store tm pick s)) = running (obj s).
Proof. destruct (store_sameEngine tm pick s) as (? & ? & ? & ? & ? & _). done. Qed.

(** The correction interval is set by the constructor and by nothing
    else. *)
Lemma step_correctionDur l s s' :
  step l s = Some s' -> correctionDur (obj s') = correctionDur (obj s).
Proof.
  destruct l; simpl.
  - intros [= <-]. unfold SetFormat, refresh.
    by destruct (withObj_store_fields
      (now c (withObj s (setFormat form (obj s)) (heap s))) pick
      (withObj s (setFormat form (obj s)) (heap s))) as (-> & _).
  - intros [= <-]. unfold SetLocation, refresh.
    by destruct (withObj_store_fields
      (now c (withObj s (setLocation l (obj s)) (heap s))) pick
      (withObj s (setLocation l (obj s)) (heap s))) as (-> & _).
  - unfold Stop. destruct (IsDaemonRunning s); [|by intros [= <-]].
    destruct (cancel (obj s)); [|done]. by intros [= <-].
  - unfold StartTimerD.
    destruct (if IsDaemonRunning s then Stop s else Some s) as [s1|] eqn:Hs1; [|done].
    simpl. intros [= <-]. simpl. unfold refresh.
    destruct (withObj_store_fields (now c s1) pick s1) as (-> & _).
    destruct (IsDaemonRunning s); [|by injection Hs1 as <-].
    unfold Stop in Hs1. destruct (IsDaemonRunning s); [|by injection Hs1 as <-].
    destruct (cancel (obj s)); [|done]. by injection Hs1 as <-.
  - by intros [= <-].
  - unfold goStep. destruct (procs s !! g) as [p|]; [|done]. simpl.
    destruct (procStep e p s) as [[q s1]|] eqn:Hstep; [|done]. simpl.
    intros [= <-]. simpl. unfold procStep in Hstep.
    destruct (pc p), e; try done; try (by injection Hstep as <- <-).
    + case_decide; [|done]. by injection Hstep as <- <-.
    + destruct (isDone (ct p) s); [|done]. by injection Hstep as <- <-.
    + unfold update in Hstep. destruct (Now s) as [tm|]; [|done]. simpl in Hstep.
      injection Hstep as <- <-. apply withObj_store_fields.
    + destruct (isDone (ct p) s); [|done]. by injection Hstep as <- <-.
    + injection Hstep as <- <-. apply withObj_store_fields.
Qed.

Lemma run_correctionDur ls s s' :
  run ls s = Some s' -> correctionDur (obj s') = correctionDur (obj s).
Proof.
  revert s. induction ls as [|l ls IH]; intros s; simpl.
  - by intros [= <-].
  - destruct (step l s) as [s1|] eqn:Hstep; [|done]. simpl. intros Hrun.
    rewrite (IH _ Hrun). by eapply step_correctionDur.
Qed.

Lemma reachable_correctionDur local c0 pick0 ls s :
  run ls (newFastime local c0 pick0) = Some s ->
  correctionDur (obj s) = 100 * Millisecond.
Proof.
  intros Hrun. rewrite (run_correctionDur _ _ _ Hrun).
  unfold newFastime, poolGet, make. cbn -[refresh]. unfold refresh.
  match goal with |- context [store ?tm0 pick0 ?s1] =>
    destruct (withObj_store_fields tm0 pick0 s1) as (-> & _) end.
  done.
Qed.

(** X2. The format changes only in [SetFormat] and the location only in
    [SetLocation]: a call or step after which [GetFormat()] (or
    [GetLocation()]) answers differently is that setter, and the answer is
    its argument. *)
Theorem configuration_written_by_setters l s s' :
  step l s = Some s' ->
  (GetFormat s' <> GetFormat s ->
   exists form c pick, l = CallSetFormat form c pick /\ GetFormat s' = form) /\
  (GetLocation s' <> GetLocation s ->
   exists loc0 c pick, l = CallSetLocation loc0 c pick /\ GetLocation s' = loc0).
Proof.
  unfold GetFormat, GetLocation. destruct l; simpl.
  - intros [= <-]. unfold SetFormat, refresh.
    destruct (withObj_store_fields
      (now c (withObj s (setFormat form (obj s)) (heap s))) pick
      (withObj s (setFormat form (obj s)) (heap s))) as (_ & -> & -> & _).
    simpl. split; [eauto | done].
  - intros [= <-]. unfold SetLocation, refresh.
    destruct (withObj_store_fields
      (now c (withObj s (setLocation l (obj s)) (heap s))) pick
      (withObj s (setLocation l (obj s)) (heap s))) as (_ & -> & -> & _).
    simpl. split; [done | eauto].
  - unfold Stop. destruct (IsDaemonRunning s); [|by intros [= <-]].
    destruct (cancel (obj s)); [|done]. by intros [= <-].
  - unfold StartTimerD.
    destruct (if IsDaemonRunning s then Stop s else Some s) as [s1|] eqn:Hs1; [|done].
    simpl. intros [= <-]. simpl. unfold refresh.
    destruct (withObj_store_fields (now c s1) pick s1) as (_ & -> & -> & _).
    assert (Hsame : format (obj s1) = format (obj s) /\
                    location (obj s1) = location (obj s)).
    { destruct (IsDaemonRunning s); [|by injection Hs1 as <-].
      unfold Stop in Hs1. destruct (IsDaemonRunning s); [|by injection Hs1 as <-].
      destruct (cancel (obj s)); [|done]. by injection Hs1 as <-. }
    destruct Hsame as (-> & ->). done.
  - by intros [= <-].
  - unfold goStep. destruct (procs s !! g) as [p|]; [|done]. simpl.
    destruct (procStep e p s) as [[q s1]|] eqn:Hstep; [|done]. simpl.
    intros [= <-]. simpl. unfold procStep in Hstep.
    destruct (pc p), e; try done; try (by injection Hstep as <- <-).
    + case_decide; [|done]. by injection Hstep as <- <-.
    + destruct (isDone (ct p) s); [|done]. by injection Hstep as <- <-.
    + unfold update in Hstep. destruct (Now s) as [tm|]; [|done]. simpl in Hstep.
      injection Hstep as <- <-.
      by destruct (withObj_store_fields (Add tm (dur (obj s))) pick s) as (_ & -> & -> & _).
    + destruct (isDone (ct p) s); [|done]. by injection Hstep as <- <-.
    + injection Hstep as <- <-. unfold refresh.
      by destruct (withObj_store_fields (now c s) pick s) as (_ & -> & -> & _).
Qed.

(** X3. The flag behind [IsDaemonRunning()] is written by the daemon
    goroutines alone: a call or step that changes it is either the first
    statement of a goroutine, which sets it, or a [Done()] case of a
    goroutine whose context is cancelled, which clears it.  No public
    method changes it, neither [StartTimerD] nor [Stop]. *)
Theorem running_written_by_goroutines l s s' :
  step l s = Some s' -> IsDaemonRunning s' <> IsDaemonRunning s ->
  exists g p, procs s !! g = Some p /\
    ((l = Go g evNext /\ pc p = pcStart /\ IsDaemonRunning s' = true) \/
     (l = Go g evDone /\ (pc p = pcSelect \/ pc p = pcNested) /\
      isDone (ct p) s = true /\ IsDaemonRunning s' = false)).
Proof.
  unfold IsDaemonRunning. destruct l; simpl.
  - intros [= <-]. unfold SetFormat, refresh.
    by destruct (withObj_store_fields
      (now c (withObj s (setFormat form (obj s)) (heap s))) pick
      (withObj s (setFormat form (obj s)) (heap s))) as (_ & _ & _ & ->).
  - intros [= <-]. unfold SetLocation, refresh.
    by destruct (withObj_store_fields
      (now c (withObj s (setLocation l (obj s)) (heap s))) pick
      (withObj s (setLocation l (obj s)) (heap s))) as (_ & _ & _ & ->).
  - unfold Stop, IsDaemonRunning. destruct (running (obj s)) eqn:Hr.
    + destruct (cancel (obj s)); [|done]. intros [= <-] Hne. by destruct Hne.
    + intros [= <-] Hne. by destruct Hne.
  - unfold StartTimerD.
    destruct (if IsDaemonRunning s then Stop s else Some s) as [s1|] eqn:Hs1; [|done].
    simpl. intros [= <-]. simpl. unfold refresh.
    destruct (withObj_store_fields (now c s1) pick s1) as (_ & _ & _ & ->).
    assert (Hsame : running (obj s1) = running (obj s)).
    { unfold Stop, IsDaemonRunning in Hs1.
      destruct (running (obj s)) eqn:Hr; [|by injection Hs1 as <-].
      destruct (cancel (obj s)); [|done]. injection Hs1 as <-. by simpl. }
    by rewrite Hsame.
  - by intros [= <-].
  - unfold goStep. destruct (procs s !! g) as [p|] eqn:Hg; [|done]. simpl.
    destruct (procStep e p s) as [[q s1]|] eqn:Hstep; [|done]. simpl.
    intros [= <-]. simpl. intros Hne. exists g, p. split; [done|].
    unfold procStep in Hstep.
    destruct (pc p) eqn:Hpc, e; try done;
      try (injection Hstep as <- <-; by destruct Hne).
    + injection Hstep as <- <-. left. by repeat split.
    + case_decide; [|done]. injection Hstep as <- <-. by destruct Hne.
    + destruct (isDone (ct p) s) eqn:Hd; [|done]. injection Hstep as <- <-.
      right. repeat split; auto.
    + unfold update in Hstep. destruct (Now s) as [tm|]; [|done]. simpl in Hstep.
      injection Hstep as <- <-. destruct Hne.
      by destruct (withObj_store_fields (Add tm (dur (obj s))) pick s) as (_ & _ & _ & ->).
    + destruct (isDone (ct p) s) eqn:Hd; [|done]. injection Hstep as <- <-.
      right. repeat split; auto.
    + injection Hstep as <- <-. destruct Hne. unfold refresh.
      by destruct (withObj_store_fields (now c s) pick s) as (_ & _ & _ & ->).
Qed.

(** ** Starting the daemon *)

Lemma goStep_intro g e s p q s1 :
  procs s !! g = Some p -> procStep e p s = Some (q, s1) ->
  goStep g e s = Some (setPc g p q s1).
Proof. intros Hg Hp. unfold goStep. rewrite Hg. simpl. by rewrite Hp. Qed.

Lemma setPc_lookup g p q s :
  (g < length (procs s))%nat ->
  procs (setPc g p q s) !! g = Some {| pc := q; ct := ct p; arg := arg p |}.
Proof. intros Hlt. simpl. by apply list_lookup_insert_eq. Qed.

(** X5. The first three statements of the goroutine set the flag and store
    the interval it was started with, and touch neither the snapshot nor
    the heap.  Its fourth, [time.NewTicker], succeeds exactly when that
    interval is positive: with an interval of zero or less the goroutine
    panics there, with a positive one it enters its loop, where a tick can
    be taken. *)
Theorem goroutine_startup local c0 pick0 ls s g p :
  run ls (newFastime local c0 pick0) = Some s ->
  procs s !! g = Some p -> pc p = pcStart ->
  exists s3, run [Go g evNext; Go g evNext; Go g evNext] s = Some s3 /\
    IsDaemonRunning s3 = true /\ dur (obj s3) = arg p /\
    snapshot s3 = snapshot s /\ heap s3 = heap s /\
    procs s3 = <[g := {| pc := pcTickers; ct := ct p; arg := arg p |}]> (procs s) /\
    (arg p <= 0 -> goStep g evNext s3 = None) /\
    (0 < arg p ->
     exists s4, goStep g evNext s3 = Some s4 /\ obj s4 = obj s3 /\
       procs s4 = <[g := {| pc := pcSelect; ct := ct p; arg := arg p |}]> (procs s) /\
       forall pick, is_Some (goStep g (evTick pick) s4)).
Proof.
  intros Hrun Hg Hpc.
  pose proof (run_inv _ _ _ (newFastime_inv local c0 pick0) Hrun)
    as ((tm & Hnow & _) & _).
  pose proof (reachable_correctionDur _ _ _ _ _ Hrun) as Hcd.
  assert (Hlt : (g < length (procs s))%nat) by (by eapply lookup_lt_Some).
  set (s1 := setPc g p pcSetMax (onObj (setRunning true) s)).
  set (p1 := {| pc := pcSetMax; ct := ct p; arg := arg p |}).
  set (s2 := setPc g p1 pcSetDur (onObj (setDur MaxInt64) s1)).
  set (p2 := {| pc := pcSetDur; ct := ct p; arg := arg p |}).
  set (s3 := setPc g p2 pcTickers (onObj (setDur (arg p)) s2)).
  set (p3 := {| pc := pcTickers; ct := ct p; arg := arg p |}).
  assert (H1 : goStep g evNext s = Some s1).
  { apply goStep_intro; [done|]. unfold procStep. by rewrite Hpc. }
  assert (Hg1 : procs s1 !! g = Some p1) by (by apply setPc_lookup).
  assert (H2 : goStep g evNext s1 = Some s2) by (by apply goStep_intro).
  assert (Hg2 : procs s2 !! g = Some p2).
  { apply (setPc_lookup g p1). simpl. by rewrite length_insert. }
  assert (H3 : goStep g evNext s2 = Some s3) by (by apply goStep_intro).
  assert (Hg3 : procs s3 !! g = Some p3).
  { apply (setPc_lookup g p2). simpl. by rewrite !length_insert. }
  exists s3. split.
  { cbn [run step]. rewrite H1. cbn [mbind option_bind]. rewrite H2.
    cbn [mbind option_bind]. by rewrite H3. }
  split; [done|]. split; [done|]. split; [done|]. split; [done|].
  split; [simpl; by rewrite !list_insert_insert_eq|].
  split.
  - intros Hle. unfold goStep. rewrite Hg3. unfold procStep. simpl.
    case_decide as Hdec; [|done]. simpl in Hdec. lia.
  - intros Hpos. exists (setPc g p3 pcSelect s3).
    assert (H4 : goStep g evNext s3 = Some (setPc g p3 pcSelect s3)).
    { apply goStep_intro; [done|]. unfold procStep. simpl.
      case_decide as Hdec; [done|]. destruct Hdec. simpl. rewrite Hcd.
      unfold Millisecond. lia. }
    split; [done|]. split; [done|].
    split; [simpl; by rewrite !list_insert_insert_eq|].
    intros pick. unfold goStep. simpl.
    rewrite list_lookup_insert_eq by (by rewrite !length_insert). simpl.
    unfold procStep, update. simpl.
    change (Now (setPc g p3 pcSelect s3)) with (Now s). rewrite Hnow. simpl. eauto.
Qed.

(** ** Two goroutines *)

(** X6. Where a goroutine whose context is cancelled is still at a
    [select] while another goroutine is in its loop with a live context
    (as after a second [StartTimerD]), the first one's [Done()] case
    clears the flag for both: [IsDaemonRunning()] then answers false,
    [Stop()] does nothing, the context of the other goroutine stays live
    so its [Done()] case cannot fire, and it goes on taking ticks. *)
Theorem stale_goroutine_clears_flag local c0 pick0 ls s old new po pn :
  run ls (newFastime local c0 pick0) = Some s ->
  old <> new ->
  procs s !! old = Some po -> pc po = pcSelect \/ pc po = pcNested ->
  isDone (ct po) s = true ->
  procs s !! new = Some pn -> pc pn = pcSelect -> isDone (ct pn) s = false ->
  exists s1, goStep old evDone s = Some s1 /\
    IsDaemonRunning s1 = false /\ Stop s1 = Some s1 /\
    isDone (ct pn) s1 = false /\ goStep new evDone s1 = None /\
    forall pick, is_Some (goStep new (evTick pick) s1).
Proof.
  intros Hrun Hne Hold Hpco Hdo Hnew Hpcn Hdn.
  pose proof (run_inv _ _ _ (newFastime_inv local c0 pick0) Hrun)
    as ((tm & Hnow & _) & _).
  eexists. split; [by apply done_step|].
  split; [done|]. split; [done|]. split; [done|].
  assert (Hnew1 : procs (setPc old po pcExit (onObj (setRunning false) s)) !! new
                  = Some pn) by (simpl; by rewrite list_lookup_insert_ne).
  split.
  - unfold goStep. rewrite Hnew1. unfold procStep. simpl. rewrite Hpcn.
    change (isDone (ct pn) _) with (isDone (ct pn) s). by rewrite Hdn.
  - intros pick. unfold goStep. rewrite Hnew1. unfold procStep, update. simpl.
    rewrite Hpcn.
    change (Now (setPc old po pcExit (onObj (setRunning false) s))) with (Now s).
    rewrite Hnow. simpl. eauto.
Qed.

(** ** Extrapolation and correction *)




(** X8. A correction tick: the [ctick] case alone changes nothing and puts
    the goroutine in the inner [select], where no cheap update and no
    second [ctick] can happen; when the tick arrives there the goroutine
    refreshes, and whatever instant was published or extrapolated before,
    the accessors and the formatted bytes then answer for the instant
    [now()] returned.  The goroutine is back in its loop, the tick
    interval unchanged. *)
Theorem correction_tick_publishes_clock local c0 pick0 ls s g p c pick :
  run ls (newFastime local c0 pick0) = Some s ->
  procs s !! g = Some p -> pc p = pcSelect ->
  exists s1 s2, goStep g evCtick s = Some s1 /\
    obj s1 = obj s /\ heap s1 = heap s /\
    (forall pk, goStep g (evTick pk) s1 = None) /\ goStep g evCtick s1 = None /\
    goStep g (evTickRefresh c pick) s1 = Some s2 /\
    Now s2 = Some (now c s) /\
    UnixNow s2 = Unix (now c s) /\ UnixNanoNow s2 = UnixNano (now c s) /\
    FormattedBytes s2 = Some (rendered (now c s) (GetFormat s)) /\
    dur (obj s2) = dur (obj s) /\ procs s2 !! g = Some p.
Proof.
  intros Hrun Hg Hpc.
  pose proof (run_inv _ _ _ (newFastime_inv local c0 pick0) Hrun) as (_ & Hpool & _).
  assert (Hlt : (g < length (procs s))%nat) by (by eapply lookup_lt_Some).
  set (s1 := setPc g p pcNested s).
  set (p1 := {| pc := pcNested; ct := ct p; arg := arg p |}).
  assert (H1 : goStep g evCtick s = Some s1).
  { apply goStep_intro; [done|]. unfold procStep. by rewrite Hpc. }
  assert (Hg1 : procs s1 !! g = Some p1) by (by apply setPc_lookup).
  exists s1. eexists. split; [exact H1|]. split; [done|]. split; [done|].
  split; [intros pk; unfold goStep; by rewrite Hg1|].
  split; [unfold goStep; by rewrite Hg1|].
  split; [by apply goStep_intro|].
  unfold refresh. change (now c s1) with (now c s).
  destruct (store_spec (now c s) pick s1 Hpool) as (Hfb & _).
  destruct (store_sameEngine (now c s) pick s1) as (_ & Hd & _ & _ & _ & _ & _ & Hp).
  pose proof (store_timeValues (now c s) pick s1) as Htv.
  unfold timeValues in Htv. injection Htv as Hnow Hut Hunt _ _.
  split; [exact Hnow|]. split; [exact Hut|]. split; [exact Hunt|].
  split; [exact Hfb|]. split; [exact Hd|].
  simpl. rewrite Hp. simpl.
  rewrite list_insert_insert_eq, list_lookup_insert_eq by done.
  f_equal. destruct p; simpl in *. by rewrite Hpc.
Qed.

(** X9. When the context handed to [StartTimerD] is cancelled by its owner
    while the goroutine is at a [select], the goroutine can take the
    [Done()] case without any [Stop()]: it clears the flag, leaves the
    snapshot alone and returns for good.  The tick interval is not reset
    on this path: it stays what it was. *)
Theorem context_cancellation_ends_goroutine local c0 pick0 ls s g p :
  run ls (newFastime local c0 pick0) = Some s ->
  procs s !! g = Some p -> pc p = pcSelect \/ pc p = pcNested ->
  exists s1 s2, step (CancelCtx (ct p)) s = Some s1 /\
    obj s1 = obj s /\ heap s1 = heap s /\ procs s1 = procs s /\
    goStep g evDone s1 = Some s2 /\ IsDaemonRunning s2 = false /\
    dur (obj s2) = dur (obj s) /\ snapshot s2 = snapshot s /\
    FormattedBytes s2 = FormattedBytes s /\
    forall ls' s3 e, run ls' s2 = Some s3 -> goStep g e s3 = None.
Proof.
  intros Hrun Hg Hpc.
  pose proof (run_inv _ _ _ (newFastime_inv local c0 pick0) Hrun)
    as (_ & _ & Hlen & Hct & _).
  assert (Hlt : (g < length (procs s))%nat) by (by eapply lookup_lt_Some).
  eexists. eexists. split; [done|]. split; [done|]. split; [done|]. split; [done|].
  split.
  { apply done_step; [done | done |]. unfold isDone. simpl.
    rewrite (Hct _ _ Hg), list_lookup_insert_eq; [done | lia]. }
  split; [done|]. split; [done|]. split; [done|]. split; [done|].
  intros ls' s3 e Hrun3.
  destruct (run_stable _ _ _ g Hrun3) as (_ & Hstay).
  destruct (Hstay {| pc := pcExit; ct := ct p; arg := arg p |}) as (p3 & Hp3 & Hpc3).
  - simpl. by apply list_lookup_insert_eq.
  - done.
  - by eapply exited_no_step.
Qed.

(** ** What a [store] writes *)

Lemma appendBytes_frame h s x i :
  (i < length h)%nat -> i <> arr s ->
  (appendBytes (h, s) x).1 !! i = h !! i /\
  (i < length (appendBytes (h, s) x).1)%nat /\ i <> arr (appendBytes (h, s) x).2.
Proof.
  intros Hlt Hne. unfold appendBytes. case_decide; simpl.
  - rewrite list_lookup_alter_ne by done. by rewrite length_alter.
  - rewrite lookup_app_l by done. rewrite length_app. simpl.
    repeat split; try done; lia.
Qed.

Lemma foldl_appendBytes_frame xs : forall h s i,
  (i < length h)%nat -> i <> arr s ->
  (foldl appendBytes (h, s) xs).1 !! i = h !! i.
Proof.
  induction xs as [|x xs IH]; intros h s i Hlt Hne; [done|]. simpl.
  destruct (appendBytes_frame h s x i Hlt Hne) as (Heq & Hlt1 & Hne1).
  destruct (appendBytes (h, s) x) as [h1 s1]. simpl in *.
  by rewrite IH.
Qed.

Lemma Grow_frame n h b i :
  (i < length h)%nat -> i <> arr (buf b) ->
  (Grow n (h, b)).1 !! i = h !! i /\
  (i < length (Grow n (h, b)).1)%nat /\ i <> arr (buf (Grow n (h, b)).2).
Proof.
  intros Hlt Hne. unfold Grow.
  assert (Harr : arr (buf (if decide (Len b = 0%nat /\ boff b <> 0%nat)
                           then Reset b else b)) = arr (buf b))
    by (by case_decide).
  destruct (decide (Len b = 0%nat /\ boff b <> 0%nat)) as [?|?];
    repeat case_decide; simpl in *;
    rewrite ?list_lookup_alter_ne, ?length_alter, ?lookup_app_l, ?length_app by done;
    simpl; repeat split; try done; lia.
Qed.

Lemma storeBuffer_frame pick s i :
  (i < length (heap s))%nat ->
  (forall k b, pick = Some k -> pool (obj s) !! k = Some b -> arr (buf b) <> i) ->
  (storeBuffer pick s).1.1 !! i = heap s !! i /\
  (i < length (storeBuffer pick s).1.1)%nat /\
  i <> arr (buf (storeBuffer pick s).1.2).
Proof.
  intros Hlt Hpick.
  assert (Hget : (poolGet pick s).2 !! i = heap s !! i /\
                 (i < length (poolGet pick s).2)%nat /\
                 i <> arr (buf (poolGet pick s).1.1)).
  { unfold poolGet. destruct pick as [k|]; simpl.
    - destruct (pool (obj s) !! k) as [b|] eqn:Hk; simpl.
      + repeat split; try done. intros ->. by eapply Hpick.
      + unfold make. simpl. rewrite lookup_app_l, length_app by done.
        simpl. repeat split; try done; lia.
    - unfold make. simpl. rewrite lookup_app_l, length_app by done.
      simpl. repeat split; try done; lia. }
  unfold storeBuffer. destruct (poolGet pick s) as [[b rest] h].
  simpl in Hget. destruct Hget as (Heq & Hlt1 & Hne1).
  case_decide; simpl; [|done].
  destruct (Grow_frame (String.length (GetFormat s)) h b i Hlt1 Hne1)
    as (Heq2 & Hlt2 & Hne2).
  destruct (Grow (String.length (GetFormat s)) (h, b)) as [h2 b2]. simpl in *.
  by rewrite Heq2.
Qed.

(** X10. [store] writes in the array of the buffer it got from the pool or
    in arrays it allocates, nowhere else: every other array of the heap is
    byte for byte what it was, and so is what any slice into it reads.  In
    particular, when the pool has nothing to give and calls [New], nothing
    that existed before the [store] changes. *)
Theorem store_writes_only_its_buffer tm pick s i a :
  heap s !! i = Some a ->
  (forall k b, pick = Some k -> pool (obj s) !! k = Some b -> arr (buf b) <> i) ->
  heap (store tm pick s) !! i = Some a /\
  forall sl, arr sl = i ->
    readSlice (heap (store tm pick s)) sl = readSlice (heap s) sl.
Proof.
  intros Ha Hpick.
  assert (Hlt : (i < length (heap s))%nat) by (by eapply lookup_lt_Some).
  destruct (storeBuffer_frame pick s i Hlt Hpick) as (Heq & Hlt1 & Hne1).
  assert (Hi : heap (store tm pick s) !! i = heap s !! i).
  { rewrite store_unfold. unfold AppendFormat. simpl.
    rewrite foldl_appendBytes_frame; [done | done |].
    unfold Bytes. by simpl. }
  split; [by rewrite Hi|].
  intros sl <-. unfold readSlice. by rewrite Hi.
Qed.

(** X11. The other side of buffer reuse.  Take a [store] whose rendering is
    no longer than the format string, then a second one for which the pool
    hands back the buffer just put and whose rendering is no longer than
    the format string and no shorter than the first.  The slice published
    by the first store, which a reader of [FormattedNow()] may still hold,
    then reads as the beginning of the second rendering, and as the whole
    of it when the two have the same length. *)
Theorem held_slice_overwritten_on_reuse local c0 pick0 ls s tm1 tm2 pick :
  run ls (newFastime local c0 pick0) = Some s ->
  let form := GetFormat s in
  let s1 := store tm1 pick s in
  let s2 := store tm2 lastPut s1 in
  (length (rendered tm1 form) <= length (rendered tm2 form))%nat ->
  (length (rendered tm2 form) <= String.length form)%nat ->
  exists sl, FormattedNow s1 = Some sl /\
    readSlice (heap s1) sl = rendered tm1 form /\
    FormattedBytes s2 = Some (rendered tm2 form) /\
    readSlice (heap s2) sl = take (length (rendered tm1 form)) (rendered tm2 form).
Proof.
  intros Hrun form s1 s2 Hle Hfit.
  destruct (run_inv _ _ _ (newFastime_inv local c0 pick0) Hrun) as (_ & Hpool & _).
  destruct (storeBuffer_spec pick s Hpool) as (Hb & _ & _ & Hcap).
  destruct (store_spec tm1 pick s Hpool) as (Hf1 & Hpool1 & _).
  destruct (store_sameEngine tm1 pick s) as (_ & _ & _ & Hfmt & _).
  fold s1 in Hf1, Hpool1, Hfmt. fold form in Hf1, Hcap.
  change (GetFormat s1 = form) in Hfmt.
  destruct (store_spec tm2 lastPut s1 Hpool1) as (Hf2 & _).
  fold s2 in Hf2. rewrite Hfmt in Hf2.
  set (b := (storeBuffer pick s).1.2) in *.
  destruct Hb as (Hboff & Hoff & Hlen & a & Ha & Hla).
  assert (Hsl1 : FormattedNow s1
            = Some {| arr := arr (buf b); off := 0%nat;
                      len := length (rendered tm1 form); cap := cap (buf b) |}).
  { unfold s1. rewrite store_unfold. unfold FormattedNow, AppendFormat. simpl.
    fold b. rewrite foldl_appendBytes_in_place.
    - unfold Bytes, rendered, form. simpl. rewrite Hboff, Hoff.
      f_equal. f_equal; lia.
    - unfold Bytes. simpl. fold form. fold (rendered tm1 form).
      unfold Cap in Hcap. lia. }
  assert (Hpl1 : pool (obj s1) !! 0%nat = Some b)
    by (unfold s1; by rewrite store_unfold).
  assert (Hsb2 : (storeBuffer lastPut s1).1.2 = b).
  { rewrite storeBuffer_kept; unfold poolGet, lastPut; simpl; rewrite Hpl1; simpl;
      [done | by rewrite Hfmt]. }
  assert (Hsl2 : FormattedNow s2
            = Some {| arr := arr (buf b); off := 0%nat;
                      len := length (rendered tm2 form); cap := cap (buf b) |}).
  { unfold s2. rewrite store_unfold. unfold FormattedNow, AppendFormat. simpl.
    rewrite Hsb2, Hfmt. rewrite foldl_appendBytes_in_place.
    - unfold Bytes, rendered. simpl. rewrite Hboff, Hoff.
      f_equal. f_equal; lia.
    - unfold Bytes. simpl. fold (rendered tm2 form).
      unfold Cap in Hcap. lia. }
  eexists. split; [exact Hsl1|].
  unfold FormattedBytes in Hf1, Hf2. rewrite Hsl1 in Hf1. rewrite Hsl2 in Hf2.
  simpl in Hf1, Hf2. injection Hf1 as Hf1. injection Hf2 as Hr2.
  split; [exact Hf1|].
  split; [unfold FormattedBytes; rewrite Hsl2; simpl; by rewrite Hr2|].
  unfold readSlice in Hr2 |- *. simpl in Hr2 |- *.
  rewrite <- Hr2. rewrite take_take. f_equal. lia.
Qed.

(** ** The accessors together *)

Lemma wrap64_small z : - 2 ^ 63 <= z < 2 ^ 63 -> wrap64 z = z.
Proof.
  unfold wrap64. change (2 ^ 64) with (2 * 2 ^ 63). intros Hz.
  rewrite Z.mod_small; lia.
Qed.

(** ** The setters together *)

(** X13. [SetFormat] and [SetLocation] in either order: when the last of
    the two calls reads the same clock, both orders end with the same
    format, location, instant, integer values and formatted bytes, whatever
    the first call read and whatever the pool did.  Neither order touches
    the flag, the tick interval, the cancel function, the contexts or the
    goroutines. *)
Theorem setters_commute local c0 pick0 ls s form l c c1 c2 p1 p2 p3 p4 :
  run ls (newFastime local c0 pick0) = Some s ->
  let sa := SetLocation l c p2 (SetFormat form c1 p1 s) in
  let sb := SetFormat form c p4 (SetLocation l c2 p3 s) in
  GetFormat sa = form /\ GetFormat sb = form /\
  GetLocation sa = l /\ GetLocation sb = l /\
  timeValues sa = timeValues sb /\ Now sa = Some (clockTime c l) /\
  FormattedBytes sa = Some (rendered (clockTime c l) form) /\
  FormattedBytes sb = Some (rendered (clockTime c l) form) /\
  (forall x, x = sa \/ x = sb ->
     IsDaemonRunning x = IsDaemonRunning s /\ dur (obj x) = dur (obj s) /\
     cancel (obj x) = cancel (obj s) /\ ctxs x = ctxs s /\ procs x = procs s).
Proof.
  intros Hrun sa sb.
  pose proof (run_inv _ _ _ (newFastime_inv local c0 pick0) Hrun) as Hinv.
  destruct (SetFormat_inv form c1 p1 s Hinv) as (_ & Hpa & _).
  destruct (SetLocation_inv l c2 p3 s Hinv) as (_ & Hpb & _).
  set (sa0 := SetFormat form c1 p1 s) in *.
  set (sb0 := SetLocation l c2 p3 s) in *.
  set (sa1 := withObj sa0 (setLocation l (obj sa0)) (heap sa0)).
  set (sb1 := withObj sb0 (setFormat form (obj sb0)) (heap sb0)).
  destruct (store_sameEngine (now c1 (withObj s (setFormat form (obj s)) (heap s))) p1
              (withObj s (setFormat form (obj s)) (heap s)))
    as (Hra0 & Hda0 & _ & Hfa0 & Hla0 & Hca0 & Hxa0 & Hpa0).
  destruct (store_sameEngine (now c2 (withObj s (setLocation l (obj s)) (heap s))) p3
              (withObj s (setLocation l (obj s)) (heap s)))
    as (Hrb0 & Hdb0 & _ & Hfb0 & Hlb0 & Hcb0 & Hxb0 & Hpb0).
  change (store _ p1 _) with sa0 in *. change (store _ p3 _) with sb0 in *.
  simpl in Hra0, Hda0, Hfa0, Hla0, Hca0, Hxa0, Hpa0,
           Hrb0, Hdb0, Hfb0, Hlb0, Hcb0, Hxb0, Hpb0.
  destruct (store_sameEngine (now c sa1) p2 sa1)
    as (Hra & Hda & _ & Hfa & Hla & Hca & Hxa & Hpra).
  destruct (store_sameEngine (now c sb1) p4 sb1)
    as (Hrb & Hdb & _ & Hfb & Hlb & Hcb & Hxb & Hprb).
  change (store (now c sa1) p2 sa1) with sa in *.
  change (store (now c sb1) p4 sb1) with sb in *.
  simpl in Hra, Hda, Hfa, Hla, Hca, Hxa, Hpra, Hrb, Hdb, Hfb, Hlb, Hcb, Hxb, Hprb.
  assert (Hna : now c sa1 = clockTime c l) by done.
  assert (Hnb : now c sb1 = clockTime c l) by (unfold now, GetLocation; simpl; by rewrite Hlb0).
  destruct (store_spec (now c sa1) p2 sa1 Hpa) as (Hba & _).
  destruct (store_spec (now c sb1) p4 sb1 Hpb) as (Hbb & _).
  change (store (now c sa1) p2 sa1) with sa in *.
  change (store (now c sb1) p4 sb1) with sb in *.
  pose proof (store_timeValues (now c sa1) p2 sa1) as Hta.
  pose proof (store_timeValues (now c sb1) p4 sb1) as Htb.
  change (store (now c sa1) p2 sa1) with sa in *.
  change (store (now c sb1) p4 sb1) with sb in *.
  rewrite Hna in Hta, Hba. rewrite Hnb in Htb, Hbb.
  assert (Hfsa : GetFormat sa = form) by (unfold GetFormat; by rewrite Hfa, Hfa0).
  assert (Hfsb : GetFormat sb = form) by (unfold GetFormat; by rewrite Hfb).
  split; [exact Hfsa|]. split; [exact Hfsb|].
  split; [unfold GetLocation; by rewrite Hla|].
  split; [unfold GetLocation; by rewrite Hlb, Hlb0|].
  split; [by rewrite Hta, Htb|].
  split; [unfold timeValues in Hta; by injection Hta|].
  split; [rewrite Hba; f_equal; f_equal; unfold GetFormat; simpl; exact Hfa0|].
  split; [exact Hbb|].
  intros x [-> | ->]; unfold IsDaemonRunning.
  - by rewrite Hra, Hda, Hca, Hxa, Hpra, Hra0, Hda0, Hca0, Hxa0, Hpa0.
  - by rewrite Hrb, Hdb, Hcb, Hxb, Hprb, Hrb0, Hdb0, Hcb0, Hxb0, Hpb0.
Qed.

(** ** Races with the start of a goroutine *)

(** X14. The goroutine first writes [math.MaxInt64] to the tick interval
    and then the interval it was started with.  A tick that another
    goroutine of the same instance takes between the two writes (the one a
    second [StartTimerD] cancelled but which has not returned yet) adds
    [math.MaxInt64] nanoseconds, some 292 years, to the published
    instant. *)
Theorem tick_between_interval_writes local c0 pick0 ls s old new po pn tm pick :
  run ls (newFastime local c0 pick0) = Some s ->
  old <> new ->
  procs s !! new = Some pn -> pc pn = pcSetMax ->
  procs s !! old = Some po -> pc po = pcSelect ->
  Now s = Some tm ->
  exists s1 s2 tm', goStep new evNext s = Some s1 /\
    dur (obj s1) = MaxInt64 /\ Now s1 = Some tm /\
    goStep old (evTick pick) s1 = Some s2 /\ Now s2 = Some tm' /\
    sec tm' * 1000000000 + nsec tm'
      = sec tm * 1000000000 + nsec tm + (2 ^ 63 - 1) /\
    UnixNanoNow s2 = wrap64 (sec tm * 1000000000 + nsec tm + (2 ^ 63 - 1)).
Proof.
  intros Hrun Hne Hnew Hpcn Hold Hpco Hnow.
  destruct (run_inv _ _ _ (newFastime_inv local c0 pick0) Hrun)
    as ((tm0 & Hnow0 & Hv & _) & _).
  rewrite Hnow in Hnow0. injection Hnow0 as <-.
  set (s1 := setPc new pn pcSetDur (onObj (setDur MaxInt64) s)).
  assert (H1 : goStep new evNext s = Some s1).
  { apply goStep_intro; [done|]. unfold procStep. by rewrite Hpcn. }
  assert (Hold1 : procs s1 !! old = Some po)
    by (simpl; by rewrite list_lookup_insert_ne).
  assert (H2 : goStep old (evTick pick) s1
            = Some (setPc old po pcSelect (store (Add tm MaxInt64) pick s1))).
  { apply goStep_intro; [done|]. unfold procStep, update. rewrite Hpco.
    change (Now s1) with (Now s). by rewrite Hnow. }
  destruct (Add_spec tm MaxInt64 Hv) as (_ & Hn & _).
  pose proof (store_timeValues (Add tm MaxInt64) pick s1) as Htv.
  unfold timeValues in Htv. injection Htv as Hnow2 _ Hunt2 _ _.
  exists s1. eexists. exists (Add tm MaxInt64).
  split; [exact H1|]. split; [done|]. split; [exact Hnow|].
  split; [exact H2|]. split; [exact Hnow2|]. split; [exact Hn|].
  change (UnixNanoNow (setPc old po pcSelect (store (Add tm MaxInt64) pick s1)))
    with (UnixNanoNow (store (Add tm MaxInt64) pick s1)).
  rewrite Hunt2. unfold UnixNano. by rewrite Hn.
Qed.

(** X15. [Stop()] between the goroutine's store of the tick interval and
    its [time.NewTicker]: the goroutine has set the flag, so [Stop()]
    cancels and stores 0 in the interval; the goroutine then reads 0 and
    [time.NewTicker] panics, where without the [Stop()] it would have
    entered its loop. *)
Theorem Stop_before_NewTicker_panics local c0 pick0 ls s g p :
  run ls (newFastime local c0 pick0) = Some s ->
  procs s !! g = Some p -> pc p = pcTickers ->
  IsDaemonRunning s = true -> 0 < dur (obj s) ->
  (exists s', goStep g evNext s = Some s' /\
     procs s' !! g = Some {| pc := pcSelect; ct := ct p; arg := arg p |}) /\
  exists s1, Stop s = Some s1 /\ dur (obj s1) = 0 /\
    procs s1 !! g = Some p /\ forall e, goStep g e s1 = None.
Proof.
  intros Hrun Hg Hpc Hr Hd.
  pose proof (reachable_correctionDur _ _ _ _ _ Hrun) as Hcd.
  destruct (run_inv _ _ _ (newFastime_inv local c0 pick0) Hrun)
    as (_ & _ & _ & _ & _ & Hcan).
  assert (Hlt : (g < length (procs s))%nat) by (by eapply lookup_lt_Some).
  destruct Hcan as (c & Hc & _); [by intros Hnil; rewrite Hnil in Hg|].
  split.
  - eexists. split.
    + apply goStep_intro; [done|]. unfold procStep. rewrite Hpc.
      rewrite decide_True; [done|]. rewrite Hcd. unfold Millisecond. lia.
    + by apply setPc_lookup.
  - unfold Stop. rewrite Hr, Hc. eexists. split; [done|]. split; [done|].
    split; [done|]. intros e. unfold goStep. simpl. rewrite Hg. simpl.
    unfold procStep. rewrite Hpc. by destruct e.
Qed.

(** ** Allocation *)

Lemma foldl_appendBytes_no_alloc xs : forall h s,
  (len s + length (concat xs) <= cap s)%nat ->
  length (foldl appendBytes (h, s) xs).1 = length h.
Proof.
  induction xs as [|x xs IH]; intros h s Hfit; [done|].
  simpl in Hfit. rewrite length_app in Hfit. simpl.
  unfold appendBytes at 2. rewrite decide_True by lia.
  rewrite IH by (simpl; lia). by rewrite length_alter.
Qed.

(** X16. The steady state allocates nothing: when the pool hands back a
    buffer whose capacity covers both the format string and the rendering,
    [store] makes no new array and the pool holds as many buffers after it
    as before; the published slice lies in that buffer's array. *)
Theorem store_reuse_allocates_nothing local c0 pick0 ls s tm k b :
  run ls (newFastime local c0 pick0) = Some s ->
  pool (obj s) !! k = Some b ->
  (String.length (GetFormat s) <= Cap b)%nat ->
  (length (rendered tm (GetFormat s)) <= Cap b)%nat ->
  length (heap (store tm (Some k) s)) = length (heap s) /\
  length (pool (obj (store tm (Some k) s))) = length (pool (obj s)) /\
  pool (obj (store tm (Some k) s)) !! 0%nat = Some b /\
  exists sl, FormattedNow (store tm (Some k) s) = Some sl /\ arr sl = arr (buf b) /\
    readSlice (heap (store tm (Some k) s)) sl = rendered tm (GetFormat s).
Proof.
  intros Hrun Hk Hform Hfit.
  destruct (run_inv _ _ _ (newFastime_inv local c0 pick0) Hrun) as (_ & Hpool & _).
  assert (Hget : poolGet (Some k) s = (b, delete k (pool (obj s)), heap s))
    by (unfold poolGet; simpl; by rewrite Hk).
  assert (Hsb : storeBuffer (Some k) s = (heap s, b, delete k (pool (obj s)))).
  { unfold storeBuffer. rewrite Hget. by rewrite decide_False by lia. }
  destruct (proj1 (Forall_lookup _ _) Hpool _ _ Hk) as (Hboff & Hoff & Hlen & _).
  destruct (store_spec tm (Some k) s Hpool) as (Hf & _).
  assert (Hin : (len (sliceTo (Bytes b) 0)
                 + length (concat (layoutChunks tm (GetFormat s)))
                 <= cap (sliceTo (Bytes b) 0))%nat).
  { unfold Bytes. simpl. rewrite Hboff. unfold Cap, rendered in Hfit. lia. }
  revert Hf. unfold FormattedBytes, FormattedNow.
  rewrite store_unfold, Hsb. unfold AppendFormat. simpl. intros [= Hf].
  split; [by apply foldl_appendBytes_no_alloc|].
  split.
  { rewrite length_delete by eauto.
    apply lookup_lt_Some in Hk. lia. }
  split; [done|].
  eexists. split; [done|].
  split; [by rewrite foldl_appendBytes_in_place|exact Hf].
Qed.

(** ** The flag and the goroutines *)

Lemma procStep_running e p s q s1 :
  procStep e p s = Some (q, s1) ->
  (pc p = pcStart /\ q = pcSetMax /\ running (obj s1) = true) \/
  (q = pcExit /\ running (obj s1) = false) \/
  (pc p <> pcStart /\ q <> pcStart /\ q <> pcExit /\
   running (obj s1) = running (obj s)).
Proof.
  unfold procStep.
  destruct (pc p), e; try done;
    try (intros [= <- <-]; simpl; by auto 10).
  - case_decide; [|done]. intros [= <- <-]. by auto 10.
  - destruct (isDone (ct p) s); [|done]. intros [= <- <-]. by auto.
  - unfold update. destruct (Now s) as [tm|]; [|done]. simpl.
    intros [= <- <-]. right. right.
    destruct (store_sameEngine (Add tm (dur (obj s))) pick s) as (-> & _). done.
  - destruct (isDone (ct p) s); [|done]. intros [= <- <-]. by auto.
  - intros [= <- <-]. right. right. unfold refresh.
    destruct (store_sameEngine (now c s) pick s) as (-> & _). done.
Qed.

Lemma Stop_running s s1 :
  Stop s = Some s1 -> running (obj s1) = running (obj s) /\ procs s1 = procs s.
Proof.
  unfold Stop, IsDaemonRunning. destruct (running (obj s)) eqn:Hr.
  - destruct (cancel (obj s)); [|done]. by intros [= <-].
  - by intros [= <-].
Qed.

Lemma step_started l s s' :
  step l s = Some s' ->
  (IsDaemonRunning s = true -> exists g p, procs s !! g = Some p /\ started p = true) ->
  IsDaemonRunning s' = true -> exists g p, procs s' !! g = Some p /\ started p = true.
Proof.
  unfold IsDaemonRunning. destruct l; simpl.
  - intros [= <-]. unfold SetFormat, refresh.
    match goal with |- context [store ?tm0 pick ?s1] =>
      destruct (store_sameEngine tm0 pick s1) as (-> & _ & _ & _ & _ & _ & _ & ->) end.
    done.
  - intros [= <-]. unfold SetLocation, refresh.
    match goal with |- context [store ?tm0 pick ?s1] =>
      destruct (store_sameEngine tm0 pick s1) as (-> & _ & _ & _ & _ & _ & _ & ->) end.
    done.
  - intros Hstop. destruct (Stop_running _ _ Hstop) as (-> & ->). done.
  - unfold StartTimerD. intros Hstart Hs Hr'.
    destruct (if IsDaemonRunning s then Stop s else Some s) as [s1|] eqn:H1; [|done].
    simpl in Hstart. injection Hstart as <-. simpl in Hr' |- *.
    unfold refresh in Hr' |- *.
    destruct (store_sameEngine (now c s1) pick s1)
      as (Hr2 & _ & _ & _ & _ & _ & _ & Hp2).
    rewrite Hr2 in Hr'. rewrite Hp2.
    assert (H1' : running (obj s1) = running (obj s) /\ procs s1 = procs s).
    { destruct (IsDaemonRunning s); [by apply Stop_running | by injection H1 as <-]. }
    destruct H1' as (Hr1 & Hp1). rewrite Hr1 in Hr'. rewrite Hp1.
    destruct (Hs Hr') as (g & p & Hg & Hl).
    exists g, p. split; [|done]. by apply lookup_app_l_Some.
  - by intros [= <-].
  - unfold goStep. destruct (procs s !! g) as [p|] eqn:Hg; [|done]. simpl.
    destruct (procStep e p s) as [[q s1]|] eqn:Hp; [|done]. simpl.
    intros [= <-] Hs Hr'. simpl in Hr' |- *.
    destruct (procStep_engine _ _ _ _ _ Hp) as (Hprocs & _). rewrite Hprocs.
    assert (Hlt : (g < length (procs s))%nat) by (by eapply lookup_lt_Some).
    destruct (procStep_running _ _ _ _ _ Hp)
      as [(_ & -> & _) | [(_ & Hf) | (_ & Hq1 & Hq2 & Hsame)]].
    + exists g. eexists. split; [by apply list_lookup_insert_eq|done].
    + congruence.
    + rewrite Hsame in Hr'. destruct (Hs Hr') as (g' & p' & Hg' & Hl').
      destruct (decide (g = g')) as [<-|Hne].
      * exists g. eexists. split; [by apply list_lookup_insert_eq|].
        unfold started. simpl. by destruct q.
      * exists g', p'. split; [by rewrite list_lookup_insert_ne|done].
Qed.

Lemma run_started ls : forall s s',
  run ls s = Some s' ->
  (IsDaemonRunning s = true -> exists g p, procs s !! g = Some p /\ started p = true) ->
  IsDaemonRunning s' = true -> exists g p, procs s' !! g = Some p /\ started p = true.
Proof.
  induction ls as [|l ls IH]; intros s s'; simpl.
  - by intros [= <-].
  - destruct (step l s) as [s1|] eqn:Hstep; [|done]. simpl. intros Hrun Hs.
    eapply IH; [exact Hrun|]. by eapply step_started.
Qed.

(** X17. While [IsDaemonRunning()] returns true there is a goroutine of
    this instance that has set the flag and has not returned.  (The
    converse fails: a goroutine can be in its loop while the flag is
    false.) *)
Theorem flag_set_means_goroutine_started local c0 pick0 ls s :
  run ls (newFastime local c0 pick0) = Some s ->
  IsDaemonRunning s = true ->
  exists g p, procs s !! g = Some p /\ started p = true /\
    pc p <> pcStart /\ pc p <> pcExit.
Proof.
  intros Hrun Hr.
  destruct (run_started _ _ _ Hrun) as (g & p & Hg & Hl); [|done|].
  - intros Hr0. destruct (newFastime_stopped local c0 pick0) as (Hs0 & _).
    by rewrite Hs0 in Hr0.
  - exists g, p. split; [done|]. split; [done|].
    unfold started in Hl. by destruct (pc p).
Qed.

(** ** Threads that run alone *)

Lemma texec_step chs ins ch rest s s1 c1 :
  exec ins ch s = Some (s1, c1, []) ->
  texec (ch :: chs) (ins :: rest) s = texec chs (c1 ++ rest) s1.
Proof.
  intros He. simpl. rewrite He. simpl.
  by destruct (texec chs (c1 ++ rest) s1) as [[[? ?] ?]|].
Qed.

Lemma texec_poolGet chs tm form pick rest s :
  texec (chPick pick :: chs) (iPoolGet tm form :: rest) s =
  texec chs (iGrow tm form (poolGet pick s).1.1 :: rest)
    (withObj s (setPool (poolGet pick s).1.2 (obj s)) (poolGet pick s).2).
Proof.
  simpl. destruct (poolGet pick s) as [[b r] h]. simpl.
  by destruct (texec chs (iGrow tm form b :: rest) _) as [[[? ?] ?]|].
Qed.

Lemma texec_grow chs tm form b rest s :
  let hb := if decide (Cap b < String.length form)%nat
            then Grow (String.length form) (heap s, b) else (heap s, b) in
  texec (chNone :: chs) (iGrow tm form b :: rest) s =
  texec chs (iAppend hb.2 (sliceTo (Bytes hb.2) 0) (layoutChunks tm form) :: rest)
    (withObj s (obj s) hb.1).
Proof.
  intros hb. simpl. fold hb. destruct hb as [h b']. simpl.
  by destruct (texec chs _ _) as [[[? ?] ?]|].
Qed.

Lemma texec_append b rest chs : forall chunks out s,
  texec (replicate (S (length chunks)) chNone ++ chs) (iAppend b out chunks :: rest) s =
  texec chs (iStoreFt b (foldl appendBytes (heap s, out) chunks).2 :: rest)
    (withObj s (obj s) (foldl appendBytes (heap s, out) chunks).1).
Proof.
  induction chunks as [|x xs IH]; intros out s.
  - simpl replicate. simpl app. erewrite texec_step; [|reflexivity]. done.
  - change (replicate (S (length (x :: xs))) chNone ++ chs)
      with (chNone :: (replicate (S (length xs)) chNone ++ chs)).
    cbn [texec exec foldl]. destruct (appendBytes (heap s, out) x) as [h out'].
    cbn [mbind option_bind fst snd app]. rewrite IH. simpl.
    by destruct (texec chs _ _) as [[[? ?] ?]|].
Qed.

Lemma storeBuffer_unfold pick s :
  storeBuffer pick s =
  let g := poolGet pick s in
  let hb := if decide (Cap g.1.1 < String.length (GetFormat s))%nat
            then Grow (String.length (GetFormat s)) (g.2, g.1.1) else (g.2, g.1.1) in
  (hb.1, hb.2, g.1.2).
Proof.
  unfold storeBuffer. destruct (poolGet pick s) as [[b r] h]. simpl.
  case_decide; [|done]. by destruct (Grow _ _).
Qed.

(** The statements of [store(t)], run by one thread with no step of another
    thread in between, are the function [store]. *)
Lemma texec_store tm pick rest chs s :
  texec (storeChoices pick (length (layoutChunks tm (GetFormat s))) ++ chs)
    (storeCode tm ++ rest) s
  = texec chs rest (store tm pick s).
Proof.
  unfold storeChoices, storeCode. rewrite <- !app_assoc.
  change (replicate 6 chNone) with [chNone; chNone; chNone; chNone; chNone; chNone].
  simpl app.
  do 6 (erewrite texec_step; [|reflexivity]; simpl app).
  rewrite texec_poolGet, texec_grow.
  change (chNone :: replicate (length (layoutChunks tm (GetFormat s))) chNone
            ++ chNone :: chNone :: chs)
    with (replicate (S (length (layoutChunks tm (GetFormat s)))) chNone
            ++ chNone :: chNone :: chs).
  rewrite texec_append.
  do 2 (erewrite texec_step; [|reflexivity]; simpl app).
  f_equal. rewrite store_unfold, storeBuffer_unfold. reflexivity.
Qed.

Lemma texec_refresh c pick rest chs s :
  texec (refreshChoices c pick (length (layoutChunks (now c s) (GetFormat s))) ++ chs)
    (iNow :: rest) s
  = texec chs rest (refresh c pick s).
Proof.
  unfold refreshChoices. simpl app. erewrite texec_step; [|reflexivity].
  apply texec_store.
Qed.

Lemma texec_update tm pick rest chs s :
  Now s = Some tm ->
  texec (updateChoices pick
           (length (layoutChunks (Add tm (dur (obj s))) (GetFormat s))) ++ chs)
    (iLoadNow :: rest) s
  = texec chs rest (store (Add tm (dur (obj s))) pick s).
Proof.
  intros Hnow. unfold updateChoices. simpl app.
  erewrite texec_step; [|simpl; by rewrite Hnow]. simpl app.
  erewrite texec_step; [|reflexivity]. apply texec_store.
Qed.

Lemma texec_SetFormat form c pick rest chs s :
  texec (setterChoices c pick
           (length (layoutChunks (clockTime c (GetLocation s)) form)) ++ chs)
    (opCode (opSetFormat form) ++ rest) s
  = texec chs rest (SetFormat form c pick s).
Proof.
  unfold setterChoices. simpl app. erewrite texec_step; [|reflexivity]. simpl app.
  apply (texec_refresh c pick rest chs (onObj (setFormat form) s)).
Qed.

Lemma texec_SetLocation l c pick rest chs s :
  texec (setterChoices c pick
           (length (layoutChunks (clockTime c l) (GetFormat s))) ++ chs)
    (opCode (opSetLocation l) ++ rest) s
  = texec chs rest (SetLocation l c pick s).
Proof.
  unfold setterChoices. simpl app. erewrite texec_step; [|reflexivity]. simpl app.
  apply (texec_refresh c pick rest chs (onObj (setLocation l) s)).
Qed.

(** The steps of a thread that runs alone, as a run of the whole
    system. *)
Lemma mrun_alone i chs : forall m code s' code' sp,
  threads m !! i = Some code ->
  texec chs code (shared m) = Some (s', code', sp) ->
  mrun (alone i chs) m
  = Some {| shared := s'; threads := <[i := code']> (threads m) ++ sp |}.
Proof.
  induction chs as [|ch chs IH]; intros m code s' code' sp Hi Ht.
  - simpl in Ht. injection Ht as <- <- <-. simpl.
    rewrite list_insert_id by done. rewrite app_nil_r. by destruct m.
  - assert (Hlt : (i < length (threads m))%nat) by (by eapply lookup_lt_Some).
    simpl in Ht. destruct code as [|ins rest]; [done|].
    destruct (exec ins ch (shared m)) as [[[s1 c1] sp1]|] eqn:He; [|done].
    simpl in Ht.
    destruct (texec chs (c1 ++ rest) s1) as [[[s2 c2] sp2]|] eqn:Ht2; [|done].
    simpl in Ht. injection Ht as <- <- <-.
    simpl. rewrite Hi. simpl. rewrite He. simpl.
    erewrite IH; [| |exact Ht2].
    + simpl. rewrite insert_app_l by (by rewrite length_insert).
      by rewrite list_insert_insert_eq, <- app_assoc.
    + simpl. rewrite lookup_app_l by (by rewrite length_insert).
      by apply list_lookup_insert_eq.
Qed.

Lemma mrun_app ls1 : forall ls2 m,
  mrun (ls1 ++ ls2) m = m' ← mrun ls1 m; mrun ls2 m'.
Proof.
  induction ls1 as [|l ls1 IH]; intros ls2 m; [done|]. simpl.
  destruct (mstep l m); [apply IH | done].
Qed.

(** ** What every interleaving keeps *)

Lemma grows_refl s : grows s s.
Proof. split; [apply heapExt_refl | done]. Qed.

Lemma wfSlice_ext h h' sl : heapExt h h' -> wfSlice h sl -> wfSlice h' sl.
Proof.
  intros Hext (a & Ha & Hb). destruct (Hext _ _ Ha) as (a' & Ha' & Hl).
  exists a'. by rewrite Hl.
Qed.

Lemma instrOk_grows s s' ins : grows s s' -> instrOk s ins -> instrOk s' ins.
Proof.
  intros (Hext & Hc). destruct ins; simpl; try done;
    eauto using wfBuffer_ext, wfSlice_ext.
  - intros (? & ?). eauto using wfBuffer_ext, wfSlice_ext.
  - by destruct r.
Qed.

Lemma pool_grows h h' p :
  heapExt h h' -> Forall (wfBuffer h) p -> Forall (wfBuffer h') p.
Proof.
  intros Hext Hp. eapply Forall_impl; [exact Hp|]. intros b. by apply wfBuffer_ext.
Qed.

Lemma storeCode_ok s tm : validTime tm -> Forall (instrOk s) (storeCode tm).
Proof.
  intros Hv. unfold storeCode.
  repeat (apply Forall_cons_2; [by simpl|]). apply Forall_nil_2.
Qed.

Lemma sharedOk_same s s' :
  heap s' = heap s -> pool (obj s') = pool (obj s) -> Now s' = Now s ->
  running (obj s') = running (obj s) -> cancel (obj s') = cancel (obj s) ->
  length (ctxs s') = length (ctxs s) ->
  sharedOk s -> sharedOk s'.
Proof.
  unfold sharedOk, IsDaemonRunning. by intros -> -> -> -> -> ->.
Qed.

Lemma grows_same s s' :
  heap s' = heap s -> cancel (obj s') = cancel (obj s) -> grows s s'.
Proof. intros Hh Hc. unfold grows. rewrite Hh, Hc. split; [apply heapExt_refl|done]. Qed.

Lemma sharedOk_heap s h :
  heapExt (heap s) h -> sharedOk s -> sharedOk (withObj s (obj s) h).
Proof.
  intros Hext (Hpool & Hrest). split; [|done]. by eapply pool_grows.
Qed.

(** A statement keeps the shared state well formed, and what it leaves to
    run, in its own thread and in a goroutine it starts, has well-formed
    locals. *)
Lemma exec_ok ins ch s s' code sp :
  exec ins ch s = Some (s', code, sp) ->
  sharedOk s -> instrOk s ins ->
  sharedOk s' /\ grows s s' /\ Forall (instrOk s') code /\
  Forall (Forall (instrOk s')) sp.
Proof.
  intros He Hs Hins.
  assert (Hsame : forall s1, heap s1 = heap s -> pool (obj s1) = pool (obj s) ->
            Now s1 = Now s -> running (obj s1) = running (obj s) ->
            cancel (obj s1) = cancel (obj s) ->
            length (ctxs s1) = length (ctxs s) ->
            sharedOk s1 /\ grows s s1).
  { intros s1 ? ? ? ? ? ?. split; [by eapply sharedOk_same | by apply grows_same]. }
  pose proof Hs as (Hpool & (tm0 & Hnow & Hv0) & Hrun & Hctx).
  destruct ins; destruct ch; simpl in He; try done;
    try (by destruct chunks); try (by destruct ctx).
  - (* iStoreT *)
    injection He as <- <- <-. split; [|split; [by apply grows_same|by split]].
    split; [done|]. split; [by exists tm | done].
  - injection He as <- <- <-. destruct (Hsame (onObj (setUt x) s)); by try done.
  - injection He as <- <- <-. destruct (Hsame (onObj (setUnt x) s)); by try done.
  - injection He as <- <- <-.
    destruct (Hsame (onObj (setUut (castUint32 x)) s)); by try done.
  - injection He as <- <- <-.
    destruct (Hsame (onObj (setUunt (castUint32 x)) s)); by try done.
  - (* iGetFormat *)
    injection He as <- <- <-. destruct (Hsame s); try done.
    split; [done|]. split; [done|]. split; [|done]. by apply Forall_singleton.
  - (* iPoolGet *)
    destruct (poolGet_spec pick s Hpool) as (Hb & Hrest & Hext).
    destruct (poolGet pick s) as [[b r] h]. simpl in Hb, Hrest, Hext.
    injection He as <- <- <-.
    split; [split; [done|]; split; [by exists tm0|done]|].
    split; [by split|]. split; [|done]. by apply Forall_singleton.
  - (* iGrow *)
    simpl in Hins.
    assert (Hg : let hb := if decide (Cap b < String.length form)%nat
                           then Grow (String.length form) (heap s, b) else (heap s, b) in
                 wfBuffer hb.1 hb.2 /\ heapExt (heap s) hb.1).
    { case_decide.
      - destruct (Grow_spec (String.length form) (heap s) b Hins) as (? & ? & _); done.
      - simpl. split; [done | apply heapExt_refl]. }
    destruct (if decide (Cap b < String.length form)%nat
              then Grow (String.length form) (heap s, b) else (heap s, b)) as [h b'].
    simpl in Hg. destruct Hg as (Hb & Hext). injection He as <- <- <-.
    split; [by apply sharedOk_heap|]. split; [by split|]. split; [|done].
    apply Forall_singleton. split; [done | by apply wfBuffer_Bytes].
  - (* iAppend *)
    destruct Hins as (Hb & Hout). destruct chunks as [|x xs].
    + injection He as <- <- <-. split; [apply sharedOk_heap; [apply heapExt_refl|done]|].
      split; [apply grows_same; done|]. split; [|done]. by apply Forall_singleton.
    + destruct (appendBytes_spec (heap s) out x Hout) as (_ & Hout' & Hext).
      destruct (appendBytes (heap s, out) x) as [h out']. simpl in Hout', Hext.
      injection He as <- <- <-.
      split; [by apply sharedOk_heap|]. split; [by split|]. split; [|done].
      apply Forall_singleton. split; [by eapply wfBuffer_ext | done].
  - (* iStoreFt *)
    injection He as <- <- <-. destruct (Hsame (onObj (setFt (Some out)) s)); try done.
    split; [done|]. split; [done|]. split; [|done]. by apply Forall_singleton.
  - (* iPoolPut *)
    injection He as <- <- <-. split; [|split; [by apply grows_same|by split]].
    split; [|split; [by exists tm0|done]]. simpl. by apply Forall_cons_2.
  - (* iNow *)
    injection He as <- <- <-. destruct (Hsame s); try done.
    split; [done|]. split; [done|]. split; [|done].
    apply storeCode_ok, clockTime_valid.
  - (* iLoadNow *)
    rewrite Hnow in He. simpl in He. injection He as <- <- <-.
    destruct (Hsame s); try done.
    split; [done|]. split; [done|]. split; [|done]. by apply Forall_singleton.
  - (* iLoadDur *)
    injection He as <- <- <-. destruct (Hsame s); try done.
    split; [done|]. split; [done|]. split; [|done].
    apply storeCode_ok. by apply Add_spec.
  - injection He as <- <- <-. destruct (Hsame (onObj (setFormat form) s)); by try done.
  - injection He as <- <- <-. destruct (Hsame (onObj (setLocation l) s)); by try done.
  - (* iStopCheck *)
    injection He as <- <- <-. destruct (Hsame s); try done.
    split; [done|]. split; [done|]. split; [|done].
    destruct (IsDaemonRunning s) eqn:Hr; [|done].
    apply Forall_cons_2; [by apply Hrun|]. by apply Forall_singleton.
  - (* iCancel *)
    destruct (cancel (obj s)) as [c|] eqn:Hc; [|done]. simpl in He.
    injection He as <- <- <-.
    destruct (Hsame (cancelCtx c s)); try done.
    simpl. by rewrite length_insert.
  - injection He as <- <- <-. destruct (Hsame (onObj (setDur d) s)); by try done.
  - (* iStartCheck *)
    injection He as <- <- <-. destruct (Hsame s); try done.
    split; [done|]. split; [done|]. split; [|done].
    destruct (IsDaemonRunning s); [by apply Forall_singleton | done].
  - (* iWithCancel *)
    destruct ctx as [pd|]; [|done]. injection He as <- <- <-.
    split; [split; [done|]; split; [by exists tm0|]; split; [by eauto|]|].
    { simpl. intros c [= <-]. rewrite length_app. simpl. lia. }
    split; [split; [apply heapExt_refl|by eauto]|]. split; [|done].
    apply Forall_singleton. simpl. by eauto.
  - (* iGo *)
    injection He as <- <- <-. destruct (Hsame s); try done.
    split; [done|]. split; [done|]. split; [done|].
    apply Forall_singleton. unfold goroutine.
    apply Forall_cons_2; [exact Hins|].
    repeat (apply Forall_cons_2; [by simpl|]). apply Forall_nil_2.
  - (* iSetRunning *)
    injection He as <- <- <-. split; [|split; [by apply grows_same|by split]].
    split; [done|]. split; [by exists tm0|]. split; [|done].
    unfold IsDaemonRunning. simpl. intros ->. exact Hins.
  - (* iNewTicker *)
    case_decide; [|done]. injection He as <- <- <-. destruct (Hsame s); by try done.
  - case_decide; [|done]. injection He as <- <- <-. destruct (Hsame s); by try done.
  - (* iLoop *)
    destruct (isDone ct0 s); [|done]. injection He as <- <- <-.
    destruct (Hsame s); try done.
    split; [done|]. split; [done|]. split; [|done]. by apply Forall_singleton.
  - injection He as <- <- <-. destruct (Hsame s); try done.
    split; [done|]. split; [done|]. split; [|done].
    by repeat (apply Forall_cons_2; [by simpl|]).
  - injection He as <- <- <-. destruct (Hsame s); try done.
    split; [done|]. split; [done|]. split; [|done]. by apply Forall_singleton.
  - (* iNested *)
    destruct (isDone ct0 s); [|done]. injection He as <- <- <-.
    destruct (Hsame s); try done.
    split; [done|]. split; [done|]. split; [|done]. by apply Forall_singleton.
  - injection He as <- <- <-. destruct (Hsame s); try done.
    split; [done|]. split; [done|]. split; [|done].
    by repeat (apply Forall_cons_2; [by simpl|]).
Qed.

Lemma mstep_minv l m m' : mstep l m = Some m' -> minv m -> minv m'.
Proof.
  intros Hstep (Hs & Hth). destruct l as [op | i ch | c]; simpl in Hstep.
  - injection Hstep as <-. split; [done|]. simpl.
    apply Forall_app. split; [done|]. apply Forall_singleton.
    destruct op; simpl; repeat (apply Forall_cons_2; [by simpl|]); apply Forall_nil_2.
  - destruct (threads m !! i) as [code|] eqn:Hi; [|done]. simpl in Hstep.
    destruct code as [|ins rest]; [done|].
    destruct (exec ins ch (shared m)) as [[[s1 c1] sp]|] eqn:He; [|done].
    simpl in Hstep. injection Hstep as <-.
    pose proof (Forall_lookup_1 _ _ _ _ Hth Hi) as Hcode.
    apply Forall_cons in Hcode as (Hins & Hrest).
    destruct (exec_ok _ _ _ _ _ _ He Hs Hins) as (Hs1 & Hg & Hc1 & Hsp).
    assert (Hmono : forall code, Forall (instrOk (shared m)) code ->
                                 Forall (instrOk s1) code).
    { intros code Hc. eapply Forall_impl; [exact Hc|]. intros x. by apply instrOk_grows. }
    split; [done|]. simpl. apply Forall_app. split; [|done].
    apply Forall_insert.
    + eapply Forall_impl; [exact Hth | exact Hmono].
    + apply Forall_app. split; [done | by apply Hmono].
  - injection Hstep as <-. split.
    + apply (sharedOk_same (shared m)); try done. simpl. by rewrite length_insert.
    + simpl. eapply Forall_impl; [exact Hth|]. intros code Hc.
      eapply Forall_impl; [exact Hc|].
      intros x. apply instrOk_grows. by apply grows_same.
Qed.

Lemma mrun_minv ls : forall m m', mrun ls m = Some m' -> minv m -> minv m'.
Proof.
  induction ls as [|l ls IH]; intros m m'; simpl.
  - by intros [= <-].
  - destruct (mstep l m) as [m1|] eqn:Hstep; [|done]. simpl. intros Hrun Hm.
    eapply IH; [exact Hrun|]. by eapply mstep_minv.
Qed.

Lemma minit_minv local c pick : minv (minit local c pick).
Proof.
  destruct (newFastime_inv local c pick) as ((tm & Hnow & Hv & _) & Hpool & _).
  destruct (newFastime_stopped local c pick) as (Hr & _).
  destruct (newFastime_stopped local c pick) as (_ & Hc & _).
  split; [|by apply Forall_nil_2]. split; [done|]. split; [by exists tm|].
  simpl. split; [by rewrite Hr | by rewrite Hc].
Qed.

Lemma reachable_minv local c0 pick0 ls m :
  mrun ls (minit local c0 pick0) = Some m -> minv m.
Proof. intros Hrun. eapply mrun_minv; [exact Hrun | apply minit_minv]. Qed.

(** A [store] that runs alone, in a state that any interleaving has
    reached. *)
Lemma store_alone m i tm rest pick :
  threads m !! i = Some (storeCode tm ++ rest) ->
  mrun (alone i (storeChoices pick (length (layoutChunks tm (GetFormat (shared m)))))) m
  = Some {| shared := store tm pick (shared m); threads := <[i := rest]> (threads m) |}.
Proof.
  intros Hi. erewrite mrun_alone; [|exact Hi|].
  - by rewrite app_nil_r.
  - rewrite <- (app_nil_r (storeChoices _ _)). by rewrite texec_store.
Qed.

(** ** The snapshot *)

(** Outside the statements of [store] and the store of the format, no
    statement touches the snapshot, the format or the heap. *)
Lemma exec_outside ins ch s s' code sp :
  exec ins ch s = Some (s', code, sp) ->
  storeStatement ins = false -> formatStore ins = false ->
  snapshot s' = snapshot s /\ heap s' = heap s /\ GetFormat s' = GetFormat s.
Proof.
  intros He Hst Hfs.
  destruct ins; try done; destruct ch; simpl in He; try done;
    try (by destruct ctx); try (by injection He as <- <- <-).
  - by destruct (Now s); [injection He as <- <- <-|].
  - by destruct (cancel (obj s)); [injection He as <- <- <-|].
  - by destruct ctx; [injection He as <- <- <-|].
  - by case_decide; [injection He as <- <- <-|].
  - by case_decide; [injection He as <- <- <-|].
  - by destruct (isDone ct0 s); [injection He as <- <- <-|].
  - by destruct (isDone ct0 s); [injection He as <- <- <-|].
Qed.

Lemma mstep_outside l m m' :
  mstep l m = Some m' -> outsideStore l m ->
  snapshot (shared m') = snapshot (shared m) /\
  FormattedBytes (shared m') = FormattedBytes (shared m) /\
  GetFormat (shared m') = GetFormat (shared m).
Proof.
  destruct l as [op | i ch | c]; simpl.
  - by intros [= <-].
  - destruct (threads m !! i) as [[|ins rest]|] eqn:Hi; try done. simpl.
    destruct (exec ins ch (shared m)) as [[[s1 c1] sp]|] eqn:He; [|done]. simpl.
    intros [= <-] Hout. simpl.
    destruct (Hout i ch ins rest eq_refl Hi) as (Hst & Hfs).
    destruct (exec_outside _ _ _ _ _ _ He Hst Hfs) as (Hsn & Hh & Hf).
    split; [done|]. split; [|done].
    assert (Hft : FormattedNow s1 = FormattedNow (shared m))
      by (unfold snapshot in Hsn; by injection Hsn).
    unfold FormattedBytes. by rewrite Hh, Hft.
  - by intros [= <-].
Qed.

(** The instant and the four integers are written by the statements of
    [store] and by nothing else. *)
Lemma exec_timeValues ins ch s s' code sp :
  exec ins ch s = Some (s', code, sp) -> storeStatement ins = false ->
  timeValues s' = timeValues s.
Proof.
  intros He Hst.
  destruct ins; try done; destruct ch; simpl in He; try done;
    try (by destruct ctx); try (by injection He as <- <- <-).
  - by destruct (Now s); [injection He as <- <- <-|].
  - by destruct (cancel (obj s)); [injection He as <- <- <-|].
  - by destruct ctx; [injection He as <- <- <-|].
  - by case_decide; [injection He as <- <- <-|].
  - by case_decide; [injection He as <- <- <-|].
  - by destruct (isDone ct0 s); [injection He as <- <- <-|].
  - by destruct (isDone ct0 s); [injection He as <- <- <-|].
Qed.

Lemma mstep_timeValues l m m' :
  mstep l m = Some m' -> noStoreStep l m ->
  timeValues (shared m') = timeValues (shared m).
Proof.
  destruct l as [op | i ch | c]; simpl.
  - by intros [= <-].
  - destruct (threads m !! i) as [[|ins rest]|] eqn:Hi; try done. simpl.
    destruct (exec ins ch (shared m)) as [[[s1 c1] sp]|] eqn:He; [|done]. simpl.
    intros [= <-] Hout. simpl.
    by eapply exec_timeValues; [exact He | eapply Hout].
  - by intros [= <-].
Qed.

(** C1, as amended.  In any state that any interleaving of calls and
    goroutine steps has reached: a [store(t)] that runs from its first
    statement to its last with no step of another thread in between leaves
    every snapshot field derived from [t]: [Now()] is [t], [UnixNow()] is
    [Now().Unix()], [UnixNanoNow()] is [Now().UnixNano()] and the slice of
    [FormattedNow()] reads as [Now()] in the current format; and in any
    state a step that runs no statement of a [store] and does not store the
    format leaves the snapshot, what the published slice reads and the
    format as they are. *)
Theorem store_alone_publishes_one_instant local c0 pick0 ls m i tm rest pick :
  mrun ls (minit local c0 pick0) = Some m ->
  threads m !! i = Some (storeCode tm ++ rest) ->
  (exists m',
     mrun (alone i (storeChoices pick
                      (length (layoutChunks tm (GetFormat (shared m)))))) m
       = Some m' /\
     threads m' !! i = Some rest /\
     Now (shared m') = Some tm /\
     UnixNow (shared m') = Unix tm /\
     UnixNanoNow (shared m') = UnixNano tm /\
     FormattedBytes (shared m') = Some (rendered tm (GetFormat (shared m')))) /\
  (forall l m0 m1, mstep l m0 = Some m1 -> outsideStore l m0 ->
     snapshot (shared m1) = snapshot (shared m0) /\
     FormattedBytes (shared m1) = FormattedBytes (shared m0) /\
     GetFormat (shared m1) = GetFormat (shared m0)).
Proof.
  intros Hrun Hi.
  destruct (reachable_minv _ _ _ _ _ Hrun) as ((Hpool & _) & _).
  split; [|intros l m0 m1; apply mstep_outside].
  eexists. split; [by apply store_alone|]. simpl.
  destruct (store_spec tm pick (shared m) Hpool) as (Hf & _).
  destruct (store_sameEngine tm pick (shared m)) as (_ & _ & _ & Hfmt & _).
  pose proof (store_timeValues tm pick (shared m)) as Htv.
  unfold timeValues in Htv. injection Htv as Hnow Hut Hunt _ _.
  split; [apply list_lookup_insert_eq; by eapply lookup_lt_Some|].
  split; [done|]. split; [done|]. split; [done|].
  unfold GetFormat. by rewrite Hfmt.
Qed.

(** ** The 32-bit cast *)

(** C2, as amended.  On a little-endian target, in any state that any
    interleaving has reached: a [store(t)] that runs with no step of
    another thread in between leaves the compact accessors equal to the
    64-bit ones modulo 2^32; and in any state a step that runs no
    statement of a [store] leaves all four as they are. *)
Theorem store_alone_compact_low_32_bits local c0 pick0 ls m i tm rest pick :
  mrun ls (minit local c0 pick0) = Some m ->
  threads m !! i = Some (storeCode tm ++ rest) ->
  (exists m',
     mrun (alone i (storeChoices pick
                      (length (layoutChunks tm (GetFormat (shared m)))))) m
       = Some m' /\
     UnixUNow (shared m') = UnixNow (shared m') mod 2 ^ 32 /\
     UnixUNanoNow (shared m') = UnixNanoNow (shared m') mod 2 ^ 32) /\
  (forall l m0 m1, mstep l m0 = Some m1 -> noStoreStep l m0 ->
     UnixNow (shared m1) = UnixNow (shared m0) /\
     UnixUNow (shared m1) = UnixUNow (shared m0) /\
     UnixNanoNow (shared m1) = UnixNanoNow (shared m0) /\
     UnixUNanoNow (shared m1) = UnixUNanoNow (shared m0)).
Proof.
  intros Hrun Hi. split.
  - eexists. split; [by apply store_alone|]. simpl.
    pose proof (store_timeValues tm pick (shared m)) as Htv.
    unfold timeValues in Htv. injection Htv as _ Hut Hunt Huut Huunt.
    rewrite Huut, Huunt, Hut, Hunt. split; apply castUint32_mod.
  - intros l m0 m1 Hstep Hout.
    pose proof (mstep_timeValues _ _ _ Hstep Hout) as Htv.
    unfold timeValues in Htv. by injection Htv.
Qed.

(** ** The setters *)

Lemma mrun_call_alone op chs m s' code' sp :
  texec chs (opCode op) (shared m) = Some (s', code', sp) ->
  mrun (MCall op :: alone (length (threads m)) chs) m
  = Some {| shared := s'; threads := threads m ++ [code'] ++ sp |}.
Proof.
  intros Ht. simpl.
  erewrite mrun_alone; [| |exact Ht].
  - simpl. rewrite insert_app_r_alt, Nat.sub_diag by done. simpl.
    by rewrite <- app_assoc.
  - simpl. by apply list_lookup_middle.
Qed.

(** C3, as amended.  When [SetFormat(form)] (or [SetLocation(l)]) runs
    from its first statement to its return with no step of another thread
    in between, in any state that any interleaving has reached, then at its
    return the slice of [FormattedNow()] reads as the instant just read
    from the clock in the new format (shown in the new location). *)
Theorem setter_alone_publishes_new_configuration local c0 pick0 ls m :
  mrun ls (minit local c0 pick0) = Some m ->
  let i := length (threads m) in
  (forall form c pick,
     let tm := clockTime c (GetLocation (shared m)) in
     exists m',
       mrun (MCall (opSetFormat form)
               :: alone i (setterChoices c pick (length (layoutChunks tm form)))) m
         = Some m' /\
       threads m' !! i = Some [] /\
       GetFormat (shared m') = form /\
       Now (shared m') = Some tm /\
       FormattedBytes (shared m') = Some (rendered tm form)) /\
  (forall l c pick,
     let tm := clockTime c l in
     exists m',
       mrun (MCall (opSetLocation l)
               :: alone i (setterChoices c pick
                             (length (layoutChunks tm (GetFormat (shared m)))))) m
         = Some m' /\
       threads m' !! i = Some [] /\
       GetLocation (shared m') = l /\
       Now (shared m') = Some tm /\
       FormattedBytes (shared m') = Some (rendered tm (GetFormat (shared m)))).
Proof.
  intros Hrun i.
  destruct (reachable_minv _ _ _ _ _ Hrun) as ((Hpool & _) & _).
  split.
  - intros form c pick tm. subst tm. eexists. split.
    { apply mrun_call_alone.
      rewrite <- (app_nil_r (setterChoices _ _ _)), <- (app_nil_r (opCode _)).
      by rewrite texec_SetFormat. }
    simpl. split; [by apply list_lookup_middle|].
    unfold SetFormat, refresh.
    set (s1 := withObj (shared m) (setFormat form (obj (shared m))) (heap (shared m))).
    destruct (store_spec (now c s1) pick s1 Hpool) as (Hf & _).
    destruct (store_sameEngine (now c s1) pick s1) as (_ & _ & _ & Hfmt & _).
    split; [exact Hfmt|]. split; [by rewrite store_unfold | exact Hf].
  - intros l c pick tm. subst tm. eexists. split.
    { apply mrun_call_alone.
      rewrite <- (app_nil_r (setterChoices _ _ _)), <- (app_nil_r (opCode _)).
      by rewrite texec_SetLocation. }
    simpl. split; [by apply list_lookup_middle|].
    unfold SetLocation, refresh.
    set (s1 := withObj (shared m) (setLocation l (obj (shared m))) (heap (shared m))).
    destruct (store_spec (now c s1) pick s1 Hpool) as (Hf & _).
    destruct (store_sameEngine (now c s1) pick s1) as (_ & _ & _ & _ & Hloc & _).
    split; [exact Hloc|]. split; [by rewrite store_unfold | exact Hf].
Qed.

(** ** Cancellation *)

Lemma isDone_insert c c' s :
  isDone c s = true -> default false (<[c' := true]> (ctxs s) !! c) = true.
Proof.
  unfold isDone. intros Hd. destruct (decide (c' = c)) as [->|Hne].
  - destruct (ctxs s !! c) eqn:Hc; [|done].
    rewrite list_lookup_insert_eq; [done | by eapply lookup_lt_Some].
  - by rewrite list_lookup_insert_ne.
Qed.

(** No statement reopens a [Done()] channel. *)
Lemma exec_done ins ch s s' code sp c :
  exec ins ch s = Some (s', code, sp) -> isDone c s = true -> isDone c s' = true.
Proof.
  intros He Hd.
  destruct ins; destruct ch; simpl in He; try done;
    try (by destruct chunks); try (by destruct ctx);
    try (by injection He as <- <- <-).
  - by destruct (poolGet pick s) as [[? ?] ?]; injection He as <- <- <-.
  - by destruct (if decide (Cap b < String.length form)%nat
                 then Grow (String.length form) (heap s, b) else (heap s, b));
      injection He as <- <- <-.
  - destruct chunks; [by injection He as <- <- <-|].
    by destruct (appendBytes (heap s, out) l); injection He as <- <- <-.
  - by destruct (Now s); [injection He as <- <- <-|].
  - destruct (cancel (obj s)) as [c'|]; [|done]. injection He as <- <- <-.
    by apply isDone_insert.
  - destruct ctx; [|done]. injection He as <- <- <-.
    unfold isDone in *. simpl. destruct (ctxs s !! c) eqn:Hc; [|done].
    by rewrite (lookup_app_l_Some _ _ _ _ Hc).
  - by case_decide; [injection He as <- <- <-|].
  - by case_decide; [injection He as <- <- <-|].
  - by destruct (isDone ct0 s); [injection He as <- <- <-|].
  - by destruct (isDone ct0 s); [injection He as <- <- <-|].
Qed.

Lemma mstep_done l m m' c :
  mstep l m = Some m' -> isDone c (shared m) = true -> isDone c (shared m') = true.
Proof.
  destruct l as [op | i ch | c']; simpl.
  - by intros [= <-].
  - destruct (threads m !! i) as [[|ins rest]|]; try done. simpl.
    destruct (exec ins ch (shared m)) as [[[s1 c1] sp]|] eqn:He; [|done]. simpl.
    intros [= <-]. simpl. by eapply exec_done.
  - intros [= <-]. simpl. apply isDone_insert.
Qed.

Lemma mrun_done ls : forall m m' c,
  mrun ls m = Some m' -> isDone c (shared m) = true -> isDone c (shared m') = true.
Proof.
  induction ls as [|l ls IH]; intros m m' c; simpl.
  - by intros [= <-].
  - destruct (mstep l m) as [m1|] eqn:Hstep; [|done]. simpl. intros Hrun Hd.
    eapply IH; [exact Hrun|]. by eapply mstep_done.
Qed.

(** A thread that has returned stays so, and has no step. *)
Lemma mstep_returned l m m' g :
  mstep l m = Some m' -> threads m !! g = Some [] -> threads m' !! g = Some [].
Proof.
  destruct l as [op | i ch | c]; simpl.
  - intros [= <-] Hg. simpl. by apply lookup_app_l_Some.
  - destruct (threads m !! i) as [[|ins rest]|] eqn:Hi; try done. simpl.
    destruct (exec ins ch (shared m)) as [[[s1 c1] sp]|]; [|done]. simpl.
    intros [= <-] Hg. simpl. apply lookup_app_l_Some.
    rewrite list_lookup_insert_ne; [done|]. intros ->. congruence.
  - by intros [= <-].
Qed.

Lemma mrun_returned ls : forall m m' g,
  mrun ls m = Some m' -> threads m !! g = Some [] -> threads m' !! g = Some [].
Proof.
  induction ls as [|l ls IH]; intros m m' g; simpl.
  - by intros [= <-].
  - destruct (mstep l m) as [m1|] eqn:Hstep; [|done]. simpl. intros Hrun Hg.
    eapply IH; [exact Hrun|]. by eapply mstep_returned.
Qed.

(** The flag is written by [f.running.Store] and by nothing else. *)
Lemma exec_flag ins ch s s' code sp :
  exec ins ch s = Some (s', code, sp) ->
  running (obj s') <> running (obj s) ->
  ins = iSetRunning (running (obj s')) /\ ch = chNone.
Proof.
  intros He Hne.
  destruct ins; destruct ch; simpl in He; try done;
    try (by destruct chunks); try (by destruct ctx);
    try (by injection He as <- <- <-).
  - by destruct (poolGet pick s) as [[? ?] ?]; injection He as <- <- <-.
  - by destruct (if decide (Cap b < String.length form)%nat
                 then Grow (String.length form) (heap s, b) else (heap s, b));
      injection He as <- <- <-.
  - destruct chunks; [by injection He as <- <- <-|].
    by destruct (appendBytes (heap s, out) l); injection He as <- <- <-.
  - by destruct (Now s); [injection He as <- <- <-|].
  - by destruct (cancel (obj s)); [injection He as <- <- <-|].
  - by destruct ctx; [injection He as <- <- <-|].
  - by case_decide; [injection He as <- <- <-|].
  - by case_decide; [injection He as <- <- <-|].
  - by destruct (isDone ct0 s); [injection He as <- <- <-|].
  - by destruct (isDone ct0 s); [injection He as <- <- <-|].
Qed.

Lemma mstep_flag l m m' :
  mstep l m = Some m' ->
  IsDaemonRunning (shared m') <> IsDaemonRunning (shared m) ->
  exists i rest, l = MStep i chNone /\
    threads m !! i = Some (iSetRunning (IsDaemonRunning (shared m')) :: rest).
Proof.
  unfold IsDaemonRunning. destruct l as [op | i ch | c]; simpl.
  - by intros [= <-].
  - destruct (threads m !! i) as [[|ins rest]|] eqn:Hi; try done. simpl.
    destruct (exec ins ch (shared m)) as [[[s1 c1] sp]|] eqn:He; [|done]. simpl.
    intros [= <-] Hne. simpl in *.
    destruct (exec_flag _ _ _ _ _ _ He Hne) as (-> & ->). eauto.
  - by intros [= <-].
Qed.

(** The [Done()] case of a [select], taken by a goroutine whose context
    is cancelled: the case, then line 201 or 210, then the return. *)
Lemma done_exit m g c :
  threads m !! g = Some [iLoop c] \/ threads m !! g = Some [iNested c] ->
  isDone c (shared m) = true ->
  mrun (alone g [chDone; chNone]) m
  = Some {| shared := onObj (setRunning false) (shared m);
            threads := <[g := []]> (threads m) |}.
Proof.
  intros Hg Hd.
  assert (Ht : exists code, threads m !! g = Some code /\
            texec [chDone; chNone] code (shared m)
            = Some (onObj (setRunning false) (shared m), [], [])).
  { destruct Hg as [Hg | Hg]; eexists; (split; [exact Hg|]); simpl; by rewrite Hd. }
  destruct Ht as (code & Hc & Ht). erewrite mrun_alone; [|exact Hc|exact Ht].
  by rewrite app_nil_r.
Qed.

Lemma Stop_alone m :
  IsDaemonRunning (shared m) = true ->
  forall c, cancel (obj (shared m)) = Some c ->
  mrun (MCall opStop :: alone (length (threads m)) [chNone; chNone; chNone]) m
  = Some {| shared := onObj (setDur 0) (cancelCtx c (shared m));
            threads := threads m ++ [[]] |}.
Proof.
  intros Hr c Hc. erewrite mrun_call_alone; [done|].
  simpl. rewrite Hr. simpl. by rewrite Hc.
Qed.

(** C6, as amended.  In any state that any interleaving has reached:
    the flag behind [IsDaemonRunning()] changes only when a thread executes
    [f.running.Store], which [Stop()] never does; a [Stop()] that finds
    the flag set and runs with no step of another thread in between
    cancels the context of [f.cancel], stores 0 in the tick interval and
    returns with the flag still set and the snapshot as it was; a
    cancelled context stays cancelled whatever runs afterwards; and a
    goroutine waiting at one of its selects on a cancelled context can take
    the [Done()] case, which stores [false] in the flag, leaves the
    snapshot as it is and returns, after which that goroutine takes no
    step. *)
Theorem Stop_cancels_and_goroutine_exits local c0 pick0 ls m :
  mrun ls (minit local c0 pick0) = Some m ->
  (forall l m', mstep l m = Some m' ->
     IsDaemonRunning (shared m') <> IsDaemonRunning (shared m) ->
     exists i rest, l = MStep i chNone /\
       threads m !! i = Some (iSetRunning (IsDaemonRunning (shared m')) :: rest)) /\
  (IsDaemonRunning (shared m) = true ->
   exists c m',
     cancel (obj (shared m)) = Some c /\
     mrun (MCall opStop :: alone (length (threads m)) [chNone; chNone; chNone]) m
       = Some m' /\
     threads m' !! length (threads m) = Some [] /\
     isDone c (shared m') = true /\ dur (obj (shared m')) = 0 /\
     IsDaemonRunning (shared m') = true /\
     snapshot (shared m') = snapshot (shared m)) /\
  (forall c, isDone c (shared m) = true ->
     (forall ls' m', mrun ls' m = Some m' -> isDone c (shared m') = true) /\
     (forall g, threads m !! g = Some [iLoop c] \/ threads m !! g = Some [iNested c] ->
        exists m',
          mrun (alone g [chDone; chNone]) m = Some m' /\
          IsDaemonRunning (shared m') = false /\
          snapshot (shared m') = snapshot (shared m) /\
          FormattedBytes (shared m') = FormattedBytes (shared m) /\
          threads m' !! g = Some [] /\
          forall ls' m3 ch, mrun ls' m' = Some m3 -> mstep (MStep g ch) m3 = None)).
Proof.
  intros Hrun.
  destruct (reachable_minv _ _ _ _ _ Hrun) as ((_ & _ & Hcan & Hctx) & _).
  split; [intros l m'; apply mstep_flag|]. split.
  - intros Hr. destruct (Hcan Hr) as (c & Hc). exists c. eexists.
    split; [done|]. split; [by apply Stop_alone|]. simpl.
    split; [by apply list_lookup_middle|].
    split; [|done]. unfold isDone. simpl.
    rewrite list_lookup_insert_eq; [done | by apply Hctx].
  - intros c Hd. split; [intros ls' m' Hrun'; by eapply mrun_done|].
    intros g Hg. eexists. split; [by apply (done_exit m g c)|]. simpl.
    assert (Hlt : (g < length (threads m))%nat)
      by (destruct Hg as [Hg|Hg]; by eapply lookup_lt_Some).
    split; [done|]. split; [done|]. split; [done|].
    split; [by apply list_lookup_insert_eq|].
    intros ls' m3 ch Hrun3.
    assert (H3 : threads m3 !! g = Some []).
    { eapply mrun_returned; [exact Hrun3|]. simpl. by apply list_lookup_insert_eq. }
    simpl. by rewrite H3.
Qed.

(** ** Monotonicity *)

(** The tick case of the outer [select] and the [update] it calls, and the
    tick case of the inner one and its [refresh], run alone. *)
Lemma tick_alone m g ct tm pick :
  threads m !! g = Some [iLoop ct] -> Now (shared m) = Some tm ->
  mrun (alone g (tickChoices pick
                   (length (layoutChunks (Add tm (dur (obj (shared m))))
                              (GetFormat (shared m)))))) m
  = Some {| shared := store (Add tm (dur (obj (shared m)))) pick (shared m);
            threads := <[g := [iLoop ct]]> (threads m) |}.
Proof.
  intros Hg Hnow. erewrite mrun_alone; [|exact Hg|].
  - by rewrite app_nil_r.
  - unfold tickChoices. erewrite texec_step; [|reflexivity]. simpl app.
    rewrite <- (app_nil_r (updateChoices _ _)).
    by rewrite (texec_update tm).
Qed.

Lemma correction_alone m g ct c pick :
  threads m !! g = Some [iNested ct] ->
  mrun (alone g (correctionChoices c pick
                   (length (layoutChunks (now c (shared m)) (GetFormat (shared m)))))) m
  = Some {| shared := refresh c pick (shared m);
            threads := <[g := [iLoop ct]]> (threads m) |}.
Proof.
  intros Hg. erewrite mrun_alone; [|exact Hg|].
  - by rewrite app_nil_r.
  - unfold correctionChoices. erewrite texec_step; [|reflexivity]. simpl app.
    rewrite <- (app_nil_r (refreshChoices _ _ _)).
    by rewrite texec_refresh.
Qed.

(** C8, as amended.  In any state that any interleaving has reached, with
    [tm] the published instant: a cheap update (the tick case and
    [update()]) that runs with no step of another thread in between
    publishes [tm] plus the tick interval it loads, which is not earlier
    than [tm] when that interval is not negative; a drift correction (the
    inner tick case and [refresh()]) that runs alone publishes the clock
    reading shown in the current location, whatever [tm] was: it moves
    [Now()] backwards exactly when the reading is earlier than [tm]. *)
Theorem engine_store_alone_monotone local c0 pick0 ls m g ct tm :
  mrun ls (minit local c0 pick0) = Some m ->
  Now (shared m) = Some tm ->
  (threads m !! g = Some [iLoop ct] -> forall pick,
     let tm' := Add tm (dur (obj (shared m))) in
     exists m',
       mrun (alone g (tickChoices pick
                        (length (layoutChunks tm' (GetFormat (shared m)))))) m
         = Some m' /\
       threads m' !! g = Some [iLoop ct] /\
       Now (shared m') = Some tm' /\
       (0 <= dur (obj (shared m)) -> Time_le tm tm')) /\
  (threads m !! g = Some [iNested ct] -> forall c pick,
     let tm' := clockTime c (GetLocation (shared m)) in
     exists m',
       mrun (alone g (correctionChoices c pick
                        (length (layoutChunks tm' (GetFormat (shared m)))))) m
         = Some m' /\
       threads m' !! g = Some [iLoop ct] /\
       Now (shared m') = Some tm').
Proof.
  intros Hrun Hnow.
  destruct (reachable_minv _ _ _ _ _ Hrun) as ((_ & (tm0 & Hnow0 & Hv) & _) & _).
  rewrite Hnow in Hnow0. injection Hnow0 as <-.
  split.
  - intros Hg pick tm'. subst tm'. eexists. split; [by apply tick_alone|]. simpl.
    split; [apply list_lookup_insert_eq; by eapply lookup_lt_Some|].
    split; [by rewrite store_unfold|]. intros Hd. by apply Add_le.
  - intros Hg c pick tm'. subst tm'. eexists.
    split; [by apply (correction_alone m g ct)|]. simpl.
    split; [apply list_lookup_insert_eq; by eapply lookup_lt_Some|].
    unfold refresh. by rewrite store_unfold.
Qed.

(** ** Starting the daemon *)

Lemma texec_StartTimerD pd d c pick s :
  sharedOk s ->
  exists s1,
    (if IsDaemonRunning s then Stop s else Some s) = Some s1 /\
    texec (startChoices (IsDaemonRunning s) c pick
             (length (layoutChunks (clockTime c (GetLocation s)) (GetFormat s))))
      (opCode (opStartTimerD (Some pd) d)) s
    = Some ({| obj := setCancel (Some (length (ctxs (refresh c pick s1))))
                        (obj (refresh c pick s1));
               heap := heap (refresh c pick s1);
               ctxs := ctxs (refresh c pick s1) ++ [pd];
               procs := procs (refresh c pick s1) |},
            [], [goroutine (length (ctxs (refresh c pick s1))) d]) /\
    texec (take (length (startChoices (IsDaemonRunning s) c pick
                   (length (layoutChunks (clockTime c (GetLocation s)) (GetFormat s)))) - 2)
             (startChoices (IsDaemonRunning s) c pick
                (length (layoutChunks (clockTime c (GetLocation s)) (GetFormat s)))))
      (opCode (opStartTimerD None d)) s
    = Some (refresh c pick s1, [iWithCancel None d], []).
Proof.
  intros (_ & _ & Hcan & _).
  set (k := length (layoutChunks (clockTime c (GetLocation s)) (GetFormat s))).
  assert (Hend : forall s1 rest chs,
            GetLocation s1 = GetLocation s -> GetFormat s1 = GetFormat s ->
            texec (refreshChoices c pick k ++ chs) (iNow :: rest) s1
            = texec chs rest (refresh c pick s1)).
  { intros s1 rest chs Hl Hf. unfold k. rewrite <- Hl, <- Hf. apply texec_refresh. }
  assert (Htake : forall pre : list Choice,
            take (length (pre ++ refreshChoices c pick k ++ [chNone; chNone]) - 2)
              (pre ++ refreshChoices c pick k ++ [chNone; chNone])
            = (pre ++ refreshChoices c pick k) ++ []).
  { intros pre. rewrite app_nil_r, (app_assoc pre), length_app. simpl length.
    rewrite Nat.add_sub. apply take_app_length. }
  unfold startChoices, opCode. rewrite Htake. clear Htake.
  destruct (IsDaemonRunning s) eqn:Hr.
  - destruct (Hcan eq_refl) as (old & Hold). unfold Stop. rewrite Hr, Hold.
    eexists. split; [done|].
    set (s1 := {| obj := setDur 0 (obj s); heap := heap s;
                  ctxs := <[old:=true]> (ctxs s); procs := procs s |}).
    assert (Hpre : forall rest chs,
              texec ([chNone; chNone; chNone; chNone] ++ chs) (iStartCheck :: rest) s
              = texec chs rest s1).
    { intros rest chs. simpl app.
      erewrite texec_step; [|simpl; by rewrite Hr]. simpl app.
      erewrite texec_step; [|simpl; by rewrite Hr]. simpl app.
      erewrite texec_step; [|simpl; by rewrite Hold]. simpl app.
      erewrite texec_step; [|reflexivity]. done. }
    split.
    + rewrite Hpre, Hend by done. simpl. done.
    + rewrite <- app_assoc, Hpre, Hend by done. done.
  - eexists. split; [done|].
    assert (Hpre : forall rest chs,
              texec ([chNone] ++ chs) (iStartCheck :: rest) s = texec chs rest s).
    { intros rest chs. simpl app. erewrite texec_step; [|simpl; by rewrite Hr]. done. }
    split.
    + rewrite Hpre, Hend by done. simpl. done.
    + rewrite <- app_assoc, Hpre, Hend by done. done.
Qed.

Lemma stopped_first s s1 :
  (if IsDaemonRunning s then Stop s else Some s) = Some s1 ->
  heap s1 = heap s /\ pool (obj s1) = pool (obj s) /\
  GetFormat s1 = GetFormat s /\ GetLocation s1 = GetLocation s /\
  IsDaemonRunning s1 = IsDaemonRunning s /\
  length (ctxs s1) = length (ctxs s) /\
  (IsDaemonRunning s = false -> ctxs s1 = ctxs s /\ dur (obj s1) = dur (obj s)) /\
  (IsDaemonRunning s = true ->
   exists old, cancel (obj s) = Some old /\
     ctxs s1 = <[old := true]> (ctxs s) /\ dur (obj s1) = 0).
Proof.
  unfold Stop. destruct (IsDaemonRunning s) eqn:Hr.
  - destruct (cancel (obj s)) as [old|] eqn:Hold; [|done]. intros [= <-].
    unfold IsDaemonRunning in *. simpl. rewrite length_insert.
    repeat split; try done. by exists old.
  - intros [= <-]. by repeat split.
Qed.

(** X4. [StartTimerD(ctx, d)] run from its first statement to its return
    with no step of another thread in between, in any state that any
    interleaving has reached.  With a context that is not [nil] it does
    not panic: it refreshes from the clock, sets [f.cancel] to a new
    context (done exactly when [ctx] is) and starts one goroutine, which
    has not run yet; its own statements write neither the flag, the format
    nor the location; where the flag was set it has cancelled the context
    of the previous [f.cancel] and left the tick interval at 0, and where
    it was not the interval is as before.  With a [nil] context it stops
    the running daemon and refreshes in the same way, and then panics in
    [context.WithCancel]. *)
Theorem StartTimerD_alone local c0 pick0 ls m d c pick :
  mrun ls (minit local c0 pick0) = Some m ->
  let s := shared m in
  let i := length (threads m) in
  let tm := clockTime c (GetLocation s) in
  let chs := startChoices (IsDaemonRunning s) c pick
               (length (layoutChunks tm (GetFormat s))) in
  (forall pd, exists m',
     mrun (MCall (opStartTimerD (Some pd) d) :: alone i chs) m = Some m' /\
     threads m' = threads m ++ [[]; goroutine (length (ctxs s)) d] /\
     cancel (obj (shared m')) = Some (length (ctxs s)) /\
     isDone (length (ctxs s)) (shared m') = pd /\
     Now (shared m') = Some tm /\
     FormattedBytes (shared m') = Some (rendered tm (GetFormat s)) /\
     GetFormat (shared m') = GetFormat s /\
     GetLocation (shared m') = GetLocation s /\
     IsDaemonRunning (shared m') = IsDaemonRunning s /\
     (IsDaemonRunning s = false ->
      ctxs (shared m') = ctxs s ++ [pd] /\ dur (obj (shared m')) = dur (obj s)) /\
     (IsDaemonRunning s = true ->
      exists old, cancel (obj s) = Some old /\
        ctxs (shared m') = <[old := true]> (ctxs s) ++ [pd] /\
        dur (obj (shared m')) = 0)) /\
  (exists m1,
     mrun (MCall (opStartTimerD None d) :: alone i (take (length chs - 2) chs)) m
       = Some m1 /\
     threads m1 !! i = Some [iWithCancel None d] /\
     Now (shared m1) = Some tm /\
     (IsDaemonRunning s = true -> dur (obj (shared m1)) = 0) /\
     forall ch, mstep (MStep i ch) m1 = None).
Proof.
  intros Hrun s i tm chs.
  destruct (reachable_minv _ _ _ _ _ Hrun) as (Hs & _).
  pose proof Hs as (Hpool & _).
  destruct (texec_StartTimerD true d c pick s Hs) as (s1 & Hs1 & _ & Hnil).
  destruct (stopped_first _ _ Hs1)
    as (Hh1 & Hp1 & Hf1 & Hl1 & Hr1 & Hlen1 & Hoff & Hon).
  assert (Hpool1 : Forall (wfBuffer (heap s1)) (pool (obj s1))) by (by rewrite Hh1, Hp1).
  assert (Htm : now c s1 = tm) by (unfold now, tm; by rewrite Hl1).
  destruct (store_spec (now c s1) pick s1 Hpool1) as (Hfb & _).
  destruct (store_sameEngine (now c s1) pick s1)
    as (Hr2 & Hd2 & _ & Hf2 & Hl2 & _ & Hx2 & _).
  pose proof (store_timeValues (now c s1) pick s1) as Htv.
  unfold timeValues in Htv. injection Htv as Hnow2 _ _ _ _.
  fold (refresh c pick s1) in Hfb, Hr2, Hd2, Hf2, Hl2, Hx2, Hnow2.
  rewrite Htm in Hfb, Hnow2. rewrite Hf1 in Hfb.
  split.
  - intros pd.
    destruct (texec_StartTimerD pd d c pick s Hs) as (s1' & Hs1' & Hok & _).
    rewrite Hs1 in Hs1'. injection Hs1' as <-.
    eexists. split; [by apply mrun_call_alone|]. simpl.
    rewrite Hx2, Hlen1. split; [done|]. split; [done|].
    split.
    { unfold isDone. simpl.
      by rewrite lookup_app_r, Hlen1, Nat.sub_diag by (rewrite Hlen1; lia). }
    split; [exact Hnow2|]. split; [exact Hfb|].
    unfold GetFormat, GetLocation, IsDaemonRunning in *. simpl.
    rewrite Hf2, Hl2, Hr2, Hd2.
    split; [done|]. split; [done|]. split; [done|]. split.
    + intros Hr. destruct (Hoff Hr) as (-> & ->). done.
    + intros Hr. destruct (Hon Hr) as (old & Hold & -> & ->). by exists old.
  - eexists. split; [by apply mrun_call_alone|]. simpl.
    split; [by apply list_lookup_middle|]. split; [exact Hnow2|].
    split.
    + intros Hr. destruct (Hon Hr) as (old & _ & _ & Hd). by rewrite Hd2.
    + intros ch. rewrite list_lookup_middle by done. simpl. by destruct ch.
Qed.

(** ** The accessors together *)

(** X12. After a [store(t)] that ran with no step of another thread in
    between, in any state that any interleaving has reached: while the
    count of nanoseconds of [t] fits an [int64] (the years 1678 to 2262),
    [UnixNow()] is [UnixNanoNow()] divided by 10^9 rounding down, and the
    remainder is the nanosecond part of [Now()]; and while [UnixNow()] is
    between 0 and 2^32 - 1 (1970 to 2106), [UnixUNow()] returns the same
    number (on a little-endian target). *)
Theorem store_alone_accessors_agree local c0 pick0 ls m i tm rest pick :
  mrun ls (minit local c0 pick0) = Some m ->
  threads m !! i = Some (storeCode tm ++ rest) ->
  - 2 ^ 63 <= sec tm * 1000000000 + nsec tm < 2 ^ 63 ->
  exists m',
    mrun (alone i (storeChoices pick
                     (length (layoutChunks tm (GetFormat (shared m)))))) m
      = Some m' /\
    Now (shared m') = Some tm /\
    UnixNow (shared m') = UnixNanoNow (shared m') / 1000000000 /\
    UnixNanoNow (shared m') mod 1000000000 = nsec tm /\
    (0 <= UnixNow (shared m') < 2 ^ 32 -> UnixUNow (shared m') = UnixNow (shared m')).
Proof.
  intros Hrun Hi Hrange.
  destruct (reachable_minv _ _ _ _ _ Hrun) as (_ & Hth).
  pose proof (Forall_lookup_1 _ _ _ _ Hth Hi) as Hcode.
  apply Forall_cons in Hcode as (Hv & _). simpl in Hv. unfold validTime in Hv.
  eexists. split; [by apply store_alone|]. simpl.
  pose proof (store_timeValues tm pick (shared m)) as Htv.
  unfold timeValues in Htv. injection Htv as Hnow Hut Hunt Huut _.
  split; [exact Hnow|].
  rewrite Huut, Hut, Hunt, castUint32_mod. unfold Unix, UnixNano.
  rewrite (wrap64_small (sec tm * 1000000000 + nsec tm)) by done.
  change (2 ^ 63) with 9223372036854775808 in Hrange.
  rewrite (wrap64_small (sec tm))
    by (change (2 ^ 63) with 9223372036854775808; lia).
  split; [|split].
  - apply (Z.div_unique_pos _ _ _ (nsec tm)); lia.
  - symmetry. apply (Z.mod_unique_pos _ _ (sec tm)); lia.
  - intros Hs. by apply Z.mod_small.
Qed.

End Model.

(** ** The theorems at concrete runs *)

Lemma update_adds_tick_interval_witness :
  exists s tm,
    run goChunks timerTrace (newFastime goChunks UTC T0 lastPut) = Some s /\
    Now s = Some tm /\ validTime tm /\ dur (obj s) = 500 * Millisecond /\
    exists tm',
      update goChunks lastPut s = Some (store goChunks tm' lastPut s) /\
      Now (store goChunks tm' lastPut s) = Some tm' /\
      tm' = Add tm (dur (obj s)) /\
      sec tm' * 1000000000 + nsec tm' = sec tm * 1000000000 + nsec tm + dur (obj s) /\
      loc tm' = loc tm /\
      UnixNanoNow (store goChunks tm' lastPut s)
        = wrap64 (sec tm * 1000000000 + nsec tm + dur (obj s)) /\
      (forall g p, procs s !! g = Some p -> pc p = pcSelect ->
         goStep goChunks g (evTick lastPut) s
           = Some (setPc g p pcSelect (store goChunks tm' lastPut s))).
Proof.
  eexists _, _. split; [vm_compute; reflexivity|].
  split; [reflexivity|]. split; [|split; [reflexivity|]].
  - vm_compute. split; [discriminate | reflexivity].
  - apply (update_adds_tick_interval goChunks lastPut).
    + reflexivity.
    + vm_compute. split; [discriminate | reflexivity].
Defined.

Lemma Stop_noop_cancels_idempotent_witness :
  exists s, run goChunks startedTrace (newFastime goChunks UTC T0 lastPut) = Some s /\
  IsDaemonRunning s = true /\
  (forall s0, IsDaemonRunning s0 = false -> Stop s0 = Some s0) /\
  (cancel (obj (newFastime goChunks UTC T0 lastPut)) = None /\
   Stop (newFastime goChunks UTC T0 lastPut) = Some (newFastime goChunks UTC T0 lastPut)) /\
  (IsDaemonRunning s = true ->
   exists c s', cancel (obj s) = Some c /\ Stop s = Some s' /\
     isDone c s' = true /\ dur (obj s') = 0 /\
     obj s' = setDur 0 (obj s) /\ heap s' = heap s /\ procs s' = procs s /\
     ctxs s' = <[c := true]> (ctxs s)) /\
  (forall s', Stop s = Some s' -> Stop s' = Some s').
Proof.
  eexists. split; [vm_compute; reflexivity|]. split; [reflexivity|].
  apply (Stop_noop_cancels_idempotent goChunks UTC T0 lastPut startedTrace).
  vm_compute; reflexivity.
Defined.

(** C6, the claim as stated fails: the daemon is in its loop, [Stop()]
    returns, and [IsDaemonRunning()] is still true, since only the
    goroutine stores [false]; and before it takes [Done()] the inner
    [select] may still take the tick and refresh, so [Now()] changes after
    [Stop()] returned. *)
Lemma Stop_leaves_running_set :
  exists s s1 s2,
    run goChunks startedTrace (newFastime goChunks UTC T0 lastPut) = Some s /\
    IsDaemonRunning s = true /\ Stop s = Some s1 /\
    IsDaemonRunning s1 = true /\
    run goChunks [Go 0 evCtick; Go 0 (evTickRefresh (T0 + 2 * Second) lastPut)] s1
      = Some s2 /\
    Now s1 = Some (clockTime (T0 + Second) UTC) /\
    Now s2 = Some (clockTime (T0 + 2 * Second) UTC).
Proof.
  eexists _, _, _. split; [vm_compute; reflexivity|].
  split; [reflexivity|]. split; [vm_compute; reflexivity|].
  split; [reflexivity|]. split; [vm_compute; reflexivity|].
  split; reflexivity.
Qed.

(** C7, the claim as stated fails: the format is ["5"], the pool has
    dropped its buffer, so [New] makes one of capacity 1, the length of
    the format; at second 59 the rendered output has two bytes, the
    capacity stays 1, and [AppendFormat] puts the output in an array of
    its own, leaving the buffer's array unwritten. *)
Lemma store_capacity_below_rendered_length :
  exists s b sl,
    run goChunks secondsTrace (newFastime goChunks UTC T0 lastPut) = Some s /\
    clockChunks (clockTime (T0 + 39 * Second) UTC) (GetFormat s)
      = Some [bytesOf "59"] /\
    (storeBuffer fromNew s).1.2 = b /\
    Cap b = 1%nat /\
    length (rendered goChunks (clockTime (T0 + 39 * Second) UTC) (GetFormat s)) = 2%nat /\
    FormattedNow (store goChunks (clockTime (T0 + 39 * Second) UTC) fromNew s) = Some sl /\
    arr sl <> arr (buf b) /\
    heap (store goChunks (clockTime (T0 + 39 * Second) UTC) fromNew s) !! arr (buf b)
      = Some [x00].
Proof.
  eexists _, _, _. split; [vm_compute; reflexivity|].
  split; [vm_compute; reflexivity|]. split; [vm_compute; reflexivity|].
  split; [reflexivity|]. split; [vm_compute; reflexivity|].
  split; [vm_compute; reflexivity|]. split; [|vm_compute; reflexivity].
  vm_compute. discriminate.
Qed.

Lemma store_buffer_discipline_witness :
  exists s, run goChunks secondsTrace (newFastime goChunks UTC T0 lastPut) = Some s /\
  let tm := clockTime (T0 + 39 * Second) UTC in
  let got := (poolGet fromNew s).1.1 in
  let b := (storeBuffer fromNew s).1.2 in
  let out := rendered goChunks tm (GetFormat s) in
  ((String.length (GetFormat s) <= Cap got)%nat -> b = got) /\
  (String.length (GetFormat s) <= Cap b)%nat /\
  pool (obj (store goChunks tm fromNew s)) = b :: (poolGet fromNew s).1.2 /\
  FormattedBytes (store goChunks tm fromNew s) = Some out /\
  exists sl, FormattedNow (store goChunks tm fromNew s) = Some sl /\
    ((length out <= Cap b)%nat -> arr sl = arr (buf b)) /\
    ((Cap b < length out)%nat -> arr sl <> arr (buf b)).
Proof.
  eexists. split; [vm_compute; reflexivity|].
  apply (store_buffer_discipline goChunks UTC T0 lastPut secondsTrace).
  vm_compute; reflexivity.
Defined.

(** C8, the claim as stated fails: with a 40ms tick and clock readings
    that never go back (0, 165ms, 200.1ms after the start), the cheap
    update after the late refresh publishes 205ms, and the next
    drift-correcting refresh replaces it with the earlier 200.1ms. *)
Lemma refresh_moves_now_backwards :
  exists s s' tm tm',
    run goChunks driftTrace (newFastime goChunks UTC T0 lastPut) = Some s /\
    goStep goChunks 0 (evTickRefresh (T0 + 200 * Millisecond + 100000) lastPut) s
      = Some s' /\
    nondecreasing
      (T0 :: clockReadings
         (driftTrace ++ [Go 0 (evTickRefresh (T0 + 200 * Millisecond + 100000) lastPut)]))
      = true /\
    dur (obj s) = 40 * Millisecond /\
    Now s = Some tm /\ Now s' = Some tm' /\
    tm = clockTime (T0 + 205 * Millisecond) UTC /\
    tm' = clockTime (T0 + 200 * Millisecond + 100000) UTC /\
    ~ Time_le tm tm'.
Proof.
  eexists _, _, _, _. split; [vm_compute; reflexivity|].
  split; [vm_compute; reflexivity|]. split; [vm_compute; reflexivity|].
  split; [reflexivity|]. split; [reflexivity|]. split; [reflexivity|].
  split; [reflexivity|]. split; [reflexivity|].
  unfold Time_le. vm_compute. intros [H|[H1 H2]]; [discriminate H | apply H2; reflexivity].
Qed.

(** C9: the slice a reader got from [FormattedNow()] is overwritten by the
    next [store].  The published instant is 22:59:59 and a reader holds
    the slice; the tick stores 23:00:00 into the same pooled array.  After
    the first append of [AppendFormat] the reader's slice reads 23:59:59,
    which is the rendering of no published instant, and after the store it
    reads 23:00:00. *)
Theorem formatted_slice_torn_by_store :
  exists s b tm s',
    run goChunks clockTrace (newFastime goChunks UTC T0 lastPut) = Some s /\
    FormattedNow s = Some b /\ Now s = Some tm /\
    readSlice (heap s) b = bytesOf "22:59:59" /\
    goStep goChunks 0 (evTick lastPut) s = Some s' /\
    let tm' := Add tm (dur (obj s)) in
    let sb := storeBuffer lastPut s in
    let mid :=
      foldl appendBytes (sb.1.1, sliceTo (Bytes sb.1.2) 0)
        (take 1 (goChunks tm' (GetFormat s))) in
    update goChunks lastPut s = Some (store goChunks tm' lastPut s) /\
    clockChunks tm' (GetFormat s)
      = Some [bytesOf "23"; bytesOf ":"; bytesOf "00"; bytesOf ":"; bytesOf "00"] /\
    readSlice mid.1 b = bytesOf "23:59:59" /\
    readSlice (heap s') b = bytesOf "23:00:00".
Proof.
  eexists _, _, _, _. split; [vm_compute; reflexivity|].
  split; [reflexivity|]. split; [reflexivity|].
  split; [vm_compute; reflexivity|]. split; [vm_compute; reflexivity|].
  split; [vm_compute; reflexivity|]. split; [vm_compute; reflexivity|].
  split; vm_compute; reflexivity.
Qed.


(** ** Further runs *)

Lemma configuration_written_by_setters_witness :
  exists s',
    step goChunks (CallSetFormat "15:04:05" (T0 + Second) lastPut)
      (newFastime goChunks UTC T0 lastPut) = Some s' /\
    (GetFormat s' <> GetFormat (newFastime goChunks UTC T0 lastPut) ->
     exists form c pick,
       CallSetFormat "15:04:05" (T0 + Second) lastPut = CallSetFormat form c pick /\
       GetFormat s' = form) /\
    (GetLocation s' <> GetLocation (newFastime goChunks UTC T0 lastPut) ->
     exists loc0 c pick,
       CallSetFormat "15:04:05" (T0 + Second) lastPut = CallSetLocation loc0 c pick /\
       GetLocation s' = loc0).
Proof.
  eexists. split; [vm_compute; reflexivity|].
  apply (configuration_written_by_setters goChunks).
  vm_compute; reflexivity.
Defined.

Lemma running_written_by_goroutines_witness :
  exists s s',
    run goChunks launchTrace (newFastime goChunks UTC T0 lastPut) = Some s /\
    step goChunks (Go 0 evNext) s = Some s' /\
    IsDaemonRunning s' <> IsDaemonRunning s /\
    exists g p, procs s !! g = Some p /\
      ((Go 0 evNext = Go g evNext /\ pc p = pcStart /\ IsDaemonRunning s' = true) \/
       (Go 0 evNext = Go g evDone /\ (pc p = pcSelect \/ pc p = pcNested) /\
        isDone (ct p) s = true /\ IsDaemonRunning s' = false)).
Proof.
  eexists _, _. split; [vm_compute; reflexivity|].
  split; [vm_compute; reflexivity|]. split; [vm_compute; discriminate|].
  apply (running_written_by_goroutines goChunks (Go 0 evNext)).
  - vm_compute; reflexivity.
  - vm_compute; discriminate.
Defined.

Lemma goroutine_startup_witness :
  exists s p, run goChunks launchTrace (newFastime goChunks UTC T0 lastPut) = Some s /\
  procs s !! 0%nat = Some p /\ pc p = pcStart /\
  exists s3, run goChunks [Go 0 evNext; Go 0 evNext; Go 0 evNext] s = Some s3 /\
    IsDaemonRunning s3 = true /\ dur (obj s3) = arg p /\
    snapshot s3 = snapshot s /\ heap s3 = heap s /\
    procs s3 = <[0%nat := {| pc := pcTickers; ct := ct p; arg := arg p |}]> (procs s) /\
    (arg p <= 0 -> goStep goChunks 0 evNext s3 = None) /\
    (0 < arg p ->
     exists s4, goStep goChunks 0 evNext s3 = Some s4 /\ obj s4 = obj s3 /\
       procs s4 = <[0%nat := {| pc := pcSelect; ct := ct p; arg := arg p |}]> (procs s) /\
       forall pick, is_Some (goStep goChunks 0 (evTick pick) s4)).
Proof.
  eexists _, _. split; [vm_compute; reflexivity|].
  split; [vm_compute; reflexivity|]. split; [reflexivity|].
  apply (goroutine_startup goChunks UTC T0 lastPut launchTrace).
  - vm_compute; reflexivity.
  - vm_compute; reflexivity.
  - reflexivity.
Defined.

Lemma stale_goroutine_clears_flag_witness :
  exists s po pn,
    run goChunks restartTrace (newFastime goChunks UTC T0 lastPut) = Some s /\
    0%nat <> 1%nat /\
    procs s !! 0%nat = Some po /\ (pc po = pcSelect \/ pc po = pcNested) /\
    isDone (ct po) s = true /\
    procs s !! 1%nat = Some pn /\ pc pn = pcSelect /\ isDone (ct pn) s = false /\
    exists s1, goStep goChunks 0 evDone s = Some s1 /\
      IsDaemonRunning s1 = false /\ Stop s1 = Some s1 /\
      isDone (ct pn) s1 = false /\ goStep goChunks 1 evDone s1 = None /\
      forall pick, is_Some (goStep goChunks 1 (evTick pick) s1).
Proof.
  eexists _, _, _. split; [vm_compute; reflexivity|].
  split; [discriminate|]. split; [vm_compute; reflexivity|].
  split; [left; reflexivity|]. split; [vm_compute; reflexivity|].
  split; [vm_compute; reflexivity|]. split; [reflexivity|].
  split; [vm_compute; reflexivity|].
  eapply (stale_goroutine_clears_flag goChunks UTC T0 lastPut restartTrace).
  - vm_compute; reflexivity.
  - discriminate.
  - vm_compute; reflexivity.
  - left; reflexivity.
  - vm_compute; reflexivity.
  - vm_compute; reflexivity.
  - reflexivity.
  - vm_compute; reflexivity.
Defined.


Lemma correction_tick_publishes_clock_witness :
  exists s p,
    run goChunks startedTrace (newFastime goChunks UTC T0 lastPut) = Some s /\
    procs s !! 0%nat = Some p /\ pc p = pcSelect /\
    exists s1 s2, goStep goChunks 0 evCtick s = Some s1 /\
      obj s1 = obj s /\ heap s1 = heap s /\
      (forall pk, goStep goChunks 0 (evTick pk) s1 = None) /\
      goStep goChunks 0 evCtick s1 = None /\
      goStep goChunks 0 (evTickRefresh (T0 + 2 * Second) lastPut) s1 = Some s2 /\
      Now s2 = Some (now (T0 + 2 * Second) s) /\
      UnixNow s2 = Unix (now (T0 + 2 * Second) s) /\
      UnixNanoNow s2 = UnixNano (now (T0 + 2 * Second) s) /\
      FormattedBytes s2
        = Some (rendered goChunks (now (T0 + 2 * Second) s) (GetFormat s)) /\
      dur (obj s2) = dur (obj s) /\ procs s2 !! 0%nat = Some p.
Proof.
  eexists _, _. split; [vm_compute; reflexivity|].
  split; [vm_compute; reflexivity|]. split; [reflexivity|].
  apply (correction_tick_publishes_clock goChunks UTC T0 lastPut startedTrace).
  - vm_compute; reflexivity.
  - vm_compute; reflexivity.
  - reflexivity.
Defined.

Lemma context_cancellation_ends_goroutine_witness :
  exists s p,
    run goChunks startedTrace (newFastime goChunks UTC T0 lastPut) = Some s /\
    procs s !! 0%nat = Some p /\ (pc p = pcSelect \/ pc p = pcNested) /\
    exists s1 s2, step goChunks (CancelCtx (ct p)) s = Some s1 /\
      obj s1 = obj s /\ heap s1 = heap s /\ procs s1 = procs s /\
      goStep goChunks 0 evDone s1 = Some s2 /\ IsDaemonRunning s2 = false /\
      dur (obj s2) = dur (obj s) /\ snapshot s2 = snapshot s /\
      FormattedBytes s2 = FormattedBytes s /\
      forall ls' s3 e, run goChunks ls' s2 = Some s3 -> goStep goChunks 0 e s3 = None.
Proof.
  eexists _, _. split; [vm_compute; reflexivity|].
  split; [vm_compute; reflexivity|]. split; [left; reflexivity|].
  apply (context_cancellation_ends_goroutine goChunks UTC T0 lastPut startedTrace).
  - vm_compute; reflexivity.
  - vm_compute; reflexivity.
  - left; reflexivity.
Defined.

Lemma store_writes_only_its_buffer_witness :
  exists s a,
    run goChunks twoBuffersTrace (newFastime goChunks UTC T0 lastPut) = Some s /\
    heap s !! 0%nat = Some a /\
    (forall k b, lastPut = Some k -> pool (obj s) !! k = Some b ->
       arr (buf b) <> 0%nat) /\
    heap (store goChunks (clockTime (T0 + 2 * Second) UTC) lastPut s) !! 0%nat
      = Some a /\
    forall sl, arr sl = 0%nat ->
      readSlice (heap (store goChunks (clockTime (T0 + 2 * Second) UTC) lastPut s)) sl
        = readSlice (heap s) sl.
Proof.
  eexists _, _. split; [vm_compute; reflexivity|].
  split; [vm_compute; reflexivity|].
  split; [intros k b [= <-]; vm_compute; intros [= <-]; discriminate|].
  apply (store_writes_only_its_buffer goChunks).
  - vm_compute; reflexivity.
  - intros k b [= <-]; vm_compute; intros [= <-]; discriminate.
Defined.

Lemma held_slice_overwritten_on_reuse_witness :
  exists s, run goChunks clockTrace (newFastime goChunks UTC T0 lastPut) = Some s /\
  let tm1 := clockTime (T0 + 2800 * Second) UTC in
  let tm2 := clockTime (T0 + 2801 * Second) UTC in
  let form := GetFormat s in
  let s1 := store goChunks tm1 lastPut s in
  let s2 := store goChunks tm2 lastPut s1 in
  (length (rendered goChunks tm1 form) <= length (rendered goChunks tm2 form))%nat /\
  (length (rendered goChunks tm2 form) <= String.length form)%nat /\
  exists sl, FormattedNow s1 = Some sl /\
    readSlice (heap s1) sl = rendered goChunks tm1 form /\
    FormattedBytes s2 = Some (rendered goChunks tm2 form) /\
    readSlice (heap s2) sl
      = take (length (rendered goChunks tm1 form)) (rendered goChunks tm2 form).
Proof.
  eexists. split; [vm_compute; reflexivity|].
  intros tm1 tm2 form s1 s2.
  split; [vm_compute; lia|]. split; [vm_compute; lia|].
  apply (held_slice_overwritten_on_reuse goChunks UTC T0 lastPut clockTrace).
  - vm_compute; reflexivity.
  - vm_compute; lia.
  - vm_compute; lia.
Defined.

Lemma setters_commute_witness :
  exists s, run goChunks startedTrace (newFastime goChunks UTC T0 lastPut) = Some s /\
  let form := "15:04:05"%string in
  let l := {| zoneName := "CET"; zoneOffset := 3600 |} in
  let c := T0 + 4 * Second in
  let sa := SetLocation goChunks l c lastPut
              (SetFormat goChunks form (T0 + 2 * Second) lastPut s) in
  let sb := SetFormat goChunks form c lastPut
              (SetLocation goChunks l (T0 + 3 * Second) fromNew s) in
  GetFormat sa = form /\ GetFormat sb = form /\
  GetLocation sa = l /\ GetLocation sb = l /\
  timeValues sa = timeValues sb /\ Now sa = Some (clockTime c l) /\
  FormattedBytes sa = Some (rendered goChunks (clockTime c l) form) /\
  FormattedBytes sb = Some (rendered goChunks (clockTime c l) form) /\
  (forall x, x = sa \/ x = sb ->
     IsDaemonRunning x = IsDaemonRunning s /\ dur (obj x) = dur (obj s) /\
     cancel (obj x) = cancel (obj s) /\ ctxs x = ctxs s /\ procs x = procs s).
Proof.
  eexists. split; [vm_compute; reflexivity|].
  apply (setters_commute goChunks UTC T0 lastPut startedTrace).
  vm_compute; reflexivity.
Defined.

Lemma tick_between_interval_writes_witness :
  exists s po pn tm,
    run goChunks restartingTrace (newFastime goChunks UTC T0 lastPut) = Some s /\
    0%nat <> 1%nat /\
    procs s !! 1%nat = Some pn /\ pc pn = pcSetMax /\
    procs s !! 0%nat = Some po /\ pc po = pcSelect /\
    Now s = Some tm /\
    exists s1 s2 tm', goStep goChunks 1 evNext s = Some s1 /\
      dur (obj s1) = MaxInt64 /\ Now s1 = Some tm /\
      goStep goChunks 0 (evTick lastPut) s1 = Some s2 /\ Now s2 = Some tm' /\
      sec tm' * 1000000000 + nsec tm'
        = sec tm * 1000000000 + nsec tm + (2 ^ 63 - 1) /\
      UnixNanoNow s2 = wrap64 (sec tm * 1000000000 + nsec tm + (2 ^ 63 - 1)).
Proof.
  eexists _, _, _, _. split; [vm_compute; reflexivity|].
  split; [discriminate|]. split; [vm_compute; reflexivity|].
  split; [reflexivity|]. split; [vm_compute; reflexivity|].
  split; [reflexivity|]. split; [vm_compute; reflexivity|].
  eapply (tick_between_interval_writes goChunks UTC T0 lastPut restartingTrace).
  - vm_compute; reflexivity.
  - discriminate.
  - vm_compute; reflexivity.
  - reflexivity.
  - vm_compute; reflexivity.
  - reflexivity.
  - vm_compute; reflexivity.
Defined.

Lemma Stop_before_NewTicker_panics_witness :
  exists s p,
    run goChunks intervalTrace (newFastime goChunks UTC T0 lastPut) = Some s /\
    procs s !! 0%nat = Some p /\ pc p = pcTickers /\
    IsDaemonRunning s = true /\ 0 < dur (obj s) /\
    (exists s', goStep goChunks 0 evNext s = Some s' /\
       procs s' !! 0%nat = Some {| pc := pcSelect; ct := ct p; arg := arg p |}) /\
    exists s1, Stop s = Some s1 /\ dur (obj s1) = 0 /\
      procs s1 !! 0%nat = Some p /\ forall e, goStep goChunks 0 e s1 = None.
Proof.
  eexists _, _. split; [vm_compute; reflexivity|].
  split; [vm_compute; reflexivity|]. split; [reflexivity|].
  split; [reflexivity|]. split; [vm_compute; reflexivity|].
  apply (Stop_before_NewTicker_panics goChunks UTC T0 lastPut intervalTrace).
  - vm_compute; reflexivity.
  - vm_compute; reflexivity.
  - reflexivity.
  - reflexivity.
  - vm_compute; reflexivity.
Defined.

Lemma store_reuse_allocates_nothing_witness :
  exists s b,
    run goChunks clockTrace (newFastime goChunks UTC T0 lastPut) = Some s /\
    pool (obj s) !! 0%nat = Some b /\
    (String.length (GetFormat s) <= Cap b)%nat /\
    let tm := clockTime (T0 + 2800 * Second) UTC in
    (length (rendered goChunks tm (GetFormat s)) <= Cap b)%nat /\
    length (heap (store goChunks tm (Some 0%nat) s)) = length (heap s) /\
    length (pool (obj (store goChunks tm (Some 0%nat) s))) = length (pool (obj s)) /\
    pool (obj (store goChunks tm (Some 0%nat) s)) !! 0%nat = Some b /\
    exists sl, FormattedNow (store goChunks tm (Some 0%nat) s) = Some sl /\
      arr sl = arr (buf b) /\
      readSlice (heap (store goChunks tm (Some 0%nat) s)) sl
        = rendered goChunks tm (GetFormat s).
Proof.
  eexists _, _. split; [vm_compute; reflexivity|].
  split; [vm_compute; reflexivity|]. split; [vm_compute; lia|].
  intros tm. split; [vm_compute; lia|].
  apply (store_reuse_allocates_nothing goChunks UTC T0 lastPut clockTrace).
  - vm_compute; reflexivity.
  - vm_compute; reflexivity.
  - vm_compute; lia.
  - vm_compute; lia.
Defined.

Lemma flag_set_means_goroutine_started_witness :
  exists s, run goChunks startedTrace (newFastime goChunks UTC T0 lastPut) = Some s /\
    IsDaemonRunning s = true /\
    exists g p, procs s !! g = Some p /\ started p = true /\
      pc p <> pcStart /\ pc p <> pcExit.
Proof.
  eexists. split; [vm_compute; reflexivity|]. split; [reflexivity|].
  apply (flag_set_means_goroutine_started goChunks UTC T0 lastPut startedTrace).
  - vm_compute; reflexivity.
  - reflexivity.
Defined.

(** ** Interleavings *)

(** C1, the claim as stated fails: the daemon's tick has stored its
    instant (line 101) when a caller runs a whole [SetFormat]; the tick
    then stores the other fields.  Every call has returned and the
    goroutine is back at its [select]: [Now()] is the caller's instant,
    [UnixNow()], [UnixNanoNow()] and the formatted bytes are the tick's. *)
Lemma overlapping_stores_leave_torn_snapshot :
  exists m,
    mrun goChunks tornSchedule (minit goChunks UTC T0 lastPut) = Some m /\
    threads m = [[]; [iLoop 0]; []] /\
    Now (shared m) = Some tCall /\
    UnixNow (shared m) = Unix tTick /\ UnixNanoNow (shared m) = UnixNano tTick /\
    FormattedBytes (shared m) = Some (rendered goChunks tTick (GetFormat (shared m))) /\
    UnixNow (shared m) <> Unix tCall /\
    UnixNanoNow (shared m) <> UnixNano tCall /\
    FormattedBytes (shared m) <> Some (rendered goChunks tCall (GetFormat (shared m))).
Proof.
  eexists. split; [vm_compute; reflexivity|].
  split; [reflexivity|]. split; [reflexivity|].
  split; [vm_compute; reflexivity|]. split; [vm_compute; reflexivity|].
  split; [vm_compute; reflexivity|]. split; [vm_compute; discriminate|].
  split; vm_compute; discriminate.
Qed.

Lemma store_alone_publishes_one_instant_witness :
  exists m,
    mrun goChunks midStoreSchedule (minit goChunks UTC T0 lastPut) = Some m /\
    threads m !! 2%nat = Some (storeCode tCall ++ []) /\
    (exists m',
       mrun goChunks
         (alone 2 (storeChoices lastPut
                     (length (goChunks tCall (GetFormat (shared m)))))) m
         = Some m' /\
       threads m' !! 2%nat = Some [] /\
       Now (shared m') = Some tCall /\
       UnixNow (shared m') = Unix tCall /\
       UnixNanoNow (shared m') = UnixNano tCall /\
       FormattedBytes (shared m')
         = Some (rendered goChunks tCall (GetFormat (shared m')))) /\
    (forall l m0 m1, mstep goChunks l m0 = Some m1 -> outsideStore l m0 ->
       snapshot (shared m1) = snapshot (shared m0) /\
       FormattedBytes (shared m1) = FormattedBytes (shared m0) /\
       GetFormat (shared m1) = GetFormat (shared m0)).
Proof.
  eexists. split; [vm_compute; reflexivity|]. split; [vm_compute; reflexivity|].
  apply (store_alone_publishes_one_instant goChunks UTC T0 lastPut midStoreSchedule
           _ 2%nat tCall [] lastPut).
  - vm_compute; reflexivity.
  - vm_compute; reflexivity.
Defined.

(** C2, the claim as stated fails: the daemon's tick has stored its
    instant and its seconds (lines 101 and 104) when a caller runs a whole
    [SetFormat]; the tick then stores its nanoseconds and both compact
    fields.  With every call returned, [UnixNow()] is the caller's second
    and [UnixUNow()] the tick's. *)
Lemma overlapping_stores_split_compact_fields :
  exists m,
    mrun goChunks compactSchedule (minit goChunks UTC T0 lastPut) = Some m /\
    threads m = [[]; [iLoop 0]; []] /\
    UnixNow (shared m) = 1700000002 /\ UnixUNow (shared m) = 1700000001 /\
    UnixUNow (shared m) <> UnixNow (shared m) mod 2 ^ 32.
Proof.
  eexists. split; [vm_compute; reflexivity|].
  split; [reflexivity|]. split; [reflexivity|]. split; [reflexivity|].
  vm_compute; discriminate.
Qed.

Lemma store_alone_compact_low_32_bits_witness :
  exists m,
    mrun goChunks midStoreSchedule (minit goChunks UTC T0 lastPut) = Some m /\
    threads m !! 2%nat = Some (storeCode tCall ++ []) /\
    (exists m',
       mrun goChunks
         (alone 2 (storeChoices fromNew
                     (length (goChunks tCall (GetFormat (shared m)))))) m
         = Some m' /\
       UnixUNow (shared m') = UnixNow (shared m') mod 2 ^ 32 /\
       UnixUNanoNow (shared m') = UnixNanoNow (shared m') mod 2 ^ 32) /\
    (forall l m0 m1, mstep goChunks l m0 = Some m1 -> noStoreStep l m0 ->
       UnixNow (shared m1) = UnixNow (shared m0) /\
       UnixUNow (shared m1) = UnixUNow (shared m0) /\
       UnixNanoNow (shared m1) = UnixNanoNow (shared m0) /\
       UnixUNanoNow (shared m1) = UnixUNanoNow (shared m0)).
Proof.
  eexists. split; [vm_compute; reflexivity|]. split; [vm_compute; reflexivity|].
  apply (store_alone_compact_low_32_bits goChunks UTC T0 lastPut midStoreSchedule
           _ 2%nat tCall [] fromNew).
  - vm_compute; reflexivity.
  - vm_compute; reflexivity.
Defined.

(** C3, the claim as stated fails: the daemon's tick loads the format and
    renders; a caller runs [SetFormat("15:04:05")] up to its
    [f.ft.Store]; the tick stores its slice; the caller puts its buffer
    back and returns.  At that return the format is the new one and the
    published bytes are the tick's instant in the old one. *)
Lemma SetFormat_returns_with_old_format_published :
  exists m,
    mrun goChunks staleSchedule (minit goChunks UTC T0 lastPut) = Some m /\
    threads m !! 2%nat = Some [] /\
    GetFormat (shared m) = "15:04:05"%string /\
    FormattedBytes (shared m) = Some (rendered goChunks tTick RFC3339) /\
    FormattedBytes (shared m) = Some (bytesOf "2023-11-14T22:13:21Z") /\
    FormattedBytes (shared m) <> Some (rendered goChunks tCall "15:04:05").
Proof.
  eexists. split; [vm_compute; reflexivity|].
  split; [reflexivity|]. split; [reflexivity|].
  split; [vm_compute; reflexivity|]. split; [vm_compute; reflexivity|].
  vm_compute; discriminate.
Qed.

Lemma setter_alone_publishes_new_configuration_witness :
  exists m,
    mrun goChunks midTickSchedule (minit goChunks UTC T0 lastPut) = Some m /\
    let i := length (threads m) in
    (forall form c pick,
       let tm := clockTime c (GetLocation (shared m)) in
       exists m',
         mrun goChunks
           (MCall (opSetFormat form)
              :: alone i (setterChoices c pick (length (goChunks tm form)))) m
           = Some m' /\
         threads m' !! i = Some [] /\
         GetFormat (shared m') = form /\
         Now (shared m') = Some tm /\
         FormattedBytes (shared m') = Some (rendered goChunks tm form)) /\
    (forall l c pick,
       let tm := clockTime c l in
       exists m',
         mrun goChunks
           (MCall (opSetLocation l)
              :: alone i (setterChoices c pick
                            (length (goChunks tm (GetFormat (shared m)))))) m
           = Some m' /\
         threads m' !! i = Some [] /\
         GetLocation (shared m') = l /\
         Now (shared m') = Some tm /\
         FormattedBytes (shared m') = Some (rendered goChunks tm (GetFormat (shared m)))).
Proof.
  eexists. split; [vm_compute; reflexivity|].
  apply (setter_alone_publishes_new_configuration goChunks UTC T0 lastPut
           midTickSchedule).
  vm_compute; reflexivity.
Defined.

(** [Stop()] can also return with the flag cleared: the goroutine takes
    [Done()] between [f.cancel()] and the store of the interval. *)
Lemma Stop_returns_with_flag_cleared :
  exists m,
    mrun goChunks stopRaceSchedule (minit goChunks UTC T0 lastPut) = Some m /\
    threads m = [[]; []; []] /\
    IsDaemonRunning (shared m) = false /\ dur (obj (shared m)) = 0.
Proof.
  eexists. split; [vm_compute; reflexivity|]. by repeat split.
Qed.

Lemma Stop_cancels_and_goroutine_exits_witness :
  exists m,
    mrun goChunks (mStarted ++ [MCancel 0]) (minit goChunks UTC T0 lastPut) = Some m /\
    IsDaemonRunning (shared m) = true /\ isDone 0 (shared m) = true /\
    threads m !! 1%nat = Some [iLoop 0] /\
    (forall l m', mstep goChunks l m = Some m' ->
       IsDaemonRunning (shared m') <> IsDaemonRunning (shared m) ->
       exists i rest, l = MStep i chNone /\
         threads m !! i = Some (iSetRunning (IsDaemonRunning (shared m')) :: rest)) /\
    (IsDaemonRunning (shared m) = true ->
     exists c m',
       cancel (obj (shared m)) = Some c /\
       mrun goChunks
         (MCall opStop :: alone (length (threads m)) [chNone; chNone; chNone]) m
         = Some m' /\
       threads m' !! length (threads m) = Some [] /\
       isDone c (shared m') = true /\ dur (obj (shared m')) = 0 /\
       IsDaemonRunning (shared m') = true /\
       snapshot (shared m') = snapshot (shared m)) /\
    (forall c, isDone c (shared m) = true ->
       (forall ls' m', mrun goChunks ls' m = Some m' -> isDone c (shared m') = true) /\
       (forall g, threads m !! g = Some [iLoop c] \/ threads m !! g = Some [iNested c] ->
          exists m',
            mrun goChunks (alone g [chDone; chNone]) m = Some m' /\
            IsDaemonRunning (shared m') = false /\
            snapshot (shared m') = snapshot (shared m) /\
            FormattedBytes (shared m') = FormattedBytes (shared m) /\
            threads m' !! g = Some [] /\
            forall ls' m3 ch,
              mrun goChunks ls' m' = Some m3 -> mstep goChunks (MStep g ch) m3 = None)).
Proof.
  eexists. split; [vm_compute; reflexivity|].
  split; [reflexivity|]. split; [reflexivity|]. split; [reflexivity|].
  apply (Stop_cancels_and_goroutine_exits goChunks UTC T0 lastPut
           (mStarted ++ [MCancel 0])).
  vm_compute; reflexivity.
Defined.

(** A cheap update can move [Now()] backwards without any refresh of the
    daemon: its [update] has loaded the instant and the interval when a
    caller runs a whole [SetFormat], which publishes the clock's 22:13:22;
    the store of the update then publishes 22:13:21.5. *)
Lemma update_overwrites_newer_instant :
  exists m1 m2,
    mrun goChunks
      (mStarted ++ alone 1 (take 3 (tickOf "15:04:05")) ++
       MCall (opSetFormat "15:04:05") :: alone 2 setterOf)
      (minit goChunks UTC T0 lastPut) = Some m1 /\
    mstep goChunks (MStep 1 chNone) m1 = Some m2 /\
    Now (shared m1) = Some tCall /\ Now (shared m2) = Some tTick /\
    ~ Time_le tCall tTick.
Proof.
  eexists _, _. split; [vm_compute; reflexivity|].
  split; [vm_compute; reflexivity|]. split; [reflexivity|]. split; [reflexivity|].
  unfold Time_le. vm_compute. intros [H|[H _]]; discriminate H.
Qed.

Lemma engine_store_alone_monotone_witness :
  exists m,
    mrun goChunks mStarted (minit goChunks UTC T0 lastPut) = Some m /\
    Now (shared m) = Some (clockTime (T0 + Second) UTC) /\
    threads m !! 1%nat = Some [iLoop 0] /\
    (threads m !! 1%nat = Some [iLoop 0] -> forall pick,
       let tm' := Add (clockTime (T0 + Second) UTC) (dur (obj (shared m))) in
       exists m',
         mrun goChunks
           (alone 1 (tickChoices pick (length (goChunks tm' (GetFormat (shared m)))))) m
           = Some m' /\
         threads m' !! 1%nat = Some [iLoop 0] /\
         Now (shared m') = Some tm' /\
         (0 <= dur (obj (shared m)) -> Time_le (clockTime (T0 + Second) UTC) tm')) /\
    (threads m !! 1%nat = Some [iNested 0] -> forall c pick,
       let tm' := clockTime c (GetLocation (shared m)) in
       exists m',
         mrun goChunks
           (alone 1 (correctionChoices c pick
                       (length (goChunks tm' (GetFormat (shared m)))))) m
           = Some m' /\
         threads m' !! 1%nat = Some [iLoop 0] /\
         Now (shared m') = Some tm').
Proof.
  eexists. split; [vm_compute; reflexivity|]. split; [reflexivity|].
  split; [reflexivity|].
  apply (engine_store_alone_monotone goChunks UTC T0 lastPut mStarted).
  - vm_compute; reflexivity.
  - reflexivity.
Defined.

Lemma StartTimerD_alone_witness :
  exists m,
    mrun goChunks mStarted (minit goChunks UTC T0 lastPut) = Some m /\
    let d := 200 * Millisecond in
    let c := cCall in
    let pick := lastPut in
    let s := shared m in
    let i := length (threads m) in
    let tm := clockTime c (GetLocation s) in
    let chs := startChoices (IsDaemonRunning s) c pick
                 (length (goChunks tm (GetFormat s))) in
    (forall pd, exists m',
       mrun goChunks (MCall (opStartTimerD (Some pd) d) :: alone i chs) m = Some m' /\
       threads m' = threads m ++ [[]; goroutine (length (ctxs s)) d] /\
       cancel (obj (shared m')) = Some (length (ctxs s)) /\
       isDone (length (ctxs s)) (shared m') = pd /\
       Now (shared m') = Some tm /\
       FormattedBytes (shared m') = Some (rendered goChunks tm (GetFormat s)) /\
       GetFormat (shared m') = GetFormat s /\
       GetLocation (shared m') = GetLocation s /\
       IsDaemonRunning (shared m') = IsDaemonRunning s /\
       (IsDaemonRunning s = false ->
        ctxs (shared m') = ctxs s ++ [pd] /\ dur (obj (shared m')) = dur (obj s)) /\
       (IsDaemonRunning s = true ->
        exists old, cancel (obj s) = Some old /\
          ctxs (shared m') = <[old := true]> (ctxs s) ++ [pd] /\
          dur (obj (shared m')) = 0)) /\
    (exists m1,
       mrun goChunks
         (MCall (opStartTimerD None d) :: alone i (take (length chs - 2) chs)) m
         = Some m1 /\
       threads m1 !! i = Some [iWithCancel None d] /\
       Now (shared m1) = Some tm /\
       (IsDaemonRunning s = true -> dur (obj (shared m1)) = 0) /\
       forall ch, mstep goChunks (MStep i ch) m1 = None).
Proof.
  eexists. split; [vm_compute; reflexivity|].
  apply (StartTimerD_alone goChunks UTC T0 lastPut mStarted).
  vm_compute; reflexivity.
Defined.

Lemma store_alone_accessors_agree_witness :
  exists m,
    mrun goChunks midStoreSchedule (minit goChunks UTC T0 lastPut) = Some m /\
    threads m !! 2%nat = Some (storeCode tCall ++ []) /\
    - 2 ^ 63 <= sec tCall * 1000000000 + nsec tCall < 2 ^ 63 /\
    exists m',
      mrun goChunks
        (alone 2 (storeChoices lastPut
                    (length (goChunks tCall (GetFormat (shared m)))))) m
        = Some m' /\
      Now (shared m') = Some tCall /\
      UnixNow (shared m') = UnixNanoNow (shared m') / 1000000000 /\
      UnixNanoNow (shared m') mod 1000000000 = nsec tCall /\
      (0 <= UnixNow (shared m') < 2 ^ 32 -> UnixUNow (shared m') = UnixNow (shared m')).
Proof.
  eexists. split; [vm_compute; reflexivity|]. split; [vm_compute; reflexivity|].
  split; [vm_compute; split; [discriminate | reflexivity]|].
  apply (store_alone_accessors_agree goChunks UTC T0 lastPut midStoreSchedule
           _ 2%nat tCall [] lastPut).
  - vm_compute; reflexivity.
  - vm_compute; reflexivity.
  - vm_compute; split; [discriminate | reflexivity].
Defined.
